(** * GPT_Arithmetic: a shallow embedding of [gpt_adder.ipynb]

    The notebook trains a small decoder-only transformer to add integers
    written as character sequences.  This development embeds the
    tokenizer, the batch generator, the transformer forward pass and the
    sampling loop, and states the properties of the specification over
    these definitions.

    Conventions.
    - Python exceptions are values of [exn]; a computation that may raise
      returns a [result].
    - Token ids are [Z] (the ignore label [-1] lives in the same tensors).
    - Sizes and dimensions are [nat].
    - The random generators of numpy and torch are explicit states.
    - The elements of float tensors are taken from a carrier [R] with the
      operations of the class [Scalar]; the model runs on exact integers and
      on IEEE binary64 numbers. *)

From Stdlib Require Import ZArith List String Ascii Lia Bool.
From Stdlib Require Floats Uint63.
From stdpp Require Import gmap strings list fin_maps.

Local Open Scope string_scope.

(** ** Exceptions and results *)

(** The exceptions the notebook can raise: a failed [assert], a missing
    dictionary key, an index out of range, an error of the torch runtime
    (a shape that does not fit, a lookup in an empty table, a distribution
    that cannot be sampled, an assertion on the device), a bad argument to
    a library call, and a remainder by zero. *)
Inductive exn : Type :=
| AssertionError
| KeyError
| IndexError
| RuntimeError
| ValueError
| ZeroDivisionError.

Inductive result (A : Type) : Type :=
| Ok (a : A)
| Raise (e : exn).

Arguments Ok {A} a.
Arguments Raise {A} e.

Global Instance result_ret : MRet result := fun A a => Ok a.
Global Instance result_bind : MBind result := fun A B f m =>
  match m with
  | Ok a => f a
  | Raise e => Raise e
  end.

Definition succeeds {A} (r : result A) : Prop := exists a, r = Ok a.

(** ** Tokenizer (notebook cell 2) *)

(** [sorted] on Python strings: a stable sort by code points. *)
Fixpoint insert_sorted (s : string) (l : list string) : list string :=
  match l with
  | [] => [s]
  | h :: t => if String.leb s h then s :: l else h :: insert_sorted s t
  end.

Definition sorted (l : list string) : list string :=
  foldr insert_sorted [] l.

Definition vocab : list string :=
  sorted ["0"; "1"; "2"; "3"; "4"; "5"; "6"; "7"; "8"; "9"; "10";
          "+"; "="; "<START>"; "<END>"; "<PAD>"].

Definition vocab_size : nat := length vocab.

(** [{vocab[i]:i for i in range(vocab_size)}]: later keys overwrite
    earlier ones. *)
Definition ctoi : gmap string Z :=
  foldl (fun m i => match vocab !! i with
                    | Some c => <[c := Z.of_nat i]> m
                    | None => m
                    end) ∅ (seq 0 vocab_size).

(** [{i:vocab[i] for i in range(vocab_size)}] *)
Definition itoc : gmap Z string :=
  foldl (fun m i => match vocab !! i with
                    | Some c => <[Z.of_nat i := c]> m
                    | None => m
                    end) ∅ (seq 0 vocab_size).

(** A dictionary subscript [d[k]] raises [KeyError] on a missing key. *)
Definition subscript `{Countable K} {V} (d : gmap K V) (k : K) : result V :=
  match d !! k with
  | Some v => Ok v
  | None => Raise KeyError
  end.

(** [encode = lambda s: [ctoi[c] for c in s]] *)
Definition encode (s : list string) : result (list Z) :=
  mapM (subscript ctoi) s.

(** [decode = lambda s: [itoc[ix] for ix in s]] *)
Definition decode (s : list Z) : result (list string) :=
  mapM (subscript itoc) s.

(** The symbol set as the specification lists it, for comparison with
    [vocab]. *)
Definition spec_symbols : list string :=
  ["0"; "1"; "2"; "3"; "4"; "5"; "6"; "7"; "8"; "9";
   "+"; "="; "<START>"; "<END>"; "<PAD>"].

(** ** numpy's random generator and Python's string helpers *)

(** The global numpy generator: an unbounded supply of raw draws and the
    number already consumed. *)
Record np_random : Type := mk_np {
  np_stream : nat -> Z;
  np_pos : nat
}.

(** Computations that read the generator and may raise. *)
Definition NP (A : Type) : Type := np_random -> result (A * np_random).

Global Instance NP_ret : MRet NP := fun A a s => Ok (a, s).
Global Instance NP_bind : MBind NP := fun A B f m s =>
  match m s with
  | Ok (a, s') => f a s'
  | Raise e => Raise e
  end.

Definition np_raise {A} (e : exn) : NP A := fun _ => Raise e.
Definition np_lift {A} (r : result A) : NP A := fun s =>
  match r with
  | Ok a => Ok (a, s)
  | Raise e => Raise e
  end.

(** [np.random.randint(low, high, size)]: [size] integers drawn from
    [low .. high-1]; [ValueError] when the range is empty or when [high-1]
    does not fit the default 64-bit integer type. *)
Definition randint (low high : Z) (size : nat) : NP (list Z) := fun s =>
  if (high <=? low)%Z then Raise ValueError
  else if (2 ^ 63 <? high)%Z then Raise ValueError
  else if (low <? - 2 ^ 63)%Z then Raise ValueError
  else Ok (map (fun i => (low + np_stream s (np_pos s + i) mod (high - low))%Z)
               (seq 0 size),
           mk_np (np_stream s) (np_pos s + size)).

(** Addition of two numpy 64-bit integers (wraps around). *)
Definition wrap64 (z : Z) : Z := ((z + 2 ^ 63) mod 2 ^ 64 - 2 ^ 63)%Z.
Definition add64 (a b : Z) : Z := wrap64 (a + b).

Definition digit_char (d : Z) : ascii := ascii_of_nat (48 + Z.to_nat d).

(** Decimal digits of a non-negative [n], most significant first, pushed
    in front of [acc]. *)
Fixpoint digits_acc (fuel : nat) (n : Z) (acc : string) : string :=
  match fuel with
  | O => acc
  | S f =>
      let acc' := String (digit_char (n mod 10)) acc in
      if (n / 10 =? 0)%Z then acc' else digits_acc f (n / 10) acc'
  end.

(** [str(n)] for an integer. *)
Definition str (n : Z) : string :=
  if (n <? 0)%Z
  then String "-" (digits_acc (S (Z.to_nat (Z.log2 (- n)))) (- n) "")
  else digits_acc (S (Z.to_nat (Z.log2 n))) n "".

Definition zeros (n : nat) : string :=
  string_of_list_ascii (replicate n "0"%char).

Definition is_sign (c : ascii) : bool :=
  (Ascii.eqb c "+" || Ascii.eqb c "-")%bool.

(** [s.zfill(width)]: pad on the left with ['0'], after a leading sign. *)
Definition zfill (width : nat) (s : string) : string :=
  let n := String.length s in
  if (width <=? n)%nat then s
  else match s with
       | String c rest =>
           if is_sign c then String c (zeros (width - n) ++ rest)
           else zeros (width - n) ++ s
       | EmptyString => zeros width
       end.

(** [list(s)]: the characters of [s] as one-character strings. *)
Definition list_of_str (s : string) : list string :=
  map (fun c => String c EmptyString) (list_ascii_of_string s).

(** ** Integer tensors *)

(** A two-dimensional tensor of integers with its shape. *)
Record tensor2 : Type := mk_tensor2 {
  nrows : nat;
  ncols : nat;
  rows : list (list Z)
}.

(** [torch.stack] of one-dimensional tensors: the list must be non-empty
    and all tensors must have the size of the first one. *)
Definition stack (l : list (list Z)) : result tensor2 :=
  match l with
  | [] => Raise RuntimeError
  | r :: _ =>
      if forallb (fun r' => (length r' =? length r)%nat) l
      then Ok (mk_tensor2 (length l) (length r) l)
      else Raise RuntimeError
  end.

(** A (B, T) tensor of token ids below [V] whose data fits its shape. *)
Definition valid_idx (V : nat) (idx : tensor2) : Prop :=
  length (rows idx) = nrows idx /\
  Forall (fun r : list Z =>
            length r = ncols idx /\
            Forall (fun i => (0 <= i < Z.of_nat V)%Z) r) (rows idx).

(** The tensor with entry [j] of row [b] replaced by [v]. *)
Definition perturb (idx : tensor2) (b j : nat) (v : Z) : tensor2 :=
  mk_tensor2 (nrows idx) (ncols idx) (alter (fun r => <[j := v]> r) b (rows idx)).

(** [t[:n] = v] on a one-dimensional tensor. *)
Definition fill_prefix (n : nat) (v : Z) (t : list Z) : list Z :=
  (replicate (min n (length t)) v ++ drop n t)%list.

(** ** Batch generator (notebook cell 3) *)

(** The label that the loss ignores. *)
Definition ignore_index : Z := (-1)%Z.

(** One iteration of the loop of [generate_batch]. *)
Definition generate_example (block_size max_digits : nat) (backward : bool)
  : NP (list Z * list Z) :=
  ab ← randint 0 (10 ^ Z.of_nat max_digits - 1) 2;
  match ab with
  | [a; b] =>
      let c := add64 a b in
      let prompt := list_of_str (zfill max_digits (str a) ++ "+" ++
                                 zfill max_digits (str b) ++ "=") in
      let answer := list_of_str (zfill (max_digits + 1) (str c)) in
      let answer := if backward then rev answer else answer in
      let prompt := "<START>" :: prompt in
      let answer := (answer ++ ["<END>"])%list in
      let problem := (prompt ++ answer)%list in
      let tot_len := length problem in
      let problem :=
        (problem ++ replicate (block_size + 1 - tot_len) "<PAD>")%list in
      let input := take block_size problem in
      let target := drop 1 (take (block_size + 1) problem) in
      input ← np_lift (encode input);
      target ← np_lift (encode target);
      let target := fill_prefix (2 * max_digits + 2) ignore_index target in
      mret (input, target)
  | _ => np_raise ValueError
  end.

(** The loop [for b in range(batch_size)], appending to [inputs] and
    [targets]. *)
Fixpoint generate_loop (n block_size max_digits : nat) (backward : bool)
  (inputs targets : list (list Z)) : NP (list (list Z) * list (list Z)) :=
  match n with
  | O => mret (inputs, targets)
  | S n' =>
      '(input, target) ← generate_example block_size max_digits backward;
      generate_loop n' block_size max_digits backward
                    (inputs ++ [input])%list (targets ++ [target])%list
  end.

Definition generate_batch (block_size batch_size max_digits : nat)
  (backward : bool) : NP (tensor2 * tensor2) :=
  let max_problem_size := 3 * max_digits + 7 in
  if negb (max_problem_size <=? block_size)%nat then np_raise AssertionError
  else
    '(inputs, targets) ← generate_loop batch_size block_size max_digits
                                       backward [] [];
    x ← np_lift (stack inputs);
    y ← np_lift (stack targets);
    mret (x, y).

(** Auxiliary definitions used to state the properties of the tokenizer
    and of the batch generator. *)

(** The symbols paired with their ids. *)
Definition numbered : list (string * Z) :=
  zip vocab (Z.of_nat <$> seq 0 vocab_size).

Definition swap {A B} (p : A * B) : B * A := (p.2, p.1).

(** [int(s)] for a string of decimal digits. *)
Fixpoint dec_value (s : string) : Z :=
  match s with
  | EmptyString => 0%Z
  | String c r =>
      ((Z.of_nat (nat_of_ascii c) - 48) * 10 ^ Z.of_nat (String.length r)
       + dec_value r)%Z
  end.

(** The problem string of operands [a] and [b] before padding, as
    [generate_example] builds it. *)
Definition problem_of (max_digits : nat) (backward : bool) (a b : Z)
  : list string :=
  let c := add64 a b in
  let prompt := list_of_str (zfill max_digits (str a) ++ "+" ++
                             zfill max_digits (str b) ++ "=") in
  let answer := list_of_str (zfill (max_digits + 1) (str c)) in
  let answer := if backward then rev answer else answer in
  let prompt := "<START>" :: prompt in
  let answer := (answer ++ ["<END>"])%list in
  (prompt ++ answer)%list.

(** The problem string padded to at least [block_size + 1] symbols. *)
Definition padded_problem (block_size max_digits : nat) (backward : bool)
  (a b : Z) : list string :=
  let problem := problem_of max_digits backward a b in
  (problem ++ replicate (block_size + 1 - length problem) "<PAD>")%list.

(** A string of decimal digits. *)
Definition digit_string (s : string) : Prop :=
  Forall (fun c => exists m, (0 <= m < 10)%Z /\ c = digit_char m)
         (list_ascii_of_string s).

(** The string of [n] characters ['9']. *)
Definition nines (n : nat) : string :=
  string_of_list_ascii (replicate n "9"%char).

(** A generator state whose next two draws are 3 and 4, and the batch of
    one example that [generate_batch 10 1 1 false] builds from it. *)
Definition example_np : np_random :=
  mk_np (fun i => match i with O => 3%Z | _ => 4%Z end) 0.

Definition example_x : list Z := [14; 5; 0; 6; 15; 1; 9; 12; 13; 13]%Z.
Definition example_y : list Z := [-1; -1; -1; -1; 1; 9; 12; 13; 13; 13]%Z.

(** The batch printed in cell 5 of the notebook
    ([generate_batch(38, 1, 10, backward=True)]), and a generator state
    that draws its two operands, 2306429428 and 6475420785. *)
Definition notebook_np : np_random :=
  mk_np (fun i => match i with O => 2306429428%Z | _ => 6475420785%Z end) 0.

Definition notebook_x : list Z :=
  [14; 4; 5; 1; 8; 6; 4; 11; 6; 4; 10; 0; 8; 6; 9; 7; 6; 4; 1; 9; 10; 7; 15;
   5; 2; 4; 1; 7; 10; 2; 10; 9; 10; 1; 12; 13; 13; 13]%Z.

Definition notebook_y : list Z :=
  [-1; -1; -1; -1; -1; -1; -1; -1; -1; -1; -1; -1; -1; -1; -1; -1; -1; -1;
   -1; -1; -1; -1; 5; 2; 4; 1; 7; 10; 2; 10; 9; 10; 1; 12; 13; 13; 13; 13]%Z.

Local Open Scope list_scope.
Local Open Scope nat_scope.

(** ** Scalars *)

(** The arithmetic of tensor elements.  The notebook computes in 32-bit
    floating point; the model is stated over any carrier with these
    operations, so that it can be run on a concrete one. *)
Class Scalar (R : Type) : Type := {
  rzero : R;
  rone : R;
  radd : R -> R -> R;
  rsub : R -> R -> R;
  rmul : R -> R -> R;
  rdiv : R -> R -> R;
  rexp : R -> R;
  rlog : R -> R;
  rsqrt : R -> R;
  rmax : R -> R -> R;
  (** conversion of a size to a scalar *)
  of_nat : nat -> R;
  (** [float("-inf")] *)
  ninf : R;
  (** the [eps] of [nn.LayerNorm] *)
  ln_eps : R;
  (** a Bernoulli draw: whether an element survives a dropout of rate [p] *)
  keep : R -> Z -> bool;
  (** a draw from the categorical distribution with the given weights *)
  sample : list R -> Z -> nat;
  (** the test [p == 0] of the dropout layers: a dropout of rate zero
      returns its input and draws nothing *)
  rate_is_zero : R -> bool;
  (** the check of [nn.Dropout]: the rate is neither below zero nor above
      one *)
  rate_ok : R -> bool;
  (** the checks of [torch.multinomial] on one distribution: no weight is
      infinite, not a number or negative, and their sum is positive *)
  valid_probs : list R -> bool
}.

(** [torch.multinomial] returns the index of one of the categories. *)
Class SampleInRange (R : Type) `{Scalar R} : Prop := {
  sample_lt : forall ws z, ws <> [] -> sample ws z < length ws
}.

(** The identities of real arithmetic, extended with minus infinity, that
    causal masking relies on: a masked score has exponential zero, and a
    zero weight contributes nothing to a sum.  They describe exact
    arithmetic.  The floating-point numbers of the notebook satisfy them
    only on finite operands: there zero times infinity, zero divided by
    zero and the exponential of infinity minus infinity are not a number.
    What is proved under this class is proved of runs in exact arithmetic;
    [float_lm] below is a run that overflows. *)
Class IdealScalar (R : Type) `{Scalar R} : Prop := {
  radd_0_r : forall a, radd a rzero = a;
  rmul_0_l : forall a, rmul rzero a = rzero;
  rdiv_0_l : forall a, rdiv rzero a = rzero;
  rexp_ninf : forall a, rexp (radd a ninf) = rzero
}.

(** ** The device *)

(** [device = 'cuda' if torch.cuda.is_available() else 'cpu'] (cell 1): the
    machine decides where the tensors live.  The device shows in the
    exception that an index outside a table raises: [IndexError] on the
    CPU, the [RuntimeError] of a device-side assertion on CUDA.  (CUDA
    reports the assertion when the host next waits for the device; the
    model raises it at the lookup.) *)
Inductive device_kind : Type := cpu | cuda.

Class Device : Type := device : device_kind.

Definition index_error `{Device} : exn :=
  match device with
  | cpu => IndexError
  | cuda => RuntimeError
  end.

(** The random draws of one torch library call, addressed by the position
    of the element they are used for. *)
Definition tape : Type := list nat -> Z.

Definition sub_tape (tp : tape) (k : nat) : tape := fun key => tp (k :: key).

Section Model.

Context {R : Type} {SR : Scalar R} {DV : Device}.

(** ** Float tensors and layers *)

(** A tensor of shape (B, T, C) with its elements, batch-major. *)
Record tensor3 : Type := mk_tensor3 {
  dimB : nat;
  dimT : nat;
  dimC : nat;
  data : list (list (list R))
}.

(** A function applied to every feature vector of a tensor. *)
Definition map_data (f : list R -> list R) (d : list (list (list R)))
  : list (list (list R)) :=
  (fun s : list (list R) => f <$> s) <$> d.

Definition sum (l : list R) : R := foldl radd rzero l.

Definition dot (x y : list R) : R := sum (zip_with rmul x y).

(** [t1 + t2] on tensors of the same shape. *)
Definition tensor3_add (x y : tensor3) : result tensor3 :=
  if ((dimB x =? dimB y) && (dimT x =? dimT y) && (dimC x =? dimC y))%bool
  then Ok (mk_tensor3 (dimB x) (dimT x) (dimC x)
             (zip_with (zip_with (zip_with radd)) (data x) (data y)))
  else Raise RuntimeError.

(** [nn.Dropout(p)]: the identity outside training and for the rate zero;
    otherwise every element is zeroed or scaled by [1/(1-p)]. *)
Definition dropout_elem (p : R) (z : Z) (x : R) : R :=
  if keep p z then rmul x (rdiv rone (rsub rone p)) else rzero.

Definition dropout_data (p : R) (training : bool) (tp : tape)
  (d : list (list (list R))) : list (list (list R)) :=
  if training
  then if rate_is_zero p then d
       else imap (fun b s =>
              imap (fun t v =>
                imap (fun c x => dropout_elem p (tp [b; t; c]) x) v) s) d
  else d.

Definition Dropout_forward (p : R) (training : bool) (tp : tape)
  (x : tensor3) : tensor3 :=
  mk_tensor3 (dimB x) (dimT x) (dimC x) (dropout_data p training tp (data x)).

(** [nn.Linear(in_features, out_features, bias)]: [weight] has one row per
    output feature.  Every output is a dot product summed from left to
    right, whatever the shape of the batch; the kernels of torch choose the
    order of summation by the shape, so in floating point their results
    agree with these up to rounding only. *)
Record Linear : Type := mk_Linear {
  in_features : nat;
  out_features : nat;
  weight : list (list R);
  bias : option (list R)
}.

Definition linear_vec (l : Linear) (x : list R) : list R :=
  match bias l with
  | Some b => zip_with (fun w bj => radd (dot x w) bj) (weight l) b
  | None => (fun w => dot x w) <$> weight l
  end.

(** The layer applies to the last dimension, which must be [in_features]. *)
Definition Linear_forward (l : Linear) (x : tensor3) : result tensor3 :=
  if dimC x =? in_features l
  then Ok (mk_tensor3 (dimB x) (dimT x) (out_features l)
             (map_data (linear_vec l) (data x)))
  else Raise RuntimeError.

(** [nn.LayerNorm(normalized_shape)] over the last dimension. *)
Record LayerNorm : Type := mk_LayerNorm {
  normalized_shape : nat;
  ln_weight : list R;
  ln_bias : list R
}.

Definition mean (x : list R) : R := rdiv (sum x) (of_nat (length x)).

Definition layer_norm_vec (ln : LayerNorm) (x : list R) : list R :=
  let mu := mean x in
  let var := mean ((fun xi => rmul (rsub xi mu) (rsub xi mu)) <$> x) in
  let sd := rsqrt (radd var ln_eps) in
  zip_with (fun xh gb => radd (rmul xh gb.1) gb.2)
           ((fun xi => rdiv (rsub xi mu) sd) <$> x)
           (zip (ln_weight ln) (ln_bias ln)).

Definition LayerNorm_forward (ln : LayerNorm) (x : tensor3) : result tensor3 :=
  if dimC x =? normalized_shape ln
  then Ok (mk_tensor3 (dimB x) (dimT x) (dimC x)
             (map_data (layer_norm_vec ln) (data x)))
  else Raise RuntimeError.

(** [nn.Embedding(num_embeddings, embedding_dim)]: [emb_weight] has one
    row per index. *)
Record Embedding : Type := mk_Embedding {
  emb_dim : nat;
  emb_weight : list (list R)
}.

(** The row of one index.  A lookup in a table without rows raises
    [RuntimeError]; an index outside a table that has rows raises the
    index error of the device. *)
Definition embedding_row (e : Embedding) (i : Z) : result (list R) :=
  match emb_weight e with
  | [] => Raise RuntimeError
  | _ :: _ =>
      if (i <? 0)%Z then Raise index_error
      else match emb_weight e !! Z.to_nat i with
           | Some v => Ok v
           | None => Raise index_error
           end
  end.

(** On a tensor of shape (B, T). *)
Definition Embedding_forward (e : Embedding) (idx : tensor2) : result tensor3 :=
  d ← mapM (mapM (embedding_row e)) (rows idx);
  Ok (mk_tensor3 (nrows idx) (ncols idx) (emb_dim e) d).

(** [torch.arange(T)] *)
Definition arange (T : nat) : list Z := Z.of_nat <$> seq 0 T.

(** [token_embeds + pos_embeds]: a (T, C) tensor added to every element of
    the batch.  Both operands come from tables of the same embedding
    dimension and have the same T. *)
Definition add_positions (x : tensor3) (C : nat) (pos : list (list R))
  : result tensor3 :=
  if ((dimT x =? length pos) && (dimC x =? C))%bool
  then Ok (mk_tensor3 (dimB x) (dimT x) (dimC x)
             ((fun s : list (list R) => zip_with (zip_with radd) s pos) <$> data x))
  else Raise RuntimeError.

(** ** Multi-head attention *)

(** The parameters and sizes of the module.  Its constructor also registers
    the buffer [tril], a lower-triangular matrix of ones; [forward] never
    reads it (the mask comes from [is_causal=True]), so it is left out. *)
Record MultiHeadAttention : Type := mk_MultiHeadAttention {
  mha_block_size : nat;
  mha_embedding_dim : nat;
  mha_total_head_size : nat;
  mha_head_size : nat;
  mha_num_heads : nat;
  mha_dropout_rate : R;
  mha_key : Linear;
  mha_query : Linear;
  mha_value : Linear;
  mha_proj : Linear
}.

(** [x.view(B,T,n,h).transpose(1,2)] on one element of the batch: head [j]
    receives the features [j*h .. j*h+h-1] of every position. *)
Definition split_heads (n h : nat) (xs : list (list R))
  : list (list (list R)) :=
  (fun j => (fun x : list R => take h (drop (j * h) x)) <$> xs) <$> seq 0 n.

(** [out.transpose(1,2).contiguous().view(B,T,n*h)] on one element of the
    batch: position [i] receives the outputs of all heads, concatenated. *)
Definition merge_heads (T : nat) (hs : list (list (list R)))
  : list (list R) :=
  (fun i => concat ((fun hd : list (list R) => default [] (hd !! i)) <$> hs))
    <$> seq 0 T.

(** The additive mask of [is_causal=True]: zero on and below the diagonal,
    minus infinity above. *)
Definition causal_bias (i j : nat) : R :=
  if j <=? i then rzero else ninf.

(** [F.softmax]: exponentials divided by their sum.  (torch subtracts the
    maximum first, which changes nothing in exact arithmetic; in floating
    point it matters where an exponential would overflow, and the scores
    and logits of [float_lm] below are zero, minus infinity or not
    numbers.) *)
Definition softmax (l : list R) : list R :=
  let e := rexp <$> l in
  let z := sum e in
  (fun ei => rdiv ei z) <$> e.

(** The attention weights of query [i]: scaled scores against every key,
    plus the mask, normalised by softmax. *)
Definition attn_row (scale : R) (ks : list (list R)) (i : nat) (q : list R)
  : list R :=
  softmax (imap (fun j k => radd (rmul (dot q k) scale) (causal_bias i j)) ks).

Definition attn_weight (scale : R) (qs ks : list (list R))
  : list (list R) :=
  imap (attn_row scale ks) qs.

Definition column (c : nat) (vs : list (list R)) : list R :=
  (fun v : list R => default rzero (v !! c)) <$> vs.

(** [attn_weight @ value] for one row of weights. *)
Definition weighted_values (h : nat) (vs : list (list R)) (w : list R)
  : list R :=
  (fun c => dot w (column c vs)) <$> seq 0 h.

(** Dropout on a matrix of attention weights. *)
Definition dropout_weights (p : R) (training : bool) (tp : tape)
  (w : list (list R)) : list (list R) :=
  if training
  then if rate_is_zero p then w
       else imap (fun i r => imap (fun j x => dropout_elem p (tp [i; j]) x) r) w
  else w.

(** [F.scaled_dot_product_attention(q, k, v, dropout_p, is_causal=True)]
    for one head of one element of the batch.  [dropout_p] is zero outside
    training, and such a dropout leaves the weights unchanged. *)
Definition scaled_dot_product_attention (h : nat) (p : R) (training : bool)
  (tp : tape) (qs ks vs : list (list R)) : list (list R) :=
  let scale_factor := rdiv rone (rsqrt (of_nat h)) in
  let w := attn_weight scale_factor qs ks in
  let w := dropout_weights p training tp w in
  weighted_values h vs <$> w.

(** The attention of all heads on one element of the batch. *)
Definition attention_heads (self : MultiHeadAttention) (training : bool)
  (tp : tape) (T : nat) (ks qs vs : list (list R)) : list (list R) :=
  let n := mha_num_heads self in
  let h := mha_head_size self in
  let k := split_heads n h ks in
  let q := split_heads n h qs in
  let v := split_heads n h vs in
  let out :=
    imap (fun j qkv =>
            scaled_dot_product_attention h (mha_dropout_rate self) training
              (sub_tape tp j) qkv.1.1 qkv.1.2 qkv.2)
         (zip (zip q k) v) in
  merge_heads T out.

(** [MultiHeadAttention.forward] *)
Definition MultiHeadAttention_forward (self : MultiHeadAttention)
  (training : bool) (tp : tape) (x : tensor3) : result tensor3 :=
  let B := dimB x in
  let T := dimT x in
  k ← Linear_forward (mha_key self) x;
  q ← Linear_forward (mha_query self) x;
  v ← Linear_forward (mha_value self) x;
  (* view(B,T,n,h) needs B*T*H = B*T*n*h *)
  if negb ((B * T * dimC k =? B * T * (mha_num_heads self * mha_head_size self))
           && (B * T * dimC q =? B * T * (mha_num_heads self * mha_head_size self))
           && (B * T * dimC v =? B * T * (mha_num_heads self * mha_head_size self)))%bool
  then Raise RuntimeError
  else
    let out :=
      imap (fun b kqv =>
              attention_heads self training (sub_tape (sub_tape tp 0) b) T
                kqv.1.1 kqv.1.2 kqv.2)
           (zip (zip (data k) (data q)) (data v)) in
    (* view(B,T,total_head_size) needs B*T*n*h = B*T*total_head_size *)
    if negb (B * T * (mha_num_heads self * mha_head_size self)
             =? B * T * mha_total_head_size self)
    then Raise RuntimeError
    else
      out ← Linear_forward (mha_proj self)
              (mk_tensor3 B T (mha_total_head_size self) out);
      Ok (Dropout_forward (mha_dropout_rate self) training (sub_tape tp 1) out).

(** ** Feed-forward network and transformer block *)

Record FeedForward : Type := mk_FeedForward {
  ff_lin1 : Linear;
  ff_lin2 : Linear;
  ff_dropout_rate : R
}.

(** [nn.ReLU] *)
Definition ReLU_forward (x : tensor3) : tensor3 :=
  mk_tensor3 (dimB x) (dimT x) (dimC x)
    (map_data (fun v => rmax rzero <$> v) (data x)).

(** [FeedForward.forward]: the four layers of [self.net] in sequence. *)
Definition FeedForward_forward (self : FeedForward) (training : bool)
  (tp : tape) (x : tensor3) : result tensor3 :=
  x ← Linear_forward (ff_lin1 self) x;
  let x := ReLU_forward x in
  x ← Linear_forward (ff_lin2 self) x;
  Ok (Dropout_forward (ff_dropout_rate self) training tp x).

Record TransformerBlock : Type := mk_TransformerBlock {
  tb_sa : MultiHeadAttention;
  tb_ff : FeedForward;
  tb_ln1 : LayerNorm;
  tb_ln2 : LayerNorm
}.

(** [TransformerBlock.forward] *)
Definition TransformerBlock_forward (self : TransformerBlock)
  (training : bool) (tp : tape) (x : tensor3) : result tensor3 :=
  n1 ← LayerNorm_forward (tb_ln1 self) x;
  a ← MultiHeadAttention_forward (tb_sa self) training (sub_tape tp 0) n1;
  x ← tensor3_add x a;
  n2 ← LayerNorm_forward (tb_ln2 self) x;
  f ← FeedForward_forward (tb_ff self) training (sub_tape tp 1) n2;
  tensor3_add x f.

(** [nn.Sequential] of transformer blocks; block [i] draws from the
    sub-tape [i]. *)
Fixpoint Sequential_forward (blocks : list TransformerBlock) (i : nat)
  (training : bool) (tp : tape) (x : tensor3) : result tensor3 :=
  match blocks with
  | [] => Ok x
  | b :: rest =>
      x ← TransformerBlock_forward b training (sub_tape tp i) x;
      Sequential_forward rest (S i) training tp x
  end.

(** ** The language model *)

Record TransformerLanguageModel : Type := mk_TransformerLanguageModel {
  lm_vocab_size : nat;
  lm_block_size : nat;
  lm_embedding_dim : nat;
  lm_head_size : nat;
  lm_hum_heads : nat;
  lm_num_blocks : nat;
  token_embedding : Embedding;
  pos_embedding : Embedding;
  blocks : list TransformerBlock;
  ln_f : LayerNorm;
  lm_head : Linear
}.

(** The logits that [forward] returns: of shape (B, T, vocab_size) without
    targets, flattened to (B*T, vocab_size) with targets. *)
Inductive logits_t : Type :=
| Logits3 (t : tensor3)
| Logits2 (n c : nat) (d : list (list R)).

Definition log_softmax (l : list R) : list R :=
  let z := sum (rexp <$> l) in
  (fun x => rsub x (rlog z)) <$> l.

(** The loss term of one position: none for the ignore label, the index
    error of the device for a label that is not a class. *)
Definition nll_term (C : nat) (lt : list R * Z) : result (option R) :=
  if (lt.2 =? ignore_index)%Z then Ok None
  else if ((lt.2 <? 0)%Z || (Z.of_nat C <=? lt.2)%Z)%bool then Raise index_error
  else Ok (Some (rsub rzero (default rzero (log_softmax lt.1 !! Z.to_nat lt.2)))).

(** [F.cross_entropy(logits, targets, ignore_index=-1)]: the mean of the
    terms of the positions that are not ignored. *)
Definition cross_entropy (C : nat) (logits : list (list R)) (targets : list Z)
  : result R :=
  terms ← mapM (nll_term C) (zip logits targets);
  let kept := omap id terms in
  Ok (rdiv (sum kept) (of_nat (length kept))).

(** [TransformerLanguageModel.forward], given the mode of the module and
    the draws of this call. *)
Definition forward_with (self : TransformerLanguageModel) (training : bool)
  (tp : tape) (idx : tensor2) (targets : option tensor2)
  : result (logits_t * option R) :=
  let B := nrows idx in
  let T := ncols idx in
  token_embeds ← Embedding_forward (token_embedding self) idx;
  pos_embeds ← mapM (embedding_row (pos_embedding self)) (arange T);
  x ← add_positions token_embeds (emb_dim (pos_embedding self)) pos_embeds;
  x ← Sequential_forward (blocks self) 0 training tp x;
  x ← LayerNorm_forward (ln_f self) x;
  logits ← Linear_forward (lm_head self) x;
  match targets with
  | None => Ok (Logits3 logits, None)
  | Some tg =>
      let B := dimB logits in
      let T := dimT logits in
      let vocab_size := dimC logits in
      (* targets.view(B*T) *)
      if negb (nrows tg * ncols tg =? B * T) then Raise RuntimeError
      else
        let logits := concat (data logits) in
        let targets := concat (rows tg) in
        loss ← cross_entropy vocab_size logits targets;
        Ok (Logits2 (B * T) vocab_size logits, Some loss)
  end.

(** ** Module state and sampling *)

(** What the stateful methods read and write: the train/eval flag of the
    module ([train()] and [eval()] set it on the module and all its
    submodules alike) and torch's random generator, which hands one tape
    of draws to every call that needs randomness. *)
Record world : Type := mk_world {
  training : bool;
  torch_tapes : nat -> tape;
  torch_pos : nat
}.

(** Stateful computations; the state survives an exception. *)
Definition TM (A : Type) : Type := world -> result A * world.

Global Instance TM_ret : MRet TM := fun A a w => (Ok a, w).
Global Instance TM_bind : MBind TM := fun A B f m w =>
  match m w with
  | (Ok a, w') => f a w'
  | (Raise e, w') => (Raise e, w')
  end.

Definition tm_lift {A} (r : result A) : TM A := fun w => (r, w).

(** [self.train()] and [self.eval()] *)
Definition set_training (b : bool) : TM unit := fun w =>
  (Ok tt, mk_world b (torch_tapes w) (torch_pos w)).

Definition next_tape (w : world) : world :=
  mk_world (training w) (torch_tapes w) (S (torch_pos w)).

(** *** The draws of a training pass *)

(** A dropout in training draws from torch's generator when its rate is
    not zero and its input is not empty. *)
Definition dropout_draws (p : R) (numel : nat) : bool :=
  negb (rate_is_zero p) && negb (numel =? 0).

(** Whether the attention of a training pass draws: in the dropout of the
    attention weights, of shape (B, n, T, T), or in the dropout of the
    output, if the pass gets that far. *)
Definition MultiHeadAttention_draws (self : MultiHeadAttention) (x : tensor3)
  : bool :=
  let B := dimB x in
  let T := dimT x in
  let nh := mha_num_heads self * mha_head_size self in
  match Linear_forward (mha_key self) x, Linear_forward (mha_query self) x,
        Linear_forward (mha_value self) x with
  | Ok k, Ok q, Ok v =>
      if negb ((B * T * dimC k =? B * T * nh) && (B * T * dimC q =? B * T * nh)
               && (B * T * dimC v =? B * T * nh))%bool
      then false
      else
        dropout_draws (mha_dropout_rate self) (B * mha_num_heads self * T * T)
        || (if negb (B * T * nh =? B * T * mha_total_head_size self) then false
            else if mha_total_head_size self =? in_features (mha_proj self)
                 then dropout_draws (mha_dropout_rate self)
                        (B * T * out_features (mha_proj self))
                 else false)
  | _, _, _ => false
  end.

Definition FeedForward_draws (self : FeedForward) (x : tensor3) : bool :=
  match Linear_forward (ff_lin1 self) x with
  | Ok h =>
      match Linear_forward (ff_lin2 self) (ReLU_forward h) with
      | Ok o => dropout_draws (ff_dropout_rate self) (dimB o * dimT o * dimC o)
      | Raise _ => false
      end
  | Raise _ => false
  end.

Definition TransformerBlock_draws (self : TransformerBlock) (tp : tape)
  (x : tensor3) : bool :=
  match LayerNorm_forward (tb_ln1 self) x with
  | Ok n1 =>
      MultiHeadAttention_draws (tb_sa self) n1
      || match (a ← MultiHeadAttention_forward (tb_sa self) true
                      (sub_tape tp 0) n1;
                x ← tensor3_add x a;
                LayerNorm_forward (tb_ln2 self) x) with
         | Ok n2 => FeedForward_draws (tb_ff self) n2
         | Raise _ => false
         end
  | Raise _ => false
  end.

Fixpoint Sequential_draws (blocks : list TransformerBlock) (i : nat)
  (tp : tape) (x : tensor3) : bool :=
  match blocks with
  | [] => false
  | b :: rest =>
      TransformerBlock_draws b (sub_tape tp i) x
      || match TransformerBlock_forward b true (sub_tape tp i) x with
         | Ok x => Sequential_draws rest (S i) tp x
         | Raise _ => false
         end
  end.

(** Whether a training pass on [idx] draws at all: not when it raises
    before its first dropout, when the model has no block, or when every
    dropout it reaches has the rate zero or an empty input. *)
Definition forward_draws (self : TransformerLanguageModel) (tp : tape)
  (idx : tensor2) : bool :=
  match (token_embeds ← Embedding_forward (token_embedding self) idx;
         pos_embeds ← mapM (embedding_row (pos_embedding self))
                           (arange (ncols idx));
         add_positions token_embeds (emb_dim (pos_embedding self))
                       pos_embeds) with
  | Ok x => Sequential_draws (blocks self) 0 tp x
  | Raise _ => false
  end.

(** [self(idx, targets)]: the forward pass in the current mode.  A pass in
    training that draws takes the next tape of the generator; any other pass
    leaves the generator as it is. *)
Definition forward (self : TransformerLanguageModel) (idx : tensor2)
  (targets : option tensor2) : TM (logits_t * option R) := fun w =>
  let tp := torch_tapes w (torch_pos w) in
  let r := forward_with self (training w) tp idx targets in
  (r, if training w && forward_draws self tp idx then next_tape w else w).

(** [idx[:, -block_size:]]: the last [block_size] columns; all columns
    when [block_size] is zero, since [-0] is [0]. *)
Definition crop (block_size : nat) (idx : tensor2) : tensor2 :=
  if block_size =? 0 then idx
  else mk_tensor2 (nrows idx) (min block_size (ncols idx))
         (drop (ncols idx - block_size) <$> rows idx).

(** [logits[:, -1, :]] *)
Definition select_last (l : logits_t) : result (list (list R)) :=
  match l with
  | Logits3 t =>
      if dimT t =? 0 then Raise IndexError
      else Ok ((fun s : list (list R) => default [] (s !! (dimT t - 1)))
                 <$> data t)
  | Logits2 _ _ _ => Raise IndexError
  end.

(** [torch.multinomial(probs, num_samples=1)]: one index per row, drawn
    with the weights of the row.  A row without categories, or one that
    fails the checks of the distribution, raises [RuntimeError] before
    anything is drawn. *)
Definition multinomial (probs : list (list R)) : TM tensor2 := fun w =>
  if forallb (fun p : list R => negb (length p =? 0) && valid_probs p) probs
  then (Ok (mk_tensor2 (length probs) 1
              (imap (fun b p =>
                       [Z.of_nat (sample p (torch_tapes w (torch_pos w) [b]))])
                    probs)),
        next_tape w)
  else (Raise RuntimeError, w).

(** [torch.cat((a, b), dim=1)] *)
Definition cat (a b : tensor2) : result tensor2 :=
  if nrows a =? nrows b
  then Ok (mk_tensor2 (nrows a) (ncols a + ncols b)
             (zip_with app (rows a) (rows b)))
  else Raise RuntimeError.

(** The loop of [generate]. *)
Fixpoint generate_steps (self : TransformerLanguageModel) (n : nat)
  (idx : tensor2) : TM tensor2 :=
  match n with
  | O => mret idx
  | S n' =>
      let idx_crop := crop (lm_block_size self) idx in
      out ← forward self idx_crop None;
      logits ← tm_lift (select_last out.1);
      let probs := softmax <$> logits in
      idx_next ← multinomial probs;
      idx ← tm_lift (cat idx idx_next);
      generate_steps self n' idx
  end.

(** [TransformerLanguageModel.generate] *)
Definition generate (self : TransformerLanguageModel) (idx : tensor2)
  (max_new_tokens : nat) : TM tensor2 :=
  _ ← set_training false;
  idx ← generate_steps self max_new_tokens idx;
  _ ← set_training true;
  mret idx.

(** ** Construction *)

(** The value of every parameter, by its address in the module tree.  The
    constructors fix the shapes; the values are arbitrary, as they are
    after any number of optimizer steps. *)
Definition init_source : Type := list nat -> R.

Definition sub_source (src : init_source) (k : nat) : init_source :=
  fun a => src (k :: a).

Definition tabulate {A} (n : nat) (f : nat -> A) : list A := f <$> seq 0 n.

Definition Linear_init (src : init_source) (inf outf : nat) (with_bias : bool)
  : Linear :=
  mk_Linear inf outf
    (tabulate outf (fun j => tabulate inf (fun k => src [0; j; k])))
    (if with_bias then Some (tabulate outf (fun j => src [1; j])) else None).

Definition LayerNorm_init (src : init_source) (C : nat) : LayerNorm :=
  mk_LayerNorm C (tabulate C (fun k => src [0; k]))
                 (tabulate C (fun k => src [1; k])).

Definition Embedding_init (src : init_source) (num dim : nat) : Embedding :=
  mk_Embedding dim (tabulate num (fun i => tabulate dim (fun k => src [i; k]))).

(** [MultiHeadAttention.__init__]: the assertion
    [total_head_size % num_heads == 0], whose remainder is undefined for
    zero heads, then the layers; [nn.Dropout] raises [ValueError] for a rate
    below zero or above one. *)
Definition MultiHeadAttention_init (src : init_source)
  (block_size embedding_dim total_head_size num_heads : nat) (dropout_rate : R)
  : result MultiHeadAttention :=
  if num_heads =? 0 then Raise ZeroDivisionError
  else if negb (total_head_size mod num_heads =? 0) then Raise AssertionError
  else if negb (rate_ok dropout_rate) then Raise ValueError
  else Ok (mk_MultiHeadAttention block_size embedding_dim total_head_size
             (total_head_size / num_heads) num_heads dropout_rate
             (Linear_init (sub_source src 0) embedding_dim total_head_size false)
             (Linear_init (sub_source src 1) embedding_dim total_head_size false)
             (Linear_init (sub_source src 2) embedding_dim total_head_size false)
             (Linear_init (sub_source src 3) total_head_size embedding_dim true)).

(** [FeedForward.__init__]: the last layer of [self.net] is an
    [nn.Dropout]. *)
Definition FeedForward_init (src : init_source) (embedding_dim : nat)
  (dropout_rate : R) : result FeedForward :=
  if negb (rate_ok dropout_rate) then Raise ValueError
  else Ok (mk_FeedForward
             (Linear_init (sub_source src 0) embedding_dim (4 * embedding_dim)
                          true)
             (Linear_init (sub_source src 1) (4 * embedding_dim) embedding_dim
                          true)
             dropout_rate).

Definition TransformerBlock_init (src : init_source)
  (block_size embedding_dim head_size num_heads : nat) (dropout_rate : R)
  : result TransformerBlock :=
  sa ← MultiHeadAttention_init (sub_source src 0) block_size embedding_dim
         head_size num_heads dropout_rate;
  ff ← FeedForward_init (sub_source src 1) embedding_dim dropout_rate;
  Ok (mk_TransformerBlock sa ff
        (LayerNorm_init (sub_source src 2) embedding_dim)
        (LayerNorm_init (sub_source src 3) embedding_dim)).

(** [TransformerLanguageModel.__init__] *)
Definition TransformerLanguageModel_init (src : init_source)
  (vocab_size block_size embedding_dim head_size num_heads num_blocks : nat)
  (dropout_rate : R) : result TransformerLanguageModel :=
  let token_embedding :=
    Embedding_init (sub_source src 0) vocab_size embedding_dim in
  let pos_embedding :=
    Embedding_init (sub_source src 1) block_size embedding_dim in
  blocks ← mapM (fun i => TransformerBlock_init
                            (sub_source (sub_source src 2) i) block_size
                            embedding_dim head_size num_heads dropout_rate)
                (seq 0 num_blocks);
  let ln_f := LayerNorm_init (sub_source src 3) embedding_dim in
  let lm_head := Linear_init (sub_source src 4) head_size vocab_size true in
  Ok (mk_TransformerLanguageModel vocab_size block_size embedding_dim
        head_size num_heads num_blocks token_embedding pos_embedding blocks
        ln_f lm_head).

(** ** Agreement of two runs on a prefix of the positions *)






(** ** Shapes *)

(** The data of a (B, T, C) tensor has B elements of T positions. *)
Definition has_shape (B T C : nat) (x : tensor3) : Prop :=
  dimB x = B /\ dimT x = T /\ dimC x = C /\
  length (data x) = B /\
  Forall (fun s : list (list R) => length s = T) (data x).

(** Every feature vector of the tensor has [dimC] entries. *)
Definition full_vectors (x : tensor3) : Prop :=
  Forall (Forall (fun v : list R => length v = dimC x)) (data x).

(** The shapes that the constructors give to the parameters. *)
Definition wf_linear (inf outf : nat) (l : Linear) : Prop :=
  in_features l = inf /\ out_features l = outf /\
  length (weight l) = outf /\
  match bias l with
  | Some b => length b = outf
  | None => True
  end.

Definition wf_attention (C : nat) (sa : MultiHeadAttention) : Prop :=
  wf_linear C (mha_total_head_size sa) (mha_key sa) /\
  wf_linear C (mha_total_head_size sa) (mha_query sa) /\
  wf_linear C (mha_total_head_size sa) (mha_value sa) /\
  wf_linear (mha_total_head_size sa) C (mha_proj sa) /\
  mha_num_heads sa * mha_head_size sa = mha_total_head_size sa.

Definition wf_block (C : nat) (b : TransformerBlock) : Prop :=
  wf_attention C (tb_sa b) /\
  normalized_shape (tb_ln1 b) = C /\
  normalized_shape (tb_ln2 b) = C /\
  wf_linear C (4 * C) (ff_lin1 (tb_ff b)) /\
  wf_linear (4 * C) C (ff_lin2 (tb_ff b)).

Definition wf_model (self : TransformerLanguageModel) : Prop :=
  emb_dim (token_embedding self) = lm_embedding_dim self /\
  length (emb_weight (token_embedding self)) = lm_vocab_size self /\
  emb_dim (pos_embedding self) = lm_embedding_dim self /\
  length (emb_weight (pos_embedding self)) = lm_block_size self /\
  Forall (wf_block (lm_embedding_dim self)) (blocks self) /\
  normalized_shape (ln_f self) = lm_embedding_dim self /\
  wf_linear (lm_head_size self) (lm_vocab_size self) (lm_head self).

(** A stateful computation that leaves a module in eval mode in eval
    mode, whether it returns or raises. *)
Definition keeps_eval {A} (c : TM A) : Prop :=
  forall w, training w = false -> training (c w).2 = false.

End Model.

(** ** An executable carrier *)

(** The integers extended with minus infinity ([None]), with division and
    powers of two rounded up to an integer and the integer square root: a
    carrier with exact sums and products, on which the model can be run. *)
Definition zinf_add (a b : option Z) : option Z :=
  match a, b with
  | Some x, Some y => Some (x + y)%Z
  | _, _ => None
  end.

Definition zinf_sub (a b : option Z) : option Z :=
  match a, b with
  | Some x, Some y => Some (x - y)%Z
  | _, _ => None
  end.

Definition zinf_mul (a b : option Z) : option Z :=
  match a, b with
  | Some x, Some y => Some (x * y)%Z
  | Some x, None => if (x =? 0)%Z then Some 0%Z else None
  | None, _ => None
  end.

Definition zinf_div (a b : option Z) : option Z :=
  match a, b with
  | Some x, Some y => Some (- (- x / y))%Z
  | Some x, None => Some 0%Z
  | None, _ => None
  end.

Definition zinf_exp (a : option Z) : option Z :=
  match a with
  | Some x => Some (Z.max 1 (2 ^ x))%Z
  | None => Some 0%Z
  end.

Definition zinf_max (a b : option Z) : option Z :=
  match a, b with
  | Some x, Some y => Some (Z.max x y)
  | Some x, None => Some x
  | None, _ => b
  end.

Definition zinf_sample (ws : list (option Z)) (z : Z) : nat :=
  Z.to_nat (z mod Z.of_nat (length ws)).

(** The only rates among the integers that [nn.Dropout] accepts are 0,
    which keeps every element, and 1, which keeps none. *)
Definition zinf_keep (p : option Z) (z : Z) : bool :=
  match p with
  | Some r => (r <=? 0)%Z
  | None => false
  end.

Definition zinf_rate_is_zero (p : option Z) : bool :=
  match p with
  | Some r => (r =? 0)%Z
  | None => false
  end.

Definition zinf_rate_ok (p : option Z) : bool :=
  match p with
  | Some r => ((0 <=? r) && (r <=? 1))%Z
  | None => false
  end.

Definition zinf_valid_probs (ps : list (option Z)) : bool :=
  forallb (fun p => match p with
                    | Some z => (0 <=? z)%Z
                    | None => false
                    end) ps
  && match foldl zinf_add (Some 0%Z) ps with
     | Some s => (0 <? s)%Z
     | None => false
     end.

Global Instance Scalar_zinf : Scalar (option Z) := {|
  rzero := Some 0%Z;
  rone := Some 1%Z;
  radd := zinf_add;
  rsub := zinf_sub;
  rmul := zinf_mul;
  rdiv := zinf_div;
  rexp := zinf_exp;
  rlog := fmap Z.log2;
  rsqrt := fmap Z.sqrt;
  rmax := zinf_max;
  of_nat := fun n => Some (Z.of_nat n);
  ninf := None;
  ln_eps := Some 1%Z;
  keep := zinf_keep;
  sample := zinf_sample;
  rate_is_zero := zinf_rate_is_zero;
  rate_ok := zinf_rate_ok;
  valid_probs := zinf_valid_probs
|}.

(** The small models run on the CPU. *)
Global Instance Device_cpu : Device := cpu.

(** A small model on this carrier: 5 symbols, a context of 4 positions,
    embeddings of dimension 4 and one block with two heads. *)
Definition toy_source : list nat -> option Z :=
  fun a => Some (foldl (fun h k => (3 * h + Z.of_nat k + 1) mod 7)%Z 2%Z a - 3)%Z.

Definition toy_model : result (@TransformerLanguageModel (option Z)) :=
  TransformerLanguageModel_init toy_source 5 4 4 4 2 1 (Some 0%Z).

Definition toy_lm : @TransformerLanguageModel (option Z) :=
  match toy_model with
  | Ok m => m
  | Raise _ =>
      mk_TransformerLanguageModel 0 0 0 0 0 0 (mk_Embedding 0 [])
        (mk_Embedding 0 []) [] (mk_LayerNorm 0 [] []) (mk_Linear 0 0 [] None)
  end.

Definition toy_tape : tape := fun a => Z.of_nat (length a + foldl Nat.add 0 a).

Definition toy_world (tr : bool) : world :=
  mk_world tr (fun n a => Z.of_nat (n + length a + foldl Nat.add 0 a)) 0.

(** A second small model, whose [head_size] differs from its
    [embedding_dim]. *)
Definition toy_model_mismatch : result (@TransformerLanguageModel (option Z)) :=
  TransformerLanguageModel_init toy_source 5 4 4 2 2 1 (Some 0%Z).

Definition toy_lm_mismatch : @TransformerLanguageModel (option Z) :=
  match toy_model_mismatch with
  | Ok m => m
  | Raise _ => toy_lm
  end.



(** Batches for the small models: one of a single row, one that differs
    from it at the second position only, one of two rows, one that is
    longer than the context, and one row without columns. *)
Definition toy_idx : tensor2 := mk_tensor2 1 3 [[1; 2; 3]%Z].

(** ** The callers: parameter count, loss estimation and the test driver *)

(** The prompt of a problem, as [test_gpt_adder] builds it. *)
Definition prompt_of (max_digits : nat) (a b : Z) : list string :=
  "<START>" :: list_of_str (zfill max_digits (str a) +:+ "+" +:+
                            zfill max_digits (str b) +:+ "=").

(** The three slices of the branch [if backward:] of [test_gpt_adder]:
    [seq[:2*max_digits+3]], the reversed [seq[2*max_digits+3:-1]] and
    [seq[-1:]]. *)
Definition unreverse (max_digits : nat) (generated_seq : list string)
  : list string :=
  let input := take (2 * max_digits + 3) generated_seq in
  let output :=
    rev (drop (2 * max_digits + 3)
           (take (length generated_seq - 1) generated_seq)) in
  let end_ := drop (length generated_seq - 1) generated_seq in
  input ++ output ++ end_.

(** The generator after [n] more draws, and the two operands that
    [generate_example] draws from a state. *)
Definition advance (s : np_random) (n : nat) : np_random :=
  mk_np (np_stream s) (np_pos s + n).

Definition operands (max_digits : nat) (s : np_random) : Z * Z :=
  let high := (10 ^ Z.of_nat max_digits - 1)%Z in
  ((np_stream s (np_pos s) mod high)%Z,
   (np_stream s (np_pos s + 1) mod high)%Z).

(** The answer field of an input row: the [max_digits + 1] entries after
    the prompt. *)
Definition answer_field (max_digits : nat) (row : list Z) : list Z :=
  take (max_digits + 1) (drop (2 * max_digits + 3) row).


(** The targets that [F.cross_entropy] accepts: the ignore label or a class
    index. *)
Definition valid_targets (V : nat) (tg : tensor2) : Prop :=
  Forall (Forall (fun t => t = ignore_index \/ (0 <= t < Z.of_nat V)%Z))
         (rows tg).

Section Callers.

Context {R : Type} {SR : Scalar R} {DV : Device}.

(** [p.numel()] of a matrix and of a linear layer. *)
Definition numel (w : list (list R)) : nat := sum_list (length <$> w).

Definition Linear_numel (l : @Linear R) : nat :=
  numel (weight l) + from_option length 0 (bias l).

Definition LayerNorm_numel (ln : @LayerNorm R) : nat :=
  length (ln_weight ln) + length (ln_bias ln).

Definition MultiHeadAttention_numel (sa : @MultiHeadAttention R) : nat :=
  Linear_numel (mha_key sa) + Linear_numel (mha_query sa) +
  Linear_numel (mha_value sa) + Linear_numel (mha_proj sa).

Definition TransformerBlock_numel (b : @TransformerBlock R) : nat :=
  MultiHeadAttention_numel (tb_sa b) +
  (Linear_numel (ff_lin1 (tb_ff b)) + Linear_numel (ff_lin2 (tb_ff b))) +
  LayerNorm_numel (tb_ln1 b) + LayerNorm_numel (tb_ln2 b).

(** [sum(p.numel() for p in m.parameters())] *)
Definition num_params (m : @TransformerLanguageModel R) : nat :=
  numel (emb_weight (token_embedding m)) +
  numel (emb_weight (pos_embedding m)) +
  sum_list (TransformerBlock_numel <$> blocks m) +
  LayerNorm_numel (ln_f m) +
  Linear_numel (lm_head m).


(** *** Loss estimation *)

(** The state of the two generators and of the module. *)
Record env : Type := mk_env {
  env_np : np_random;
  env_world : world
}.

Definition EM (A : Type) : Type := env -> result A * env.

Global Instance EM_ret : MRet EM := fun A a e => (Ok a, e).
Global Instance EM_bind : MBind EM := fun A B f m e =>
  match m e with
  | (Ok a, e') => f a e'
  | (Raise x, e') => (Raise x, e')
  end.

Definition em_lift {A} (r : result A) : EM A := fun e => (r, e).

(** A computation on numpy's generator.  (Where [generate_batch] raises, it
    has not drawn yet, so the generator is left as it was.) *)
Definition em_np {A} (c : NP A) : EM A := fun e =>
  match c (env_np e) with
  | Ok (a, s) => (Ok a, mk_env s (env_world e))
  | Raise x => (Raise x, e)
  end.

(** A computation on the module and torch's generator. *)
Definition em_tm {A} (c : TM A) : EM A := fun e =>
  ((c (env_world e)).1, mk_env (env_np e) (c (env_world e)).2).

(** [loss.item()]; [forward] returns a loss whenever it is given targets,
    so the other case does not arise. *)
Definition item (loss : option R) : result R :=
  match loss with
  | Some l => Ok l
  | None => Raise RuntimeError
  end.

(** The inner loop of [estimate_loss]: [eval_iters] batches, each scored by
    the model; [losses] collects the entries already written. *)
Fixpoint estimate_split (model : @TransformerLanguageModel R) (n : nat)
  (block_size batch_size max_digits : nat) (backward_output : bool)
  (losses : list R) : EM (list R) :=
  match n with
  | O => mret losses
  | S n' =>
      xy ← em_np (generate_batch block_size batch_size max_digits
                                 backward_output);
      out ← em_tm (forward model xy.1 (Some xy.2));
      loss ← em_lift (item out.2);
      estimate_split model n' block_size batch_size max_digits
                     backward_output (losses ++ [loss])
  end.

(** The outer loop [for split in ['train', 'val']]. *)
Fixpoint estimate_splits (model : @TransformerLanguageModel R)
  (splits : list string) (eval_iters block_size batch_size max_digits : nat)
  (backward_output : bool) (out : gmap string R) : EM (gmap string R) :=
  match splits with
  | [] => mret out
  | split :: rest =>
      losses ← estimate_split model eval_iters block_size batch_size
                              max_digits backward_output [];
      estimate_splits model rest eval_iters block_size batch_size max_digits
                      backward_output (<[split := mean losses]> out)
  end.

(** [estimate_loss] *)
Definition estimate_loss (model : @TransformerLanguageModel R)
  (eval_iters block_size batch_size max_digits : nat)
  (backward_output : bool) : EM (gmap string R) :=
  _ ← em_tm (set_training false);
  out ← estimate_splits model ["train"; "val"] eval_iters block_size
                        batch_size max_digits backward_output ∅;
  _ ← em_tm (set_training true);
  mret out.

End Callers.

(** A small model for the vocabulary of the tokenizer, on the executable
    carrier: a context of 13 positions, embeddings of dimension 4 and one
    block with two heads; and a state of the two generators. *)
Definition adder_model : result (@TransformerLanguageModel (option Z)) :=
  TransformerLanguageModel_init toy_source vocab_size 13 4 4 2 1 (Some 0%Z).

Definition adder_lm : @TransformerLanguageModel (option Z) :=
  match adder_model with
  | Ok m => m
  | Raise _ => toy_lm
  end.

Definition toy_env : env := mk_env example_np (toy_world true).

(** An activation tensor of six positions, more than the context of the
    small models, and one whose vectors have three features. *)
Definition toy_activations : @tensor3 (option Z) :=
  mk_tensor3 1 6 4 [replicate 6 [Some 1; Some 2; Some 0; Some 1]%Z].

Definition toy_activations_narrow : @tensor3 (option Z) :=
  mk_tensor3 1 6 3 [replicate 6 [Some 1; Some 2; Some 0]%Z].

(** ** The floating-point carrier *)

(** IEEE binary64 numbers, as Rocq's primitive floats.  The notebook
    computes in binary32, the same format with fewer bits: what overflows
    below with the weight [2^1023] overflows there with [2^127]. *)
Definition float_of_Z (z : Z) : PrimFloat.float :=
  if (z <? 0)%Z then PrimFloat.opp (PrimFloat.of_uint63 (Uint63.of_Z (- z)))
  else PrimFloat.of_uint63 (Uint63.of_Z z).

Definition float_is_finite (x : PrimFloat.float) : bool :=
  negb (PrimFloat.is_nan x) && negb (PrimFloat.is_infinity x).

(** [exp]: zero below the smallest and infinite above the largest
    logarithm of a finite number; between them, the Taylor polynomial of
    degree 12 at [x / 2^10], squared ten times.  The value at zero is
    exactly one. *)
Definition float_exp (x : PrimFloat.float) : PrimFloat.float :=
  if PrimFloat.is_nan x then x
  else if PrimFloat.ltb x (float_of_Z (-746)) then PrimFloat.zero
  else if PrimFloat.ltb (float_of_Z 710) x then PrimFloat.infinity
  else
    let y := PrimFloat.div x (float_of_Z 1024) in
    let p := foldr (fun k acc =>
                      PrimFloat.add PrimFloat.one
                        (PrimFloat.mul (PrimFloat.div y (float_of_Z k)) acc))
                   PrimFloat.one
                   [1; 2; 3; 4; 5; 6; 7; 8; 9; 10; 11; 12]%Z in
    Nat.iter 10 (fun s => PrimFloat.mul s s) p.

(** [log]: with [x = m * 2^e] and [m] in [3/4, 3/2), the logarithm is
    [e * log 2 + 2 * atanh ((m - 1) / (m + 1))], the inverse hyperbolic
    tangent by its series up to the power 39.  The value at one is exactly
    zero. *)
Definition float_log (x : PrimFloat.float) : PrimFloat.float :=
  if PrimFloat.is_nan x then x
  else if PrimFloat.ltb x PrimFloat.zero then PrimFloat.nan
  else if PrimFloat.eqb x PrimFloat.zero then PrimFloat.neg_infinity
  else if PrimFloat.is_infinity x then x
  else
    let (m, e) := FloatOps.Z.frexp x in
    let (m, e) :=
      if PrimFloat.ltb m (PrimFloat.div (float_of_Z 3) (float_of_Z 4))
      then (PrimFloat.mul m PrimFloat.two, (e - 1)%Z) else (m, e) in
    let u := PrimFloat.div (PrimFloat.sub m PrimFloat.one)
                           (PrimFloat.add m PrimFloat.one) in
    let u2 := PrimFloat.mul u u in
    let s := foldr (fun k acc =>
                      PrimFloat.add (PrimFloat.div PrimFloat.one (float_of_Z k))
                                    (PrimFloat.mul u2 acc))
                   PrimFloat.zero
                   ((fun i => 2 * Z.of_nat i + 1)%Z <$> seq 0 20) in
    let log2 := PrimFloat.div (float_of_Z 6243314768165359)
                              (float_of_Z 9007199254740992) in
    PrimFloat.add (PrimFloat.mul (float_of_Z e) log2)
                  (PrimFloat.mul PrimFloat.two (PrimFloat.mul u s)).

(** [max], which keeps an operand that is not a number. *)
Definition float_max (a b : PrimFloat.float) : PrimFloat.float :=
  if PrimFloat.is_nan a then a
  else if PrimFloat.is_nan b then b
  else if PrimFloat.ltb a b then b else a.

(** A number in [0, 1) from a draw of the generator. *)
Definition float_uniform (z : Z) : PrimFloat.float :=
  PrimFloat.div (float_of_Z (z mod 16777216)) (float_of_Z 16777216).

(** An element survives a dropout of rate [p] with probability [1 - p]. *)
Definition float_keep (p : PrimFloat.float) (z : Z) : bool :=
  PrimFloat.leb p (float_uniform z).

(** The first category whose cumulated weight exceeds the draw, scaled by
    the sum of the weights. *)
Fixpoint float_pick (ws : list PrimFloat.float) (u : PrimFloat.float)
  (acc : PrimFloat.float) : nat :=
  match ws with
  | [] => 0
  | [w] => 0
  | w :: ws' =>
      if PrimFloat.ltb u (PrimFloat.add acc w) then 0
      else S (float_pick ws' u (PrimFloat.add acc w))
  end.

Definition float_sample (ws : list PrimFloat.float) (z : Z) : nat :=
  float_pick ws (PrimFloat.mul (float_uniform z)
                               (foldl PrimFloat.add PrimFloat.zero ws))
             PrimFloat.zero.

(** [p < 0 or p > 1] is false of a rate that is not a number. *)
Definition float_rate_ok (p : PrimFloat.float) : bool :=
  negb (PrimFloat.ltb p PrimFloat.zero || PrimFloat.ltb PrimFloat.one p).

Definition float_valid_probs (ps : list PrimFloat.float) : bool :=
  forallb (fun p => float_is_finite p && PrimFloat.leb PrimFloat.zero p) ps
  && PrimFloat.ltb PrimFloat.zero (foldl PrimFloat.add PrimFloat.zero ps).

Global Instance Scalar_float : Scalar PrimFloat.float := {|
  rzero := PrimFloat.zero;
  rone := PrimFloat.one;
  radd := PrimFloat.add;
  rsub := PrimFloat.sub;
  rmul := PrimFloat.mul;
  rdiv := PrimFloat.div;
  rexp := float_exp;
  rlog := float_log;
  rsqrt := PrimFloat.sqrt;
  rmax := float_max;
  of_nat := fun n => float_of_Z (Z.of_nat n);
  ninf := PrimFloat.neg_infinity;
  ln_eps := PrimFloat.div PrimFloat.one (float_of_Z 100000);
  keep := float_keep;
  sample := float_sample;
  rate_is_zero := fun p => PrimFloat.eqb p PrimFloat.zero;
  rate_ok := float_rate_ok;
  valid_probs := float_valid_probs
|}.

(** A model with finite parameters, two symbols, a context of two
    positions, embeddings of dimension 2 and one block with one head.
    Symbol 0 embeds to (0, 0) and symbol 1 to (1, -1); the first layer norm
    of the block scales by 4; its value projection has the rows
    (2^1023, -2^1023); every other parameter is zero.  The value of symbol
    1 overflows. *)
Definition float_big : PrimFloat.float :=
  Nat.iter 1023 (PrimFloat.mul PrimFloat.two) PrimFloat.one.

Definition float_source : list nat -> PrimFloat.float := fun a =>
  match a with
  | [0; 1; 0] => PrimFloat.one
  | [0; 1; 1] => PrimFloat.opp PrimFloat.one
  | [2; 0; 2; 0; _] => float_of_Z 4
  | [2; 0; 0; 2; 0; _; 0] => float_big
  | [2; 0; 0; 2; 0; _; 1] => PrimFloat.opp float_big
  | _ => PrimFloat.zero
  end.

Definition float_model : result (@TransformerLanguageModel PrimFloat.float) :=
  TransformerLanguageModel_init float_source 2 2 2 2 1 1 PrimFloat.zero.

Definition float_lm : @TransformerLanguageModel PrimFloat.float :=
  match float_model with
  | Ok m => m
  | Raise _ =>
      mk_TransformerLanguageModel 0 0 0 0 0 0 (mk_Embedding 0 [])
        (mk_Embedding 0 []) [] (mk_LayerNorm 0 [] []) (mk_Linear 0 0 [] None)
  end.

(** Two rows of two symbols that differ at the second position only. *)
Definition float_idx : tensor2 := mk_tensor2 1 2 [[0; 0]%Z].
Definition float_idx' : tensor2 := perturb float_idx 0 (0 + 1) 1%Z.

(** * Properties *)


(** ** Tokenizer *)

Lemma vocab_eq :
  vocab = ["+"; "0"; "1"; "10"; "2"; "3"; "4"; "5"; "6"; "7"; "8"; "9";
           "<END>"; "<PAD>"; "<START>"; "="].
Proof. vm_compute. reflexivity. Qed.

Lemma vocab_size_eq : vocab_size = 16.
Proof. reflexivity. Qed.

Lemma vocab_NoDup : NoDup vocab.
Proof. apply (bool_decide_unpack _). vm_compute. exact I. Qed.

Lemma ctoi_numbered : ctoi = list_to_map numbered.
Proof. vm_compute. reflexivity. Qed.

Lemma itoc_numbered : itoc = list_to_map (swap <$> numbered).
Proof. vm_compute. reflexivity. Qed.

Lemma numbered_lookup (s : string) (i : Z) :
  (s, i) ∈ numbered <-> vocab !! Z.to_nat i = Some s /\ (0 <= i)%Z.
Proof.
  unfold numbered. split.
  - intros H. apply list_elem_of_lookup in H as [k Hk].
    apply lookup_zip_with_Some in Hk as (x & y & Heq & Hx & Hy).
    injection Heq as <- <-.
    rewrite list_lookup_fmap in Hy.
    destruct (seq 0 vocab_size !! k) as [j|] eqn:Hj; [|discriminate].
    apply lookup_seq in Hj as [-> _]. injection Hy as <-.
    rewrite Nat2Z.id. split; [done | lia].
  - intros [Hv Hi]. apply list_elem_of_lookup. exists (Z.to_nat i).
    apply lookup_zip_with_Some. exists s, i. split; [done|]. split; [done|].
    rewrite list_lookup_fmap.
    assert (Z.to_nat i < vocab_size) by (by apply lookup_lt_Some in Hv).
    rewrite lookup_seq_lt by done. simpl. f_equal. lia.
Qed.

Lemma ctoi_lookup (s : string) (i : Z) :
  ctoi !! s = Some i <-> vocab !! Z.to_nat i = Some s /\ (0 <= i)%Z.
Proof.
  rewrite ctoi_numbered, <- numbered_lookup.
  symmetry. apply elem_of_list_to_map.
  apply (bool_decide_unpack _). vm_compute. exact I.
Qed.

Lemma itoc_lookup (s : string) (i : Z) :
  itoc !! i = Some s <-> vocab !! Z.to_nat i = Some s /\ (0 <= i)%Z.
Proof.
  rewrite itoc_numbered, <- numbered_lookup.
  rewrite <- elem_of_list_to_map
    by (apply (bool_decide_unpack _); vm_compute; exact I).
  rewrite list_elem_of_fmap. split.
  - intros ([s' i'] & Heq & Hin). injection Heq as -> ->. exact Hin.
  - intros Hin. exists (s, i). done.
Qed.

Lemma ctoi_is_Some (s : string) : is_Some (ctoi !! s) <-> s ∈ vocab.
Proof.
  split.
  - intros [i Hi]. apply ctoi_lookup in Hi as [Hi _].
    apply list_elem_of_lookup. eauto.
  - intros Hin. apply list_elem_of_lookup in Hin as [k Hk].
    exists (Z.of_nat k). apply ctoi_lookup. rewrite Nat2Z.id. split; [done | lia].
Qed.

Lemma itoc_is_Some (i : Z) :
  is_Some (itoc !! i) <-> (0 <= i < Z.of_nat vocab_size)%Z.
Proof.
  split.
  - intros [s Hs]. apply itoc_lookup in Hs as [Hs Hi].
    apply lookup_lt_Some in Hs. fold vocab_size in Hs. lia.
  - intros [H0 Hlt]. destruct (lookup_lt_is_Some_2 vocab (Z.to_nat i)) as [s Hs].
    { fold vocab_size. lia. }
    exists s. apply itoc_lookup. done.
Qed.

(** [mapM] in the [result] monad. *)
Lemma mapM_result_cons {A B} (f : A -> result B) (x : A) (l : list A) :
  mapM f (x :: l) =
  match f x with
  | Ok y => match mapM f l with
            | Ok k => Ok (y :: k)
            | Raise e => Raise e
            end
  | Raise e => Raise e
  end.
Proof. reflexivity. Qed.

Lemma mapM_result_Ok {A B} (f : A -> result B) (l : list A) (k : list B) :
  mapM f l = Ok k <-> Forall2 (fun x y => f x = Ok y) l k.
Proof.
  revert k. induction l as [|x l IH]; intros k.
  - split; [intros [= <-]; constructor | intros H; inversion H; done].
  - rewrite mapM_result_cons. split.
    + destruct (f x) as [y|e] eqn:Hx; [|discriminate].
      destruct (mapM f l) as [k'|e] eqn:Hl; [|discriminate].
      intros [= <-]. constructor; [done | by apply IH].
    + intros H. inversion H as [|? y ? k' Hx Hl]; subst.
      rewrite Hx. apply IH in Hl. rewrite Hl. done.
Qed.

Lemma mapM_result_Raise {A B} (f : A -> result B) (l : list A) (e : exn) :
  mapM f l = Raise e <->
  exists l1 x l2, l = l1 ++ x :: l2 /\ f x = Raise e /\
                  Forall (fun y => succeeds (f y)) l1.
Proof.
  induction l as [|x l IH].
  - split; [discriminate|]. intros (l1 & y & l2 & H & _). by destruct l1.
  - rewrite mapM_result_cons. split.
    + destruct (f x) as [y|e'] eqn:Hx.
      * destruct (mapM f l) as [k'|e'] eqn:Hl; [discriminate|].
        intros [= ->]. destruct (proj1 IH eq_refl) as (l1 & z & l2 & -> & Hz & Hall).
        exists (x :: l1), z, l2. split; [done|]. split; [done|].
        constructor; [by exists y | done].
      * intros [= ->]. exists [], x, l. done.
    + intros (l1 & z & l2 & Heq & Hz & Hall). destruct l1 as [|x' l1].
      * injection Heq as -> ->. by rewrite Hz.
      * injection Heq as -> ->. inversion Hall as [|? ? [y Hy] Hall']; subst.
        rewrite Hy. rewrite (proj2 IH) by eauto 10. done.
Qed.

Lemma subscript_Ok `{Countable K} {V} (d : gmap K V) (k : K) (v : V) :
  subscript d k = Ok v <-> d !! k = Some v.
Proof. unfold subscript. destruct (d !! k); split; congruence. Qed.

Lemma subscript_Raise `{Countable K} {V} (d : gmap K V) (k : K) (e : exn) :
  subscript d k = Raise e <-> d !! k = None /\ e = KeyError.
Proof.
  unfold subscript. destruct (d !! k); split; try congruence.
  - intros [? _]. discriminate.
  - intros [= <-]. done.
  - intros [_ ->]. done.
Qed.

Lemma encode_Ok (l : list string) (k : list Z) :
  encode l = Ok k <-> Forall2 (fun s i => ctoi !! s = Some i) l k.
Proof.
  unfold encode. rewrite mapM_result_Ok.
  split; intros H; eapply Forall2_impl; try exact H;
    intros s i; apply subscript_Ok.
Qed.

Lemma encode_unknown (l : list string) :
  (exists s, s ∈ l /\ s ∉ vocab) -> encode l = Raise KeyError.
Proof.
  intros (s & Hin & Hs). unfold encode.
  destruct (mapM (subscript ctoi) l) as [k|e] eqn:Hk.
  - exfalso. apply mapM_result_Ok in Hk.
    apply list_elem_of_lookup in Hin as [i Hi].
    destruct (Forall2_lookup_l _ _ _ _ _ Hk Hi) as (v & _ & Hv).
    apply subscript_Ok in Hv. apply Hs, ctoi_is_Some. eauto.
  - apply mapM_result_Raise in Hk as (_ & x & _ & _ & Hx & _).
    apply subscript_Raise in Hx as [_ ->]. done.
Qed.

(** C4 (as stated): the vocabulary is not the 15-symbol set of the
    specification; the source list also holds the two-character symbol
    ["10"], which receives id 3. *)
Lemma vocab_not_spec_symbols :
  ~ (forall s, s ∈ vocab <-> s ∈ spec_symbols).
Proof.
  intros H. assert (Hin : "10" ∈ vocab).
  { rewrite vocab_eq. apply (bool_decide_unpack _). vm_compute. exact I. }
  apply H in Hin. revert Hin. apply (bool_decide_unpack _). vm_compute. exact I.
Qed.

(** C4 (amended): the vocabulary is the 16-symbol set made of the digits,
    ["10"], ["+"], ["="] and the three special symbols; the symbols are
    pairwise distinct, the ids are exactly [0 .. vocab_size-1], and [ctoi]
    and [itoc] are inverse of each other. *)
Theorem vocab_bijection :
  (forall s, s ∈ vocab <-> s ∈ "10" :: spec_symbols) /\
  vocab_size = 16 /\
  NoDup vocab /\
  (forall s, is_Some (ctoi !! s) <-> s ∈ vocab) /\
  (forall i, is_Some (itoc !! i) <-> (0 <= i < Z.of_nat vocab_size)%Z) /\
  (forall s i, ctoi !! s = Some i <-> itoc !! i = Some s).
Proof.
  split; [|split; [|split; [|split; [|split]]]].
  - intros s. rewrite vocab_eq. unfold spec_symbols.
    rewrite !elem_of_cons. tauto.
  - reflexivity.
  - apply vocab_NoDup.
  - apply ctoi_is_Some.
  - apply itoc_is_Some.
  - intros s i. by rewrite ctoi_lookup, itoc_lookup.
Qed.

(** C8: encoding a symbol of the vocabulary and decoding the result gives
    the symbol back, and [encode] raises [KeyError] (the specification's
    UnknownSymbolError) when the sequence holds a symbol outside the
    vocabulary. *)
Theorem tokenizer_round_trip :
  (forall s, s ∈ vocab -> encode [s] ≫= decode = Ok [s]) /\
  (forall l, (exists s, s ∈ l /\ s ∉ vocab) -> encode l = Raise KeyError).
Proof.
  split; [|apply encode_unknown].
  intros s Hs. apply ctoi_is_Some in Hs as [i Hi].
  assert (Hd : itoc !! i = Some s).
  { apply itoc_lookup. by apply ctoi_lookup. }
  unfold encode, decode. rewrite mapM_result_cons.
  rewrite (proj2 (subscript_Ok _ _ _) Hi).
  change (mapM (subscript itoc) [i] = Ok [s]). rewrite mapM_result_cons.
  rewrite (proj2 (subscript_Ok _ _ _) Hd). reflexivity.
Qed.

Lemma tokenizer_round_trip_witness :
  encode ["<PAD>"] ≫= decode = Ok ["<PAD>"] /\
  encode ["1"; "a"; "2"] = Raise KeyError.
Proof.
  split.
  - apply (proj1 tokenizer_round_trip). rewrite vocab_eq.
    apply (bool_decide_unpack _). vm_compute. exact I.
  - apply (proj2 tokenizer_round_trip). exists "a".
    split; [apply (bool_decide_unpack _); vm_compute; exact I|].
    apply (bool_decide_unpack _). vm_compute. exact I.
Defined.

(** ** Decimal strings *)

Lemma digit_char_value (d : Z) :
  (0 <= d < 10)%Z -> (Z.of_nat (nat_of_ascii (digit_char d)) - 48)%Z = d.
Proof.
  intros Hd. unfold digit_char. rewrite nat_ascii_embedding; lia.
Qed.

Lemma digits_acc_value (f : nat) (n : Z) (acc : string) :
  (0 <= n < 10 ^ Z.of_nat f)%Z ->
  dec_value (digits_acc f n acc)
  = (n * 10 ^ Z.of_nat (String.length acc) + dec_value acc)%Z.
Proof.
  revert n acc. induction f as [|f IH]; intros n acc Hn.
  - simpl in *. assert (n = 0%Z) by lia. subst. simpl. lia.
  - cbn [digits_acc].
    assert (Hm : (0 <= n mod 10 < 10)%Z) by (apply Z.mod_pos_bound; lia).
    assert (Hdiv : n = (10 * (n / 10) + n mod 10)%Z) by (apply Z.div_mod; lia).
    destruct (n / 10 =? 0)%Z eqn:Hq.
    + apply Z.eqb_eq in Hq. cbn [dec_value].
      rewrite digit_char_value by done. rewrite Hq in Hdiv. lia.
    + apply Z.eqb_neq in Hq. rewrite IH.
      * cbn [dec_value String.length]. rewrite digit_char_value by done.
        rewrite Nat2Z.inj_succ, Z.pow_succ_r by lia.
        set (p := (10 ^ Z.of_nat (String.length acc))%Z).
        set (q := (n / 10)%Z) in *. set (r := (n mod 10)%Z) in *.
        clearbody q r p. rewrite Hdiv. ring.
      * rewrite Nat2Z.inj_succ, Z.pow_succ_r in Hn by lia.
        split; [apply Z.div_pos; lia|].
        apply Z.div_lt_upper_bound; lia.
Qed.

Lemma digits_acc_length (k f : nat) (n : Z) (acc : string) :
  (0 <= n < 10 ^ Z.of_nat (S k))%Z ->
  String.length acc < String.length (digits_acc (S f) n acc)
  /\ String.length (digits_acc (S f) n acc) <= S k + String.length acc.
Proof.
  revert f n acc. induction k as [|k IH]; intros f n acc Hn.
  - cbn [digits_acc]. replace (n / 10)%Z with 0%Z.
    + simpl. lia.
    + symmetry. apply Z.div_small. simpl in Hn. lia.
  - cbn [digits_acc]. destruct (n / 10 =? 0)%Z eqn:Hq; [simpl; lia|].
    destruct f as [|f]; [simpl; lia|].
    destruct (IH f (n / 10)%Z (String (digit_char (n mod 10)) acc)) as [H1 H2].
    + rewrite Nat2Z.inj_succ, Z.pow_succ_r in Hn by lia.
      split; [apply Z.div_pos; lia|].
      apply Z.div_lt_upper_bound; lia.
    + cbn [String.length] in *. lia.
Qed.

Lemma digits_acc_head (f : nat) (n : Z) (acc : string) :
  exists m r, (0 <= m < 10)%Z /\
              digits_acc (S f) n acc = String (digit_char m) r.
Proof.
  revert n acc. induction f as [|f IH]; intros n acc.
  - exists (n mod 10)%Z. cbn [digits_acc].
    assert ((0 <= n mod 10 < 10)%Z) by (apply Z.mod_pos_bound; lia).
    destruct (n / 10 =? 0)%Z; eauto.
  - cbn [digits_acc]. destruct (n / 10 =? 0)%Z.
    + exists (n mod 10)%Z.
      assert ((0 <= n mod 10 < 10)%Z) by (apply Z.mod_pos_bound; lia). eauto.
    + apply IH.
Qed.

Lemma fuel_enough (n : Z) :
  (0 <= n)%Z -> (n < 10 ^ Z.of_nat (S (Z.to_nat (Z.log2 n))))%Z.
Proof.
  intros Hn. rewrite Nat2Z.inj_succ, Z2Nat.id by apply Z.log2_nonneg.
  destruct (Z.eq_dec n 0%Z) as [->|Hne]; [done|].
  assert (H2 : (n < 2 ^ Z.succ (Z.log2 n))%Z) by (apply Z.log2_spec; lia).
  assert (H10 : (2 ^ Z.succ (Z.log2 n) <= 10 ^ Z.succ (Z.log2 n))%Z).
  { apply Z.pow_le_mono_l. lia. }
  lia.
Qed.

Lemma str_nonneg (n : Z) :
  (0 <= n)%Z -> str n = digits_acc (S (Z.to_nat (Z.log2 n))) n "".
Proof.
  intros Hn. unfold str. destruct (n <? 0)%Z eqn:Hlt; [|done].
  apply Z.ltb_lt in Hlt. lia.
Qed.

Lemma str_value (n : Z) : (0 <= n)%Z -> dec_value (str n) = n.
Proof.
  intros Hn. rewrite str_nonneg by done.
  rewrite digits_acc_value by (split; [done | by apply fuel_enough]).
  simpl. lia.
Qed.

Lemma str_length (k : nat) (n : Z) :
  (0 <= n < 10 ^ Z.of_nat (S k))%Z ->
  1 <= String.length (str n) <= S k.
Proof.
  intros Hn. rewrite str_nonneg by lia.
  destruct (digits_acc_length k (Z.to_nat (Z.log2 n)) n "" Hn) as [H1 H2].
  simpl in *. lia.
Qed.

Lemma str_head (n : Z) :
  (0 <= n)%Z ->
  exists m r, (0 <= m < 10)%Z /\ str n = String (digit_char m) r.
Proof. intros Hn. rewrite str_nonneg by done. apply digits_acc_head. Qed.

Lemma length_string_app (s1 s2 : string) :
  String.length (s1 +:+ s2) = String.length s1 + String.length s2.
Proof. induction s1 as [|c s1 IH]; simpl; [done | by rewrite IH]. Qed.

Lemma list_of_str_app (s1 s2 : string) :
  list_of_str (s1 +:+ s2) = list_of_str s1 ++ list_of_str s2.
Proof.
  unfold list_of_str. induction s1 as [|c s1 IH]; simpl; [done | by rewrite IH].
Qed.

Lemma length_list_of_str (s : string) :
  length (list_of_str s) = String.length s.
Proof.
  unfold list_of_str. induction s as [|c s IH]; simpl; [done | by rewrite IH].
Qed.

Lemma list_of_str_inj (s1 s2 : string) :
  list_of_str s1 = list_of_str s2 -> s1 = s2.
Proof.
  unfold list_of_str. revert s2.
  induction s1 as [|c s1 IH]; intros [|c2 s2]; simpl; try done.
  intros [= -> H]. f_equal. by apply IH.
Qed.

Lemma length_zeros (k : nat) : String.length (zeros k) = k.
Proof. unfold zeros. induction k as [|k IH]; simpl; [done | by rewrite IH]. Qed.

Lemma dec_value_zeros_app (k : nat) (s : string) :
  dec_value (zeros k +:+ s) = dec_value s.
Proof.
  induction k as [|k IH]; [done|].
  change (zeros (S k) +:+ s) with (String "0" (zeros k +:+ s)).
  cbn [dec_value]. rewrite IH.
  change (Z.of_nat (nat_of_ascii "0") - 48)%Z with 0%Z. lia.
Qed.

Lemma digit_cases (m : Z) :
  (0 <= m < 10)%Z ->
  m ∈ [0; 1; 2; 3; 4; 5; 6; 7; 8; 9]%Z.
Proof.
  intros Hm. rewrite !elem_of_cons.
  assert (m = 0 \/ m = 1 \/ m = 2 \/ m = 3 \/ m = 4 \/ m = 5 \/ m = 6
          \/ m = 7 \/ m = 8 \/ m = 9)%Z by lia.
  tauto.
Qed.

Lemma is_sign_digit (m : Z) :
  (0 <= m < 10)%Z -> is_sign (digit_char m) = false.
Proof.
  intros Hm. apply digit_cases in Hm.
  repeat (apply elem_of_cons in Hm as [->|Hm]; [reflexivity|]).
  inversion Hm.
Qed.

Lemma zfill_str (w : nat) (n : Z) :
  (0 <= n)%Z ->
  zfill w (str n) = zeros (w - String.length (str n)) +:+ str n.
Proof.
  intros Hn. unfold zfill.
  destruct (w <=? String.length (str n)) eqn:Hle.
  - apply Nat.leb_le in Hle.
    replace (w - String.length (str n)) with 0 by lia. done.
  - destruct (str_head n Hn) as (m & r & Hm & ->).
    by rewrite is_sign_digit.
Qed.

Lemma zfill_value (w : nat) (n : Z) :
  (0 <= n)%Z -> dec_value (zfill w (str n)) = n.
Proof.
  intros Hn. rewrite zfill_str, dec_value_zeros_app by done.
  by apply str_value.
Qed.

Lemma zfill_length (w : nat) (n : Z) :
  (0 <= n < 10 ^ Z.of_nat w)%Z -> w <> 0 ->
  String.length (zfill w (str n)) = w.
Proof.
  intros Hn Hw. destruct w as [|k]; [done|].
  rewrite zfill_str, length_string_app, length_zeros by lia.
  pose proof (str_length k n Hn). lia.
Qed.

(** ** The state-and-exception monad of the batch generator *)

Lemma NP_bind_Ok {A B} (m : NP A) (f : A -> NP B) s b s2 :
  (m ≫= f) s = Ok (b, s2) <->
  exists a s1, m s = Ok (a, s1) /\ f a s1 = Ok (b, s2).
Proof.
  unfold mbind, NP_bind. destruct (m s) as [[a s1]|e].
  - split; [eauto | intros (? & ? & [= <- <-] & H); done].
  - split; [discriminate | intros (? & ? & ? & _); discriminate].
Qed.

Lemma NP_bind_Raise {A B} (m : NP A) (f : A -> NP B) s e :
  (m ≫= f) s = Raise e <->
  m s = Raise e \/ exists a s1, m s = Ok (a, s1) /\ f a s1 = Raise e.
Proof.
  unfold mbind, NP_bind. destruct (m s) as [[a s1]|e'].
  - split; [eauto | intros [?|(? & ? & [= <- <-] & H)]; done].
  - split; [intros [= ->]; by left|].
    intros [[= ->]|(? & ? & ? & _)]; done.
Qed.

Lemma np_lift_Ok {A} (r : result A) s a s1 :
  np_lift r s = Ok (a, s1) <-> r = Ok a /\ s1 = s.
Proof.
  unfold np_lift. destruct r; split; try congruence.
  - intros [= <- <-]. done.
  - intros [[= <-] ->]. done.
  - intros [? _]. discriminate.
Qed.

Lemma np_lift_Raise {A} (r : result A) s e :
  np_lift r s = Raise e <-> r = Raise e.
Proof. unfold np_lift. destruct r; split; congruence. Qed.

Lemma randint_Ok (low high : Z) (size : nat) s l s1 :
  randint low high size s = Ok (l, s1) ->
  length l = size /\ Forall (fun v => (low <= v < high)%Z) l /\
  (low < high <= 2 ^ 63)%Z.
Proof.
  unfold randint.
  destruct (high <=? low)%Z eqn:H1; [discriminate|].
  destruct (2 ^ 63 <? high)%Z eqn:H2; [discriminate|].
  destruct (low <? - 2 ^ 63)%Z eqn:H3; [discriminate|].
  apply Z.leb_gt in H1. apply Z.ltb_ge in H2.
  intros [= <- <-]. split; [by rewrite length_map, length_seq|]. split; [|lia].
  apply Forall_forall. intros v Hv.
  apply list_elem_of_In, in_map_iff in Hv as (i & <- & _).
  pose proof (Z.mod_pos_bound (np_stream s (np_pos s + i)) (high - low)).
  lia.
Qed.

Lemma randint_Raise (low high : Z) (size : nat) s e :
  randint low high size s = Raise e -> e = ValueError.
Proof.
  unfold randint.
  repeat match goal with |- context [if ?c then _ else _] => destruct c end;
    congruence.
Qed.

(** ** Batch generator *)

(** What one iteration of the loop produces. *)
Lemma generate_example_Ok bs d bw s input target s1 :
  generate_example bs d bw s = Ok ((input, target), s1) ->
  exists a b t,
    (0 <= a <= 10 ^ Z.of_nat d - 2)%Z /\
    (0 <= b <= 10 ^ Z.of_nat d - 2)%Z /\
    (10 ^ Z.of_nat d - 1 <= 2 ^ 63)%Z /\
    encode (take bs (padded_problem bs d bw a b)) = Ok input /\
    encode (drop 1 (take (bs + 1) (padded_problem bs d bw a b))) = Ok t /\
    target = fill_prefix (2 * d + 2) ignore_index t.
Proof.
  unfold generate_example. intros H.
  apply NP_bind_Ok in H as (ab & s2 & Hr & H).
  apply randint_Ok in Hr as (Hlen & Hall & Hrange).
  destruct ab as [|a [|b [|? ?]]]; try discriminate.
  apply Forall_cons in Hall as [Ha Hall]. apply Forall_cons in Hall as [Hb _].
  apply NP_bind_Ok in H as (i & s3 & Hi & H).
  apply NP_bind_Ok in H as (t & s4 & Ht & H).
  apply np_lift_Ok in Hi as [Hi ->]. apply np_lift_Ok in Ht as [Ht ->].
  injection H as <- <- <-.
  exists a, b, t. repeat split; try lia; done.
Qed.

Lemma generate_example_Raise bs d bw s e :
  generate_example bs d bw s = Raise e -> e <> AssertionError.
Proof.
  unfold generate_example. intros H.
  apply NP_bind_Raise in H as [H|(ab & s2 & Hr & H)].
  { apply randint_Raise in H as ->. done. }
  destruct ab as [|a [|b [|? ?]]]; try (injection H as <-; done).
  apply NP_bind_Raise in H as [H|(i & s3 & Hi & H)].
  { apply np_lift_Raise, mapM_result_Raise in H as (_ & x & _ & _ & Hx & _).
    apply subscript_Raise in Hx as [_ ->]. done. }
  apply NP_bind_Raise in H as [H|(t & s4 & Ht & H)]; [|discriminate].
  apply np_lift_Raise, mapM_result_Raise in H as (_ & x & _ & _ & Hx & _).
  apply subscript_Raise in Hx as [_ ->]. done.
Qed.

(** The loop collects one example per iteration, in order. *)
Lemma generate_loop_Ok n bs d bw ins tgs s ins' tgs' s1 :
  generate_loop n bs d bw ins tgs s = Ok ((ins', tgs'), s1) ->
  exists exs : list (list Z * list Z),
    length exs = n /\
    ins' = ins ++ exs.*1 /\ tgs' = tgs ++ exs.*2 /\
    Forall (fun ex => exists s2 s3,
              generate_example bs d bw s2 = Ok (ex, s3)) exs.
Proof.
  revert ins tgs s. induction n as [|n IH]; intros ins tgs s H.
  - injection H as <- <- <-. exists []. by rewrite !app_nil_r.
  - cbn [generate_loop] in H.
    apply NP_bind_Ok in H as ([input target] & s2 & Hex & H).
    apply IH in H as (exs & Hlen & -> & -> & Hall).
    exists ((input, target) :: exs). cbn [fmap list_fmap fst snd length].
    rewrite <- !app_assoc. repeat split; try done; [by rewrite Hlen|].
    constructor; eauto.
Qed.

Lemma generate_loop_Raise n bs d bw ins tgs s e :
  generate_loop n bs d bw ins tgs s = Raise e -> e <> AssertionError.
Proof.
  revert ins tgs s. induction n as [|n IH]; intros ins tgs s H; [discriminate|].
  cbn [generate_loop] in H.
  apply NP_bind_Raise in H as [H|([input target] & s2 & Hex & H)].
  - by apply generate_example_Raise in H.
  - by apply IH in H.
Qed.

Lemma stack_Ok (l : list (list Z)) (t : tensor2) :
  stack l = Ok t ->
  l <> [] /\ rows t = l /\ nrows t = length l /\
  Forall (fun r => length r = ncols t) l.
Proof.
  unfold stack. destruct l as [|r l']; [discriminate|].
  destruct (forallb _ _) eqn:Hall; [|discriminate].
  intros [= <-]. cbn [rows nrows ncols]. repeat split; try done.
  apply Forall_forall. intros r' Hr'. apply list_elem_of_In in Hr'.
  rewrite List.forallb_forall in Hall. by apply Nat.eqb_eq, Hall.
Qed.

Lemma stack_Raise (l : list (list Z)) (e : exn) :
  stack l = Raise e -> e = RuntimeError.
Proof.
  unfold stack. destruct l as [|r l']; [congruence|].
  destruct (forallb _ _); congruence.
Qed.

(** A batch that was produced: its rows are the examples of the loop. *)
Lemma generate_batch_Ok bs B d bw s x y s1 :
  generate_batch bs B d bw s = Ok ((x, y), s1) ->
  3 * d + 7 <= bs /\
  exists exs : list (list Z * list Z),
    length exs = B /\ B <> 0 /\
    rows x = exs.*1 /\ rows y = exs.*2 /\
    nrows x = B /\ nrows y = B /\
    Forall (fun r => length r = ncols x) (rows x) /\
    Forall (fun r => length r = ncols y) (rows y) /\
    Forall (fun ex => exists s2 s3,
              generate_example bs d bw s2 = Ok (ex, s3)) exs.
Proof.
  unfold generate_batch. cbn zeta.
  destruct (3 * d + 7 <=? bs) eqn:Hle; [|discriminate].
  apply Nat.leb_le in Hle. cbn [negb]. intros H.
  apply NP_bind_Ok in H as ([ins tgs] & s2 & Hloop & H).
  apply NP_bind_Ok in H as (x' & s3 & Hx & H).
  apply NP_bind_Ok in H as (y' & s4 & Hy & H).
  injection H as <- <- <-.
  apply np_lift_Ok in Hx as [Hx ->]. apply np_lift_Ok in Hy as [Hy ->].
  apply generate_loop_Ok in Hloop as (exs & Hlen & -> & -> & Hall).
  cbn [app] in *.
  apply stack_Ok in Hx as (Hne & Hrx & Hnx & Hcx).
  apply stack_Ok in Hy as (_ & Hry & Hny & Hcy).
  split; [done|]. exists exs.
  rewrite Hrx, Hry, Hnx, Hny, !length_fmap. repeat split; try done.
  intros ->. destruct exs; [by apply Hne | discriminate].
Qed.

Lemma fill_prefix_lookup_lt (n : nat) (v : Z) (t : list Z) (i : nat) :
  i < n -> i < length t -> fill_prefix n v t !! i = Some v.
Proof.
  intros Hn Ht. unfold fill_prefix.
  rewrite lookup_app_l by (rewrite length_replicate; lia).
  apply lookup_replicate_2. lia.
Qed.

Lemma fill_prefix_lookup_ge (n : nat) (v : Z) (t : list Z) (i : nat) :
  n <= i -> fill_prefix n v t !! i = t !! i.
Proof.
  intros Hn. unfold fill_prefix.
  destruct (decide (length t <= n)) as [Hle|Hgt].
  - rewrite drop_ge, app_nil_r by done.
    rewrite (lookup_ge_None_2 t) by lia.
    apply lookup_ge_None_2. rewrite length_replicate. lia.
  - rewrite lookup_app_r by (rewrite length_replicate; lia).
    rewrite length_replicate, lookup_drop. f_equal. lia.
Qed.

Lemma length_fill_prefix (n : nat) (v : Z) (t : list Z) :
  length (fill_prefix n v t) = length t.
Proof.
  unfold fill_prefix. rewrite length_app, length_replicate, length_drop. lia.
Qed.

Lemma wrap64_small (z : Z) :
  (- 2 ^ 63 <= z < 2 ^ 63)%Z -> wrap64 z = z.
Proof. intros Hz. unfold wrap64. rewrite Z.mod_small; lia. Qed.

(** The operands that [randint] can return are small enough for the
    64-bit sum to be exact and to fit [max_digits + 1] digits. *)
Lemma operands_sum (d : nat) (a b : Z) :
  (0 <= a <= 10 ^ Z.of_nat d - 2)%Z ->
  (0 <= b <= 10 ^ Z.of_nat d - 2)%Z ->
  (10 ^ Z.of_nat d - 1 <= 2 ^ 63)%Z ->
  d <> 0 /\ add64 a b = (a + b)%Z /\
  (0 <= a + b < 10 ^ Z.of_nat (d + 1))%Z.
Proof.
  intros Ha Hb Hd.
  assert (Hd0 : d <> 0) by (intros ->; simpl in Ha; lia).
  assert (Hd18 : d <= 18).
  { destruct (decide (d <= 18)) as [|Hgt]; [done|]. exfalso.
    assert ((10 ^ 19 <= 10 ^ Z.of_nat d)%Z) by (apply Z.pow_le_mono_r; lia).
    assert ((2 ^ 63 + 1 < 10 ^ 19)%Z) by reflexivity. lia. }
  assert (H18 : (10 ^ Z.of_nat d <= 10 ^ 18)%Z) by (apply Z.pow_le_mono_r; lia).
  assert ((2 * 10 ^ 18 < 2 ^ 63)%Z) by reflexivity.
  split; [done|]. split.
  - unfold add64. apply wrap64_small. lia.
  - rewrite Nat2Z.inj_add, Z.pow_add_r by lia.
    change (10 ^ Z.of_nat 1)%Z with 10%Z. lia.
Qed.

(** The layout of a problem string. *)
Lemma problem_of_layout (d : nat) (bw : bool) (a b : Z) :
  (0 <= a <= 10 ^ Z.of_nat d - 2)%Z ->
  (0 <= b <= 10 ^ Z.of_nat d - 2)%Z ->
  (10 ^ Z.of_nat d - 1 <= 2 ^ 63)%Z ->
  exists answer,
    length answer = d + 1 /\
    problem_of d bw a b =
      "<START>" :: list_of_str (zfill d (str a)) ++
      "+" :: list_of_str (zfill d (str b)) ++
      "=" :: answer ++ ["<END>"] /\
    length (list_of_str (zfill d (str a))) = d /\
    length (list_of_str (zfill d (str b))) = d.
Proof.
  intros Ha Hb Hd.
  destruct (operands_sum d a b Ha Hb Hd) as (Hd0 & Hsum & Hc).
  set (ans := list_of_str (zfill (d + 1) (str (add64 a b)))).
  assert (Hans : length ans = d + 1).
  { unfold ans. rewrite length_list_of_str, Hsum.
    apply zfill_length; [done | lia]. }
  exists (if bw then rev ans else ans). split.
  { destruct bw; [by rewrite length_rev | done]. }
  split.
  - unfold problem_of. fold ans. cbn zeta.
    rewrite !list_of_str_app. cbn [app].
    change (list_of_str "+") with ["+"]. change (list_of_str "=") with ["="].
    rewrite <- !app_assoc. reflexivity.
  - rewrite !length_list_of_str. split; apply zfill_length; lia.
Qed.

Lemma length_problem_of (d : nat) (bw : bool) (a b : Z) :
  (0 <= a <= 10 ^ Z.of_nat d - 2)%Z ->
  (0 <= b <= 10 ^ Z.of_nat d - 2)%Z ->
  (10 ^ Z.of_nat d - 1 <= 2 ^ 63)%Z ->
  length (problem_of d bw a b) = 3 * d + 5.
Proof.
  intros Ha Hb Hd.
  destruct (problem_of_layout d bw a b Ha Hb Hd) as (ans & Hans & -> & HA & HB).
  cbn [length]. rewrite !length_app. cbn [length].
  rewrite !length_app. cbn [length]. rewrite !length_app. cbn [length]. lia.
Qed.

Lemma problem_of_equals (d : nat) (bw : bool) (a b : Z) :
  (0 <= a <= 10 ^ Z.of_nat d - 2)%Z ->
  (0 <= b <= 10 ^ Z.of_nat d - 2)%Z ->
  (10 ^ Z.of_nat d - 1 <= 2 ^ 63)%Z ->
  problem_of d bw a b !! (2 * d + 2) = Some "=".
Proof.
  intros Ha Hb Hd.
  destruct (problem_of_layout d bw a b Ha Hb Hd) as (ans & Hans & -> & HA & HB).
  change (?x :: ?l ++ ?k) with ((x :: l) ++ k).
  rewrite lookup_app_r by (cbn [length]; lia).
  cbn [length]. rewrite HA.
  change ("+" :: ?l ++ ?k) with (("+" :: l) ++ k).
  rewrite lookup_app_r by (cbn [length]; lia).
  cbn [length]. rewrite HB.
  replace (2 * d + 2 - S d - S d) with 0 by lia. done.
Qed.

Lemma encode_lookup (l : list string) (k : list Z) (i : nat) (s : string) :
  encode l = Ok k -> l !! i = Some s ->
  exists v, k !! i = Some v /\ ctoi !! s = Some v.
Proof.
  intros Hk Hs. apply encode_Ok in Hk.
  destruct (Forall2_lookup_l _ _ _ _ _ Hk Hs) as (v & Hv & Hc). eauto.
Qed.

Lemma encode_length (l : list string) (k : list Z) :
  encode l = Ok k -> length k = length l.
Proof. intros Hk. apply encode_Ok in Hk. symmetry. by eapply Forall2_length. Qed.

Lemma ctoi_inj (s1 s2 : string) (v : Z) :
  ctoi !! s1 = Some v -> ctoi !! s2 = Some v -> s1 = s2.
Proof.
  intros H1 H2. apply ctoi_lookup in H1 as [H1 _], H2 as [H2 _]. congruence.
Qed.

Lemma encode_inj (l1 l2 : list string) (k : list Z) :
  encode l1 = Ok k -> encode l2 = Ok k -> l1 = l2.
Proof.
  intros H1 H2. apply encode_Ok in H1, H2. revert l2 H2.
  induction H1 as [|s v l1 k Hs _ IH]; intros l2 H2; inversion H2; subst.
  - done.
  - f_equal; [by eapply ctoi_inj | by apply IH].
Qed.

Lemma encode_take_drop (l : list string) (k : list Z) (n m : nat) :
  encode l = Ok k -> encode (take n (drop m l)) = Ok (take n (drop m k)).
Proof.
  intros H. apply encode_Ok. apply encode_Ok in H.
  by apply Forall2_take, Forall2_drop.
Qed.

Lemma length_padded_problem bs d bw a b :
  (0 <= a <= 10 ^ Z.of_nat d - 2)%Z ->
  (0 <= b <= 10 ^ Z.of_nat d - 2)%Z ->
  (10 ^ Z.of_nat d - 1 <= 2 ^ 63)%Z ->
  3 * d + 7 <= bs ->
  length (padded_problem bs d bw a b) = bs + 1.
Proof.
  intros Ha Hb Hd Hbs. unfold padded_problem. cbn zeta.
  rewrite length_app, length_replicate, length_problem_of by done. lia.
Qed.

Lemma padded_problem_lookup bs d bw a b i :
  (0 <= a <= 10 ^ Z.of_nat d - 2)%Z ->
  (0 <= b <= 10 ^ Z.of_nat d - 2)%Z ->
  (10 ^ Z.of_nat d - 1 <= 2 ^ 63)%Z ->
  3 * d + 7 <= bs ->
  (i < 3 * d + 5 ->
   padded_problem bs d bw a b !! i = problem_of d bw a b !! i) /\
  (3 * d + 5 <= i <= bs -> padded_problem bs d bw a b !! i = Some "<PAD>").
Proof.
  intros Ha Hb Hd Hbs. unfold padded_problem. cbn zeta.
  pose proof (length_problem_of d bw a b Ha Hb Hd) as Hlen. split; intros Hi.
  - apply lookup_app_l. lia.
  - rewrite lookup_app_r by lia. apply lookup_replicate_2. lia.
Qed.

(** One example: the shape of its rows, the place of ['='], the ignored
    prefix of the target and the shift between input and target. *)
Lemma example_rows bs d bw s xr yr s1 :
  3 * d + 7 <= bs ->
  generate_example bs d bw s = Ok ((xr, yr), s1) ->
  length xr = bs /\ length yr = bs /\
  xr !! (2 * d + 2) = ctoi !! "=" /\
  forall i, i < bs ->
    (i <= 2 * d + 1 -> yr !! i = Some ignore_index) /\
    (2 * d + 1 < i ->
     exists v, yr !! i = Some v /\ v <> ignore_index /\
               (i + 1 < bs -> xr !! (i + 1) = Some v) /\
               (i + 1 = bs -> ctoi !! "<PAD>" = Some v)).
Proof.
  intros Hbs H.
  apply generate_example_Ok in H as (a & b & t & Ha & Hb & Hd & Hx & Ht & ->).
  pose proof (length_padded_problem bs d bw a b Ha Hb Hd Hbs) as HlenP.
  pose proof (fun i => padded_problem_lookup bs d bw a b i Ha Hb Hd Hbs) as HP.
  set (P := padded_problem bs d bw a b) in *.
  assert (Hlx : length xr = bs).
  { rewrite (encode_length _ _ Hx), length_take. lia. }
  assert (Hlt : length t = bs).
  { rewrite (encode_length _ _ Ht), length_drop, length_take. lia. }
  split; [done|]. split; [by rewrite length_fill_prefix|]. split.
  - assert (Heq : take bs P !! (2 * d + 2) = Some "=").
    { rewrite lookup_take_lt by lia. rewrite (proj1 (HP _)) by lia.
      by apply problem_of_equals. }
    destruct (encode_lookup _ _ _ _ Hx Heq) as (v & -> & Hv). done.
  - intros i Hi. split; intros Hi2.
    + apply fill_prefix_lookup_lt; lia.
    + rewrite fill_prefix_lookup_ge by lia.
      destruct (lookup_lt_is_Some_2 P (S i)) as [sym Hsym]; [lia|].
      assert (Hti : drop 1 (take (bs + 1) P) !! i = Some sym).
      { rewrite lookup_drop, lookup_take_lt by lia. done. }
      destruct (encode_lookup _ _ _ _ Ht Hti) as (v & Hv & Hc).
      exists v. split; [done|]. split; [|split].
      * apply ctoi_lookup in Hc as [_ Hc]. unfold ignore_index. lia.
      * intros Hi3.
        assert (Hxi : take bs P !! (i + 1) = Some sym).
        { rewrite lookup_take_lt by lia. by rewrite Nat.add_1_r. }
        destruct (encode_lookup _ _ _ _ Hx Hxi) as (v' & Hv' & Hc').
        congruence.
      * intros Hi3. rewrite (proj2 (HP _)) in Hsym by lia. congruence.
Qed.

(** C5: in a batch that [generate_batch] returns, every input and target
    row has [block_size] entries; the input holds ['='] at index
    [2*max_digits+2], so the shifted target would hold it at index
    [2*max_digits+1]; the target holds the ignore label [-1] at the indices
    [0 .. 2*max_digits+1] and at no later index; and after that prefix the
    target is the input shifted left by one position, the last entry being
    the pad symbol that follows the input in the problem string. *)
Theorem generate_batch_targets bs B d bw s x y s1 :
  generate_batch bs B d bw s = Ok ((x, y), s1) ->
  forall r xr yr,
    rows x !! r = Some xr -> rows y !! r = Some yr ->
    length xr = bs /\ length yr = bs /\
    xr !! (2 * d + 2) = ctoi !! "=" /\
    forall i, i < bs ->
      (i <= 2 * d + 1 -> yr !! i = Some ignore_index) /\
      (2 * d + 1 < i ->
       exists v, yr !! i = Some v /\ v <> ignore_index /\
                 (i + 1 < bs -> xr !! (i + 1) = Some v) /\
                 (i + 1 = bs -> ctoi !! "<PAD>" = Some v)).
Proof.
  intros H r xr yr Hxr Hyr.
  apply generate_batch_Ok in H
    as (Hbs & exs & _ & _ & Hrx & Hry & _ & _ & _ & _ & Hall).
  rewrite Hrx, list_lookup_fmap in Hxr. rewrite Hry, list_lookup_fmap in Hyr.
  destruct (exs !! r) as [[xr' yr']|] eqn:Hex; [|discriminate].
  injection Hxr as ->. injection Hyr as ->.
  rewrite Forall_forall in Hall.
  destruct (Hall (xr, yr)) as (s2 & s3 & Hgen).
  { apply list_elem_of_lookup. eauto. }
  by eapply example_rows.
Qed.

(** C6: the size check of [generate_batch] raises [AssertionError] (the
    specification's ConfigError) exactly when the block size is below
    [3*max_digits+7]; at or above that size no assertion fails. *)
Theorem generate_batch_block_size bs B d bw s :
  (bs < 3 * d + 7 -> generate_batch bs B d bw s = Raise AssertionError) /\
  (3 * d + 7 <= bs -> generate_batch bs B d bw s <> Raise AssertionError).
Proof.
  unfold generate_batch. cbn zeta. split; intros Hbs.
  - destruct (3 * d + 7 <=? bs) eqn:Hle; [|done].
    apply Nat.leb_le in Hle. lia.
  - destruct (3 * d + 7 <=? bs) eqn:Hle.
    2:{ apply Nat.leb_gt in Hle. lia. }
    cbn [negb]. intros H.
    apply NP_bind_Raise in H as [H|([ins tgs] & s2 & _ & H)].
    { by apply generate_loop_Raise in H. }
    apply NP_bind_Raise in H as [H|(x & s3 & _ & H)].
    { apply np_lift_Raise, stack_Raise in H. discriminate. }
    apply NP_bind_Raise in H as [H|(y & s4 & _ & H)]; [|discriminate].
    apply np_lift_Raise, stack_Raise in H. discriminate.
Qed.

(** The model reproduces the batch that the notebook prints. *)
Lemma notebook_batch :
  generate_batch 38 1 10 true notebook_np
  = Ok ((mk_tensor2 1 38 [notebook_x], mk_tensor2 1 38 [notebook_y]),
        mk_np (np_stream notebook_np) 2).
Proof. vm_compute. reflexivity. Qed.

Lemma example_batch :
  generate_batch 10 1 1 false example_np
  = Ok ((mk_tensor2 1 10 [example_x], mk_tensor2 1 10 [example_y]),
        mk_np (np_stream example_np) 2).
Proof. vm_compute. reflexivity. Qed.

Lemma generate_batch_targets_witness :
  length example_x = 10 /\ length example_y = 10 /\
  example_x !! (2 * 1 + 2) = ctoi !! "=" /\
  forall i, i < 10 ->
    (i <= 2 * 1 + 1 -> example_y !! i = Some ignore_index) /\
    (2 * 1 + 1 < i ->
     exists v, example_y !! i = Some v /\ v <> ignore_index /\
               (i + 1 < 10 -> example_x !! (i + 1) = Some v) /\
               (i + 1 = 10 -> ctoi !! "<PAD>" = Some v)).
Proof.
  apply (generate_batch_targets 10 1 1 false example_np
           (mk_tensor2 1 10 [example_x]) (mk_tensor2 1 10 [example_y])
           (mk_np (np_stream example_np) 2)) with (r := 0).
  - vm_compute. reflexivity.
  - reflexivity.
  - reflexivity.
Defined.

Lemma generate_batch_block_size_witness :
  generate_batch 12 1 2 false example_np = Raise AssertionError /\
  generate_batch 13 1 2 false example_np <> Raise AssertionError.
Proof.
  split.
  - apply (proj1 (generate_batch_block_size 12 1 2 false example_np)). lia.
  - apply (proj2 (generate_batch_block_size 13 1 2 false example_np)). lia.
Defined.

(** ** Operands *)

Lemma length_nines (n : nat) : String.length (nines n) = n.
Proof. unfold nines. induction n as [|n IH]; simpl; [done | by rewrite IH]. Qed.

Lemma dec_value_nines (n : nat) :
  dec_value (nines n) = (10 ^ Z.of_nat n - 1)%Z.
Proof.
  induction n as [|n IH]; [done|].
  change (nines (S n)) with (String "9" (nines n)).
  cbn [dec_value]. rewrite IH, length_nines.
  change (Z.of_nat (nat_of_ascii "9") - 48)%Z with 9%Z.
  rewrite Nat2Z.inj_succ, Z.pow_succ_r by lia. lia.
Qed.

Lemma list_of_str_nines (n : nat) :
  list_of_str (nines n) = replicate n "9".
Proof.
  induction n as [|n IH]; [done|].
  change (nines (S n)) with (String "9" (nines n)).
  change (list_of_str (String "9" (nines n)))
    with ("9" :: list_of_str (nines n)).
  by rewrite IH.
Qed.

(** An operand below the all-nines value is not written with nines only. *)
Lemma zfill_not_nines (d : nat) (a : Z) :
  (0 <= a <= 10 ^ Z.of_nat d - 2)%Z ->
  list_of_str (zfill d (str a)) <> replicate d "9".
Proof.
  intros Ha Heq. rewrite <- list_of_str_nines in Heq.
  apply list_of_str_inj in Heq.
  apply (f_equal dec_value) in Heq.
  rewrite zfill_value, dec_value_nines in Heq by lia. lia.
Qed.

(** The operand fields of an input row. *)
Lemma padded_problem_fields bs d bw a b :
  (0 <= a <= 10 ^ Z.of_nat d - 2)%Z ->
  (0 <= b <= 10 ^ Z.of_nat d - 2)%Z ->
  (10 ^ Z.of_nat d - 1 <= 2 ^ 63)%Z ->
  3 * d + 7 <= bs ->
  take d (drop 1 (take bs (padded_problem bs d bw a b)))
  = list_of_str (zfill d (str a)) /\
  take d (drop (d + 2) (take bs (padded_problem bs d bw a b)))
  = list_of_str (zfill d (str b)).
Proof.
  intros Ha Hb Hd Hbs. unfold padded_problem. cbn zeta.
  destruct (problem_of_layout d bw a b Ha Hb Hd) as (ans & Hans & -> & HA & HB).
  set (A := list_of_str (zfill d (str a))) in *.
  set (Bf := list_of_str (zfill d (str b))) in *.
  set (pad := replicate _ "<PAD>"). clearbody A Bf pad.
  rewrite !take_drop_commute, !take_take.
  replace ((1 + d) `min` bs) with (S d) by lia.
  replace ((d + 2 + d) `min` bs) with (S (d + (1 + d))) by lia.
  cbn [take drop app]. split.
  - rewrite <- app_assoc. by rewrite take_app_length'.
  - rewrite <- app_assoc. rewrite take_app_add' by done.
    change (1 + d) with (S d). cbn [take app].
    rewrite <- app_assoc, take_app_length' by done.
    replace (d + 2) with (S (length (A ++ ["+"]))).
    2:{ rewrite length_app. cbn [length]. lia. }
    cbn [drop]. change (A ++ "+" :: Bf) with (A ++ ["+"] ++ Bf).
    rewrite app_assoc. by rewrite drop_app_length.
Qed.

(** C10: every input row of a batch that [generate_batch] returns is the
    encoding of a problem whose operands [a] and [b] lie in
    [0 .. 10^max_digits - 2]; the two operand fields of the row hold the
    zero-filled digits of [a] and [b], and neither field is the encoding of
    [max_digits] nines. *)
Theorem generate_batch_operands bs B d bw s x y s1 :
  generate_batch bs B d bw s = Ok ((x, y), s1) ->
  forall xr, xr ∈ rows x ->
    exists a b,
      (0 <= a <= 10 ^ Z.of_nat d - 2)%Z /\
      (0 <= b <= 10 ^ Z.of_nat d - 2)%Z /\
      encode (take bs (padded_problem bs d bw a b)) = Ok xr /\
      encode (list_of_str (zfill d (str a))) = Ok (take d (drop 1 xr)) /\
      encode (list_of_str (zfill d (str b))) = Ok (take d (drop (d + 2) xr)) /\
      encode (replicate d "9") <> Ok (take d (drop 1 xr)) /\
      encode (replicate d "9") <> Ok (take d (drop (d + 2) xr)).
Proof.
  intros H xr Hxr.
  apply generate_batch_Ok in H
    as (Hbs & exs & _ & _ & Hrx & _ & _ & _ & _ & _ & Hall).
  rewrite Hrx in Hxr. apply list_elem_of_fmap in Hxr as ([xr' yr] & -> & Hin).
  rewrite Forall_forall in Hall. destruct (Hall _ Hin) as (s2 & s3 & Hgen).
  apply generate_example_Ok in Hgen
    as (a & b & t & Ha & Hb & Hd & Hx & _ & _).
  cbn [fst].
  destruct (padded_problem_fields bs d bw a b Ha Hb Hd Hbs) as [HA HB].
  pose proof (encode_take_drop _ _ d 1 Hx) as HeA. rewrite HA in HeA.
  pose proof (encode_take_drop _ _ d (d + 2) Hx) as HeB. rewrite HB in HeB.
  exists a, b. repeat split; try done; try lia.
  - intros H9. apply (zfill_not_nines d a Ha). eapply encode_inj; eauto.
  - intros H9. apply (zfill_not_nines d b Hb). eapply encode_inj; eauto.
Qed.

Lemma generate_batch_operands_witness :
  exists a b,
    (0 <= a <= 10 ^ Z.of_nat 1 - 2)%Z /\
    (0 <= b <= 10 ^ Z.of_nat 1 - 2)%Z /\
    encode (take 10 (padded_problem 10 1 false a b)) = Ok example_x /\
    encode (list_of_str (zfill 1 (str a))) = Ok (take 1 (drop 1 example_x)) /\
    encode (list_of_str (zfill 1 (str b)))
    = Ok (take 1 (drop (1 + 2) example_x)) /\
    encode (replicate 1 "9") <> Ok (take 1 (drop 1 example_x)) /\
    encode (replicate 1 "9") <> Ok (take 1 (drop (1 + 2) example_x)).
Proof.
  apply (generate_batch_operands 10 1 1 false example_np
           (mk_tensor2 1 10 [example_x]) (mk_tensor2 1 10 [example_y])
           (mk_np (np_stream example_np) 2)).
  - vm_compute. reflexivity.
  - apply list_elem_of_singleton. reflexivity.
Defined.

(** ** The batch generator returns *)

Lemma digits_acc_digit_string (f : nat) (n : Z) (acc : string) :
  digit_string acc -> digit_string (digits_acc f n acc).
Proof.
  revert n acc. induction f as [|f IH]; intros n acc Hacc; [done|].
  cbn [digits_acc].
  assert (Hacc' : digit_string (String (digit_char (n mod 10)) acc)).
  { constructor; [|done]. exists (n mod 10)%Z.
    split; [apply Z.mod_pos_bound; lia | done]. }
  destruct (n / 10 =? 0)%Z; [done | by apply IH].
Qed.

Lemma zfill_digit_string (w : nat) (n : Z) :
  (0 <= n)%Z -> digit_string (zfill w (str n)).
Proof.
  intros Hn. rewrite zfill_str by done.
  assert (Hs : digit_string (str n)).
  { rewrite str_nonneg by done. apply digits_acc_digit_string. constructor. }
  generalize (w - String.length (str n)). intros k.
  induction k as [|k IH]; [done|].
  change (zeros (S k) +:+ str n) with (String "0" (zeros k +:+ str n)).
  constructor; [|done]. exists 0%Z. split; [lia | done].
Qed.

Lemma digit_string_vocab (s : string) :
  digit_string s -> Forall (fun c => c ∈ vocab) (list_of_str s).
Proof.
  unfold digit_string, list_of_str. intros Hs.
  induction Hs as [|c l (m & Hm & ->) _ IH]; cbn [map]; constructor; [|done].
  apply digit_cases in Hm. rewrite vocab_eq.
  repeat (apply elem_of_cons in Hm as [->|Hm];
          [apply (bool_decide_unpack _); vm_compute; exact I|]).
  inversion Hm.
Qed.

Lemma encode_total (l : list string) :
  Forall (fun c => c ∈ vocab) l -> exists k, encode l = Ok k.
Proof.
  intros Hl. unfold encode.
  destruct (mapM (subscript ctoi) l) as [k|e] eqn:Hk; [eauto|].
  apply mapM_result_Raise in Hk as (l1 & x & l2 & -> & Hx & _).
  apply subscript_Raise in Hx as [Hx _].
  apply Forall_app in Hl as [_ Hl]. apply Forall_cons in Hl as [Hin _].
  apply ctoi_is_Some in Hin as [i Hi]. congruence.
Qed.

Lemma padded_problem_vocab bs d bw a b :
  (0 <= a)%Z -> (0 <= b)%Z -> (0 <= add64 a b)%Z ->
  Forall (fun c => c ∈ vocab) (padded_problem bs d bw a b).
Proof.
  intros Ha Hb Hc. unfold padded_problem, problem_of. cbn zeta.
  assert (Hin : forall s, s ∈ ["<START>"; "+"; "="; "<END>"; "<PAD>"] ->
                          s ∈ vocab).
  { intros s Hs. rewrite vocab_eq.
    repeat (apply elem_of_cons in Hs as [->|Hs];
            [apply (bool_decide_unpack _); vm_compute; exact I|]).
    inversion Hs. }
  rewrite !list_of_str_app.
  change (list_of_str "+") with ["+"]. change (list_of_str "=") with ["="].
  destruct bw;
    repeat first
      [ apply Forall_nil
      | apply Forall_replicate
      | apply Forall_rev
      | apply digit_string_vocab, zfill_digit_string; assumption
      | apply Hin; rewrite !elem_of_cons; tauto
      | apply Forall_cons; split
      | apply Forall_app; split ];
    exact I.
Qed.

(** One iteration returns for every state of the generator when the operand
    range is not empty and fits 64 bits. *)
Lemma generate_example_total bs d bw s :
  1 <= d <= 18 ->
  exists ex s1, generate_example bs d bw s = Ok (ex, s1).
Proof.
  intros Hd.
  assert (H10 : (10 ^ 1 <= 10 ^ Z.of_nat d <= 10 ^ 18)%Z).
  { split; apply Z.pow_le_mono_r; lia. }
  assert (H63 : (10 ^ 18 < 2 ^ 63)%Z) by reflexivity.
  change (10 ^ 1)%Z with 10%Z in H10.
  destruct (randint 0 (10 ^ Z.of_nat d - 1) 2 s) as [[ab s1]|e] eqn:Hr.
  2:{ exfalso. unfold randint in Hr.
      destruct (_ <=? 0)%Z eqn:H1 in Hr; [apply Z.leb_le in H1; lia|].
      destruct (2 ^ 63 <? _)%Z eqn:H2 in Hr; [apply Z.ltb_lt in H2; lia|].
      destruct (0 <? - 2 ^ 63)%Z eqn:H3 in Hr; [apply Z.ltb_lt in H3; lia|].
      discriminate. }
  pose proof (randint_Ok _ _ _ _ _ _ Hr) as (Hlen & Hall & Hrange).
  destruct ab as [|a [|b [|? ?]]]; try discriminate Hlen.
  apply Forall_cons in Hall as [Ha Hall]. apply Forall_cons in Hall as [Hb _].
  destruct (operands_sum d a b) as (_ & Hsum & Hc); try lia.
  pose proof (padded_problem_vocab bs d bw a b) as Hv.
  specialize (Hv ltac:(lia) ltac:(lia) ltac:(lia)).
  destruct (encode_total (take bs (padded_problem bs d bw a b)))
    as [i Hi]; [by apply Forall_take|].
  destruct (encode_total (drop 1 (take (bs + 1) (padded_problem bs d bw a b))))
    as [t Ht]; [by apply Forall_drop, Forall_take|].
  exists (i, fill_prefix (2 * d + 2) ignore_index t), s1.
  clear H10 H63 Hrange Ha Hb Hc Hsum Hv.
  unfold generate_example.
  apply NP_bind_Ok. exists [a; b], s1. split; [exact Hr|].
  apply NP_bind_Ok. exists i, s1.
  split; [apply np_lift_Ok; split; [exact Hi | reflexivity]|].
  apply NP_bind_Ok. exists t, s1.
  split; [apply np_lift_Ok; split; [exact Ht | reflexivity]|]. reflexivity.
Qed.

Lemma generate_loop_total n bs d bw ins tgs s :
  1 <= d <= 18 ->
  exists r s1, generate_loop n bs d bw ins tgs s = Ok (r, s1).
Proof.
  intros Hd. revert ins tgs s. induction n as [|n IH]; intros ins tgs s.
  - by exists (ins, tgs), s.
  - destruct (generate_example_total bs d bw s Hd) as ([i t] & s1 & Hex).
    destruct (IH (ins ++ [i]) (tgs ++ [t]) s1) as (r & s2 & Hr).
    exists r, s2. cbn [generate_loop].
    apply NP_bind_Ok. exists (i, t), s1. done.
Qed.

Lemma stack_total (l : list (list Z)) (n : nat) :
  l <> [] -> Forall (fun r => length r = n) l ->
  stack l = Ok (mk_tensor2 (length l) n l).
Proof.
  intros Hne Hall. unfold stack. destruct l as [|r l']; [done|].
  pose proof Hall as Hall'. apply Forall_cons in Hall' as [Hr _].
  replace (forallb _ (r :: l')) with true; [by rewrite Hr|].
  symmetry. apply forallb_forall. intros r' Hr'.
  apply list_elem_of_In in Hr'. rewrite Forall_forall in Hall.
  apply Nat.eqb_eq. rewrite (Hall r' Hr'). done.
Qed.

(** [generate_batch] returns a batch of shape (batch_size, block_size) for
    every state of the generator, when the block is large enough, at least
    one example is requested and the operands have 1 to 18 digits. *)
Lemma generate_batch_total bs B d bw s :
  3 * d + 7 <= bs -> 1 <= B -> 1 <= d <= 18 ->
  exists x y s1,
    generate_batch bs B d bw s = Ok ((x, y), s1) /\
    nrows x = B /\ ncols x = bs /\ nrows y = B /\ ncols y = bs.
Proof.
  intros Hbs HB Hd.
  destruct (generate_loop_total B bs d bw [] [] s Hd) as ([ins tgs] & s1 & Hl).
  pose proof (generate_loop_Ok _ _ _ _ _ _ _ _ _ _ Hl)
    as (exs & Hlen & Hi & Ht & Hall).
  cbn [app] in Hi, Ht. subst ins tgs.
  assert (Hne : exs <> []) by (intros ->; cbn in Hlen; lia).
  assert (Hrows : Forall (fun ex : list Z * list Z =>
                            length ex.1 = bs /\ length ex.2 = bs) exs).
  { eapply Forall_impl; [exact Hall|]. intros [xr yr] (s2 & s3 & Hex).
    destruct (example_rows bs d bw s2 xr yr s3 Hbs Hex) as (? & ? & _). done. }
  exists (mk_tensor2 (length exs.*1) bs exs.*1),
         (mk_tensor2 (length exs.*2) bs exs.*2), s1.
  rewrite !length_fmap, Hlen. split; [|done].
  unfold generate_batch. cbn zeta.
  replace (3 * d + 7 <=? bs) with true by (symmetry; by apply Nat.leb_le).
  cbn [negb]. apply NP_bind_Ok. exists (exs.*1, exs.*2), s1. split; [done|].
  apply NP_bind_Ok. eexists _, s1. split.
  { apply np_lift_Ok. split; [|done]. apply stack_total.
    - by destruct exs.
    - apply Forall_fmap. eapply Forall_impl; [exact Hrows|]. by intros ? [? _]. }
  apply NP_bind_Ok. eexists _, s1. split.
  { apply np_lift_Ok. split; [|done]. apply stack_total.
    - by destruct exs.
    - apply Forall_fmap. eapply Forall_impl; [exact Hrows|]. by intros ? [_ ?]. }
  rewrite !length_fmap, Hlen. done.
Qed.

(** ** The result monad *)

Lemma result_bind_Ok {A B} (m : result A) (f : A -> result B) (b : B) :
  m ≫= f = Ok b <-> exists a, m = Ok a /\ f a = Ok b.
Proof.
  destruct m as [a|e]; cbn.
  - split; [eauto | intros (? & [= <-] & ?); done].
  - split; [discriminate | intros (? & ? & _); discriminate].
Qed.

Lemma result_bind_Raise {A B} (m : result A) (f : A -> result B) (e : exn) :
  m ≫= f = Raise e <-> m = Raise e \/ exists a, m = Ok a /\ f a = Raise e.
Proof.
  destruct m as [a|e']; cbn.
  - split; [eauto | intros [?|(? & [= <-] & ?)]; done].
  - split; [intros [= ->]; by left | intros [[= ->]|(? & ? & _)]; done].
Qed.



(** ** Causality of the attention *)

Section Causality.

Context {R : Type} {SR : Scalar R} {DV : Device} {IR : IdealScalar R}.





Lemma length_column (c : nat) (vs : list (list R)) :
  length (column c vs) = length vs.
Proof. unfold column. apply length_fmap. Qed.











(** *** Layers *)


Lemma Linear_forward_Ok (l : Linear) (x y : tensor3) :
  Linear_forward l x = Ok y <->
  dimC x = in_features l /\
  y = mk_tensor3 (dimB x) (dimT x) (out_features l)
        (map_data (linear_vec l) (data x)).
Proof.
  unfold Linear_forward. destruct (dimC x =? in_features l) eqn:Hc.
  - apply Nat.eqb_eq in Hc. split; [intros [= <-]; done | intros [_ ->]; done].
  - apply Nat.eqb_neq in Hc. split; [discriminate | intros [? _]; done].
Qed.

Lemma LayerNorm_forward_Ok (ln : LayerNorm) (x y : tensor3) :
  LayerNorm_forward ln x = Ok y <->
  dimC x = normalized_shape ln /\
  y = mk_tensor3 (dimB x) (dimT x) (dimC x)
        (map_data (layer_norm_vec ln) (data x)).
Proof.
  unfold LayerNorm_forward. destruct (dimC x =? normalized_shape ln) eqn:Hc.
  - apply Nat.eqb_eq in Hc. split; [intros [= <-]; done | intros [_ ->]; done].
  - apply Nat.eqb_neq in Hc. split; [discriminate | intros [? _]; done].
Qed.

Lemma tensor3_add_Ok (x y z : tensor3) :
  tensor3_add x y = Ok z <->
  (dimB x = dimB y /\ dimT x = dimT y /\ dimC x = dimC y) /\
  z = mk_tensor3 (dimB x) (dimT x) (dimC x)
        (zip_with (zip_with (zip_with radd)) (data x) (data y)).
Proof.
  unfold tensor3_add.
  destruct ((dimB x =? dimB y) && (dimT x =? dimT y) && (dimC x =? dimC y))
    eqn:Hc.
  - apply andb_prop in Hc as [Hc HC]. apply andb_prop in Hc as [HB HT].
    apply Nat.eqb_eq in HB, HT, HC.
    split; [intros [= <-]; done | intros [_ ->]; done].
  - split; [discriminate|]. intros [(HB & HT & HC) _].
    rewrite HB, HT, HC, !Nat.eqb_refl in Hc. discriminate.
Qed.







(** The steps of [MultiHeadAttention.forward]. *)
Lemma MultiHeadAttention_forward_Ok (self : MultiHeadAttention) (tr : bool)
  (tp : tape) (x y : tensor3) :
  MultiHeadAttention_forward self tr tp x = Ok y <->
  exists k q v o,
    Linear_forward (mha_key self) x = Ok k /\
    Linear_forward (mha_query self) x = Ok q /\
    Linear_forward (mha_value self) x = Ok v /\
    (let BT := dimB x * dimT x in
     let nh := mha_num_heads self * mha_head_size self in
     BT * dimC k = BT * nh /\ BT * dimC q = BT * nh /\
     BT * dimC v = BT * nh /\ BT * nh = BT * mha_total_head_size self) /\
    Linear_forward (mha_proj self)
      (mk_tensor3 (dimB x) (dimT x) (mha_total_head_size self)
         (imap (fun b kqv =>
                  attention_heads self tr (sub_tape (sub_tape tp 0) b)
                    (dimT x) kqv.1.1 kqv.1.2 kqv.2)
               (zip (zip (data k) (data q)) (data v)))) = Ok o /\
    y = Dropout_forward (mha_dropout_rate self) tr (sub_tape tp 1) o.
Proof.
  unfold MultiHeadAttention_forward. cbn zeta. split.
  - intros Hy.
    apply result_bind_Ok in Hy as (k & Hk & Hy).
    apply result_bind_Ok in Hy as (q & Hq & Hy).
    apply result_bind_Ok in Hy as (v & Hv & Hy).
    destruct (negb _) eqn:Hc1 in Hy; [discriminate|].
    destruct (negb _) eqn:Hc2 in Hy; [discriminate|].
    apply result_bind_Ok in Hy as (o & Ho & [= <-]).
    apply negb_false_iff in Hc1, Hc2.
    apply andb_prop in Hc1 as [Hc1 Hc1v]. apply andb_prop in Hc1 as [Hc1k Hc1q].
    apply Nat.eqb_eq in Hc1k, Hc1q, Hc1v, Hc2.
    exists k, q, v, o. repeat split; done.
  - intros (k & q & v & o & Hk & Hq & Hv & (Hck & Hcq & Hcv & Hct) & Ho & ->).
    rewrite Hk, Hq, Hv. cbn [mbind result_bind].
    rewrite Hck, Hcq, Hcv, !Nat.eqb_refl. cbn [andb negb].
    rewrite Hct, Nat.eqb_refl. cbn [negb]. rewrite Ho. done.
Qed.


Lemma FeedForward_forward_Ok (self : FeedForward) (tr : bool) (tp : tape)
  (x y : tensor3) :
  FeedForward_forward self tr tp x = Ok y <->
  exists a b,
    Linear_forward (ff_lin1 self) x = Ok a /\
    Linear_forward (ff_lin2 self) (ReLU_forward a) = Ok b /\
    y = Dropout_forward (ff_dropout_rate self) tr tp b.
Proof.
  unfold FeedForward_forward. split.
  - intros Hy. apply result_bind_Ok in Hy as (a & Ha & Hy).
    apply result_bind_Ok in Hy as (b & Hb & [= <-]). eauto.
  - intros (a & b & Ha & Hb & ->). rewrite Ha. cbn [mbind result_bind].
    rewrite Hb. done.
Qed.


Lemma TransformerBlock_forward_Ok (self : TransformerBlock) (tr : bool)
  (tp : tape) (x y : tensor3) :
  TransformerBlock_forward self tr tp x = Ok y <->
  exists n1 a x' n2 f,
    LayerNorm_forward (tb_ln1 self) x = Ok n1 /\
    MultiHeadAttention_forward (tb_sa self) tr (sub_tape tp 0) n1 = Ok a /\
    tensor3_add x a = Ok x' /\
    LayerNorm_forward (tb_ln2 self) x' = Ok n2 /\
    FeedForward_forward (tb_ff self) tr (sub_tape tp 1) n2 = Ok f /\
    tensor3_add x' f = Ok y.
Proof.
  unfold TransformerBlock_forward. split.
  - intros Hy. apply result_bind_Ok in Hy as (n1 & Hn1 & Hy).
    apply result_bind_Ok in Hy as (a & Ha & Hy).
    apply result_bind_Ok in Hy as (x' & Hx' & Hy).
    apply result_bind_Ok in Hy as (n2 & Hn2 & Hy).
    apply result_bind_Ok in Hy as (f & Hf & Hy).
    exists n1, a, x', n2, f. done.
  - intros (n1 & a & x' & n2 & f & Hn1 & Ha & Hx' & Hn2 & Hf & Hy).
    rewrite Hn1. cbn [mbind result_bind]. rewrite Ha. cbn [mbind result_bind].
    rewrite Hx'. cbn [mbind result_bind]. rewrite Hn2. cbn [mbind result_bind].
    rewrite Hf. done.
Qed.




(** *** The whole model *)

Lemma Embedding_forward_Ok (e : @Embedding R) (idx : tensor2)
  (y : @tensor3 R) :
  Embedding_forward e idx = Ok y <->
  exists d, mapM (mapM (embedding_row e)) (rows idx) = Ok d /\
            y = mk_tensor3 (nrows idx) (ncols idx) (emb_dim e) d.
Proof.
  unfold Embedding_forward. split.
  - intros Hy. apply result_bind_Ok in Hy as (d & Hd & [= <-]). eauto.
  - intros (d & Hd & ->). rewrite Hd. done.
Qed.

Lemma add_positions_Ok (x : tensor3) (C : nat) (pos : list (list R))
  (y : tensor3) :
  add_positions x C pos = Ok y <->
  (dimT x = length pos /\ dimC x = C) /\
  y = mk_tensor3 (dimB x) (dimT x) (dimC x)
        ((fun s : list (list R) => zip_with (zip_with radd) s pos) <$> data x).
Proof.
  unfold add_positions.
  destruct ((dimT x =? length pos) && (dimC x =? C)) eqn:Hc.
  - apply andb_prop in Hc as [HT HC]. apply Nat.eqb_eq in HT, HC.
    split; [intros [= <-]; done | intros [_ ->]; done].
  - split; [discriminate|]. intros [(HT & HC) _].
    rewrite HT, HC, !Nat.eqb_refl in Hc. discriminate.
Qed.








End Causality.

(** The parameters of [float_lm] are finite numbers. *)
Lemma float_source_finite (a : list nat) :
  float_is_finite (float_source a) = true.
Proof.
  unfold float_source. repeat case_match; vm_compute; reflexivity.
Qed.

Lemma float_model_Ok : float_model = Ok float_lm.
Proof. vm_compute. reflexivity. Qed.


(** ** Shapes and failures of the forward pass *)

Section Shapes.

Context {R : Type} {SR : Scalar R} {DV : Device}.

Lemma length_tabulate {A} (n : nat) (f : nat -> A) :
  length (tabulate n f) = n.
Proof. unfold tabulate. by rewrite length_fmap, length_seq. Qed.

Lemma Linear_init_wf (src : list nat -> R) (inf outf : nat) (b : bool) :
  wf_linear inf outf (Linear_init src inf outf b).
Proof.
  unfold wf_linear, Linear_init. cbn. rewrite length_tabulate.
  destruct b; by rewrite ?length_tabulate.
Qed.

Lemma MultiHeadAttention_init_Ok (src : list nat -> R) bs C ths nh rate sa :
  MultiHeadAttention_init src bs C ths nh rate = Ok sa ->
  wf_attention C sa /\ mha_total_head_size sa = ths /\ mha_num_heads sa = nh.
Proof.
  unfold MultiHeadAttention_init.
  destruct (nh =? 0) eqn:Hnh; [discriminate|]. apply Nat.eqb_neq in Hnh.
  destruct (negb (ths mod nh =? 0)) eqn:Hmod; [discriminate|].
  apply negb_false_iff, Nat.eqb_eq in Hmod.
  destruct (negb (rate_ok rate)); [discriminate|].
  intros [= <-]. unfold wf_attention. cbn.
  split_and!; try apply Linear_init_wf; try done.
  pose proof (Nat.div_mod ths nh Hnh). lia.
Qed.

Lemma TransformerBlock_init_Ok (src : list nat -> R) bs C hs nh rate b :
  TransformerBlock_init src bs C hs nh rate = Ok b -> wf_block C b.
Proof.
  unfold TransformerBlock_init. intros H.
  apply result_bind_Ok in H as (sa & Hsa & H).
  apply result_bind_Ok in H as (ff & Hff & [= <-]).
  apply MultiHeadAttention_init_Ok in Hsa as (Hsa & _ & _).
  unfold FeedForward_init in Hff.
  destruct (negb (rate_ok rate)); [discriminate|]. injection Hff as <-.
  unfold wf_block. cbn.
  split; [done|]. split; [done|]. split; [done|].
  split; apply Linear_init_wf.
Qed.

(** A model that was constructed has the configured sizes and well-shaped
    parameters. *)
Lemma TransformerLanguageModel_init_Ok (src : list nat -> R)
  V bs C hs nh nb rate self :
  TransformerLanguageModel_init src V bs C hs nh nb rate = Ok self ->
  wf_model self /\
  lm_vocab_size self = V /\ lm_block_size self = bs /\
  lm_embedding_dim self = C /\ lm_head_size self = hs.
Proof.
  unfold TransformerLanguageModel_init. cbn zeta. intros H.
  apply result_bind_Ok in H as (bl & Hbl & [= <-]).
  split; [|done]. unfold wf_model. cbn.
  split_and!; try apply Linear_init_wf; try apply length_tabulate; try done.
  apply mapM_result_Ok in Hbl.
  apply Forall_forall. intros b Hb. apply list_elem_of_lookup in Hb as [i Hi].
  destruct (Forall2_lookup_r _ _ _ _ _ Hbl Hi) as (j & _ & Hj).
  by eapply TransformerBlock_init_Ok.
Qed.


(** *** Layers keep the shape *)

Lemma map_data_shape (B T C C' : nat) (f : list R -> list R) (x : tensor3) :
  has_shape B T C x ->
  has_shape B T C' (mk_tensor3 (dimB x) (dimT x) C' (map_data f (data x))).
Proof.
  intros (HB & HT & _ & Hl & Hall). unfold has_shape, map_data. cbn.
  split_and!; try done; [by rewrite length_fmap|].
  apply Forall_fmap. eapply Forall_impl; [exact Hall|].
  intros s Hs. cbn. by rewrite length_fmap.
Qed.

Lemma length_linear_vec (inf outf : nat) (l : Linear) (v : list R) :
  wf_linear inf outf l -> length (linear_vec l v) = outf.
Proof.
  intros (_ & _ & Hw & Hb). unfold linear_vec.
  destruct (bias l) as [b|].
  - rewrite length_zip_with. lia.
  - by rewrite length_fmap.
Qed.

Lemma Linear_forward_shape (l : Linear) (B T C C' : nat) (x : tensor3) :
  wf_linear C C' l -> has_shape B T C x ->
  exists y, Linear_forward l x = Ok y /\ has_shape B T C' y /\
            full_vectors y.
Proof.
  intros Hl Hx. pose proof Hl as (Hin & Hout & _).
  pose proof Hx as (_ & _ & HC & _).
  eexists. split; [apply Linear_forward_Ok; split; [congruence | reflexivity]|].
  rewrite Hout. split; [by eapply map_data_shape|].
  unfold full_vectors, map_data. cbn.
  apply Forall_fmap, Forall_true. intros s. cbn.
  apply Forall_fmap, Forall_true. intros v. cbn.
  by eapply length_linear_vec.
Qed.

Lemma Linear_forward_mismatch (l : Linear) (x : tensor3) :
  dimC x <> in_features l -> Linear_forward l x = Raise RuntimeError.
Proof.
  intros Hne. unfold Linear_forward.
  destruct (dimC x =? in_features l) eqn:Hc; [|done].
  by apply Nat.eqb_eq in Hc.
Qed.

Lemma LayerNorm_forward_shape (ln : LayerNorm) (B T C : nat) (x : tensor3) :
  normalized_shape ln = C -> has_shape B T C x ->
  exists y, LayerNorm_forward ln x = Ok y /\ has_shape B T C y.
Proof.
  intros Hn Hx. pose proof Hx as (_ & _ & HC & _).
  eexists. split; [apply LayerNorm_forward_Ok; split; [congruence | reflexivity]|].
  rewrite HC. by eapply map_data_shape.
Qed.

Lemma tensor3_add_shape (B T C : nat) (x a : tensor3) :
  has_shape B T C x -> has_shape B T C a ->
  exists y, tensor3_add x a = Ok y /\ has_shape B T C y.
Proof.
  intros (HB & HT & HC & Hl & Hall) (HB' & HT' & HC' & Hl' & Hall').
  eexists. split.
  { apply tensor3_add_Ok. split; [|reflexivity]. split_and!; congruence. }
  unfold has_shape. cbn. split_and!; try done.
  - rewrite length_zip_with. lia.
  - apply Forall_forall. intros s Hs.
    apply list_elem_of_lookup in Hs as [i Hi].
    apply lookup_zip_with_Some in Hi as (s1 & s2 & -> & H1 & H2).
    rewrite length_zip_with.
    rewrite Forall_forall in Hall, Hall'.
    rewrite (Hall s1), (Hall' s2); [lia | |];
      apply list_elem_of_lookup; eauto.
Qed.

Lemma Dropout_forward_shape (p : R) (tr : bool) (tp : tape) (B T C : nat)
  (x : tensor3) :
  has_shape B T C x -> has_shape B T C (Dropout_forward p tr tp x).
Proof.
  intros (HB & HT & HC & Hl & Hall).
  unfold has_shape, Dropout_forward, dropout_data. cbn.
  destruct tr; [|done]. destruct (rate_is_zero p); [done|].
  split_and!; try done; [by rewrite length_imap|].
  apply Forall_forall. intros s Hs.
  apply list_elem_of_lookup in Hs as [i Hi].
  apply list_lookup_imap_Some in Hi as (s0 & Hs0 & ->).
  rewrite length_imap. rewrite Forall_forall in Hall.
  apply Hall, list_elem_of_lookup. eauto.
Qed.

Lemma ReLU_forward_shape (B T C : nat) (x : tensor3) :
  has_shape B T C x -> has_shape B T C (ReLU_forward x).
Proof.
  intros Hx. pose proof Hx as (_ & _ & HC & _). unfold ReLU_forward.
  rewrite HC. by eapply map_data_shape.
Qed.

Lemma length_merge_heads (T : nat) (hs : list (list (list R))) :
  length (merge_heads T hs) = T.
Proof. unfold merge_heads. by rewrite length_fmap, length_seq. Qed.

Lemma MultiHeadAttention_forward_shape (sa : MultiHeadAttention) (tr : bool)
  (tp : tape) (B T C : nat) (x : tensor3) :
  wf_attention C sa -> has_shape B T C x ->
  exists y, MultiHeadAttention_forward sa tr tp x = Ok y /\ has_shape B T C y.
Proof.
  intros (Hk & Hq & Hv & Hp & Hnh) Hx.
  destruct (Linear_forward_shape _ B T C _ x Hk Hx) as (k & Ek & Sk & _).
  destruct (Linear_forward_shape _ B T C _ x Hq Hx) as (q & Eq & Sq & _).
  destruct (Linear_forward_shape _ B T C _ x Hv Hx) as (v & Ev & Sv & _).
  pose proof Hx as (HB & HT & _).
  pose proof Sk as (_ & _ & HCk & Hlk & _).
  pose proof Sq as (_ & _ & HCq & Hlq & _).
  pose proof Sv as (_ & _ & HCv & Hlv & _).
  set (out := imap (fun b (kqv : list (list R) * list (list R) * list (list R)) =>
                      attention_heads sa tr (sub_tape (sub_tape tp 0) b)
                        (dimT x) kqv.1.1 kqv.1.2 kqv.2)
                   (zip (zip (data k) (data q)) (data v))).
  assert (Sout : has_shape B T (mha_total_head_size sa)
                   (mk_tensor3 (dimB x) (dimT x) (mha_total_head_size sa) out)).
  { unfold has_shape. cbn. split_and!; try done.
    - unfold out. rewrite length_imap, !length_zip. lia.
    - apply Forall_forall. intros s Hs.
      apply list_elem_of_lookup in Hs as [i Hi]. unfold out in Hi.
      apply list_lookup_imap_Some in Hi as (kqv & _ & ->).
      unfold attention_heads. cbn zeta. by rewrite length_merge_heads. }
  destruct (Linear_forward_shape _ B T _ C _ Hp Sout) as (o & Eo & So & _).
  exists (Dropout_forward (mha_dropout_rate sa) tr (sub_tape tp 1) o).
  split; [|by apply Dropout_forward_shape].
  apply MultiHeadAttention_forward_Ok. exists k, q, v, o.
  split_and!; try done. cbn zeta. rewrite HCk, HCq, HCv, Hnh. done.
Qed.

Lemma FeedForward_forward_shape (ff : FeedForward) (tr : bool) (tp : tape)
  (B T C : nat) (x : tensor3) :
  wf_linear C (4 * C) (ff_lin1 ff) -> wf_linear (4 * C) C (ff_lin2 ff) ->
  has_shape B T C x ->
  exists y, FeedForward_forward ff tr tp x = Ok y /\ has_shape B T C y.
Proof.
  intros H1 H2 Hx.
  destruct (Linear_forward_shape _ B T C _ x H1 Hx) as (a & Ea & Sa & _).
  apply ReLU_forward_shape in Sa.
  destruct (Linear_forward_shape _ B T _ C _ H2 Sa) as (b & Eb & Sb & _).
  exists (Dropout_forward (ff_dropout_rate ff) tr tp b).
  split; [|by apply Dropout_forward_shape].
  apply FeedForward_forward_Ok. eauto.
Qed.

Lemma TransformerBlock_forward_shape (b : TransformerBlock) (tr : bool)
  (tp : tape) (B T C : nat) (x : tensor3) :
  wf_block C b -> has_shape B T C x ->
  exists y, TransformerBlock_forward b tr tp x = Ok y /\ has_shape B T C y.
Proof.
  intros (Hsa & Hn1 & Hn2 & Hf1 & Hf2) Hx.
  destruct (LayerNorm_forward_shape _ B T C x Hn1 Hx) as (n1 & En1 & Sn1).
  destruct (MultiHeadAttention_forward_shape _ tr (sub_tape tp 0) B T C n1
              Hsa Sn1) as (a & Ea & Sa).
  destruct (tensor3_add_shape B T C x a Hx Sa) as (x' & Ex' & Sx').
  destruct (LayerNorm_forward_shape _ B T C x' Hn2 Sx') as (n2 & En2 & Sn2).
  destruct (FeedForward_forward_shape _ tr (sub_tape tp 1) B T C n2
              Hf1 Hf2 Sn2) as (f & Ef & Sf).
  destruct (tensor3_add_shape B T C x' f Sx' Sf) as (y & Ey & Sy).
  exists y. split; [|done].
  apply TransformerBlock_forward_Ok. exists n1, a, x', n2, f. done.
Qed.

Lemma Sequential_forward_shape (bs : list TransformerBlock) (i : nat)
  (tr : bool) (tp : tape) (B T C : nat) (x : tensor3) :
  Forall (wf_block C) bs -> has_shape B T C x ->
  exists y, Sequential_forward bs i tr tp x = Ok y /\ has_shape B T C y.
Proof.
  intros Hbs. revert i x. induction Hbs as [|b bs Hb _ IH]; intros i x Hx.
  - exists x. done.
  - destruct (TransformerBlock_forward_shape b tr (sub_tape tp i) B T C x
                Hb Hx) as (z & Ez & Sz).
    destruct (IH (S i) z Sz) as (y & Ey & Sy).
    exists y. split; [|done]. cbn [Sequential_forward]. rewrite Ez. exact Ey.
Qed.


(** *** Embeddings *)

Lemma mapM_result_total {A B} (f : A -> result B) (l : list A) :
  Forall (fun x => succeeds (f x)) l -> exists k, mapM f l = Ok k.
Proof.
  induction 1 as [|x l [y Hy] _ [k IH]]; [by exists []|].
  exists (y :: k). rewrite mapM_result_cons, Hy, IH. done.
Qed.

Lemma mapM_result_length {A B} (f : A -> result B) (l : list A) k :
  mapM f l = Ok k -> length k = length l.
Proof. intros H. apply mapM_result_Ok in H. symmetry. by eapply Forall2_length. Qed.

Lemma embedding_row_Ok (e : @Embedding R) (i : Z) :
  (0 <= i < Z.of_nat (length (emb_weight e)))%Z ->
  succeeds (embedding_row e i).
Proof.
  intros Hi. unfold embedding_row.
  destruct (emb_weight e) as [|v0 tbl] eqn:Htbl; [cbn in Hi; lia|].
  destruct (i <? 0)%Z eqn:Hneg; [apply Z.ltb_lt in Hneg; lia|].
  destruct (lookup_lt_is_Some_2 (v0 :: tbl) (Z.to_nat i)) as [v Hv]; [lia|].
  rewrite Hv. by exists v.
Qed.

(** A lookup fails only for an index outside the table: with the runtime
    error if the table has no row, with the index error of the device
    otherwise. *)
Lemma embedding_row_Raise (e : @Embedding R) (i : Z) (err : exn) :
  embedding_row e i = Raise err ->
  err = (if length (emb_weight e) =? 0 then RuntimeError else index_error) /\
  ~ (0 <= i < Z.of_nat (length (emb_weight e)))%Z.
Proof.
  unfold embedding_row.
  destruct (emb_weight e) as [|v0 tbl] eqn:Htbl.
  { intros [= <-]. cbn. split; [done | lia]. }
  cbn [length Nat.eqb].
  destruct (i <? 0)%Z eqn:Hneg.
  - apply Z.ltb_lt in Hneg. intros [= <-]. split; [done | lia].
  - apply Z.ltb_ge in Hneg.
    destruct ((v0 :: tbl) !! Z.to_nat i) as [v|] eqn:Hv; [discriminate|].
    apply lookup_ge_None in Hv. intros [= <-]. split; [done|].
    cbn [length] in *. lia.
Qed.

Lemma Embedding_forward_Raise (e : @Embedding R) (idx : tensor2) (err : exn) :
  Embedding_forward e idx = Raise err ->
  err = (if length (emb_weight e) =? 0 then RuntimeError else index_error).
Proof.
  unfold Embedding_forward. intros H.
  apply result_bind_Raise in H as [H|(d & _ & H)]; [|discriminate].
  apply mapM_result_Raise in H as (_ & r & _ & _ & Hr & _).
  apply mapM_result_Raise in Hr as (_ & i & _ & _ & Hi & _).
  by apply embedding_row_Raise in Hi as [-> _].
Qed.

Lemma Embedding_forward_shape (e : @Embedding R) (V : nat) (idx : tensor2) :
  length (emb_weight e) = V -> valid_idx V idx ->
  exists y, Embedding_forward e idx = Ok y /\
            has_shape (nrows idx) (ncols idx) (emb_dim e) y.
Proof.
  intros HV (Hrows & Hall).
  destruct (mapM_result_total (mapM (embedding_row e)) (rows idx)) as [d Hd].
  { eapply Forall_impl; [exact Hall|]. intros r [_ Hr]. cbn.
    apply mapM_result_total. eapply Forall_impl; [exact Hr|].
    intros i Hi. cbn. apply embedding_row_Ok. by rewrite HV. }
  eexists. split; [apply Embedding_forward_Ok; eauto|].
  unfold has_shape. cbn. split_and!; try done.
  - by rewrite (mapM_result_length _ _ _ Hd).
  - apply mapM_result_Ok in Hd. apply Forall_forall. intros s Hs.
    apply list_elem_of_lookup in Hs as [b Hb].
    destruct (Forall2_lookup_r _ _ _ _ _ Hd Hb) as (r & Hr & Hm).
    rewrite (mapM_result_length _ _ _ Hm).
    rewrite Forall_forall in Hall. apply Hall, list_elem_of_lookup. eauto.
Qed.

(** The positional lookup succeeds exactly for [T] positions within the
    table. *)
Lemma position_lookup (e : @Embedding R) (T : nat) :
  (T <= length (emb_weight e) ->
   exists pe, mapM (embedding_row e) (arange T) = Ok pe /\ length pe = T) /\
  (length (emb_weight e) < T ->
   mapM (embedding_row e) (arange T)
   = Raise (if length (emb_weight e) =? 0 then RuntimeError else index_error)).
Proof.
  split; intros HT.
  - destruct (mapM_result_total (embedding_row e) (arange T)) as [pe Hpe].
    { apply Forall_forall. intros i Hi. unfold arange in Hi.
      apply list_elem_of_fmap in Hi as (j & -> & Hj).
      apply elem_of_seq in Hj. apply embedding_row_Ok. lia. }
    exists pe. split; [done|].
    rewrite (mapM_result_length _ _ _ Hpe). unfold arange.
    by rewrite length_fmap, length_seq.
  - destruct (mapM (embedding_row e) (arange T)) as [pe|err] eqn:Hpe.
    + exfalso. apply mapM_result_Ok in Hpe.
      assert (Hi : arange T !! length (emb_weight e)
                   = Some (Z.of_nat (length (emb_weight e)))).
      { unfold arange. rewrite list_lookup_fmap, lookup_seq_lt by done. done. }
      destruct (Forall2_lookup_l _ _ _ _ _ Hpe Hi) as (v & _ & Hv).
      destruct (embedding_row e (Z.of_nat (length (emb_weight e))))
        as [v'|err] eqn:Hrow; [|discriminate].
      assert (Hs : succeeds (embedding_row e (Z.of_nat (length (emb_weight e)))))
        by by eexists.
      clear -Hs. destruct Hs as [v Hv]. unfold embedding_row in Hv.
      destruct (emb_weight e) as [|v0 tbl] eqn:Htbl; [discriminate|].
      destruct (_ <? 0)%Z; [discriminate|].
      rewrite Nat2Z.id, (lookup_ge_None_2 (v0 :: tbl)) in Hv by done.
      discriminate.
    + apply mapM_result_Raise in Hpe as (_ & i & _ & _ & Hi & _).
      by apply embedding_row_Raise in Hi as [-> _].
Qed.

Lemma add_positions_shape (B T C : nat) (x : tensor3) (pos : list (list R)) :
  has_shape B T C x -> length pos = T ->
  exists y, add_positions x C pos = Ok y /\ has_shape B T C y.
Proof.
  intros (HB & HT & HC & Hl & Hall) Hpos.
  eexists. split.
  { apply add_positions_Ok. split; [split; congruence | reflexivity]. }
  unfold has_shape. cbn. split_and!; try done; [by rewrite length_fmap|].
  apply Forall_fmap. eapply Forall_impl; [exact Hall|].
  intros s Hs. cbn in *. rewrite length_zip_with. lia.
Qed.

(** *** The forward pass *)

(** Up to the final projection, the forward pass of a well-shaped model on
    valid token ids within the context window succeeds. *)
Lemma forward_with_head (self : TransformerLanguageModel) (tr : bool)
  (tp : tape) (idx : tensor2) :
  wf_model self -> valid_idx (lm_vocab_size self) idx ->
  ncols idx <= lm_block_size self ->
  exists x2,
    has_shape (nrows idx) (ncols idx) (lm_embedding_dim self) x2 /\
    forward_with self tr tp idx None
    = lg ← Linear_forward (lm_head self) x2; Ok (Logits3 lg, None).
Proof.
  intros (Htd & Htl & Hpd & Hpl & Hbl & Hln & Hhead) Hidx HT.
  destruct (proj1 (position_lookup (pos_embedding self) (ncols idx)))
    as (pe & Hpe & Hlen); [lia|].
  destruct (Embedding_forward_shape (token_embedding self) _ idx Htl Hidx)
    as (te & Hte & Ste).
  rewrite Htd in Ste.
  destruct (add_positions_shape _ _ _ te pe Ste Hlen) as (x0 & Hx0 & S0).
  destruct (Sequential_forward_shape (blocks self) 0 tr tp _ _ _ x0 Hbl S0)
    as (x1 & Hx1 & S1).
  destruct (LayerNorm_forward_shape (ln_f self) _ _ _ x1 Hln S1)
    as (x2 & Hx2 & S2).
  exists x2. split; [done|].
  unfold forward_with. cbn zeta.
  rewrite Hte. cbn [mbind result_bind]. rewrite Hpe. cbn [mbind result_bind].
  rewrite Hpd, Hx0. cbn [mbind result_bind].
  rewrite Hx1. cbn [mbind result_bind]. rewrite Hx2. done.
Qed.

(** With [head_size = embedding_dim] the whole pass succeeds. *)
Lemma forward_with_succeeds (self : TransformerLanguageModel) (tr : bool)
  (tp : tape) (idx : tensor2) :
  wf_model self -> lm_head_size self = lm_embedding_dim self ->
  valid_idx (lm_vocab_size self) idx -> ncols idx <= lm_block_size self ->
  exists lg, forward_with self tr tp idx None = Ok (Logits3 lg, None) /\
             has_shape (nrows idx) (ncols idx) (lm_vocab_size self) lg /\
             full_vectors lg.
Proof.
  intros Hwf Hhs Hidx HT.
  destruct (forward_with_head self tr tp idx Hwf Hidx HT) as (x2 & S2 & Hfw).
  destruct Hwf as (_ & _ & _ & _ & _ & _ & Hhead). rewrite Hhs in Hhead.
  destruct (Linear_forward_shape _ _ _ _ _ x2 Hhead S2) as (lg & Hlg & Sl & Fl).
  exists lg. rewrite Hfw, Hlg. done.
Qed.


(** C9: [lm_head] is built with [head_size] input features, so for a
    constructed model and a batch of valid token ids that fits the context
    window, the forward pass returns logits of shape (B, T, vocab_size)
    exactly when [head_size] equals [embedding_dim]; otherwise the final
    projection raises the shape error. *)
Theorem forward_lm_head (src : list nat -> R)
  (V bs C hs nh nb : nat) (rate : R) (self : TransformerLanguageModel)
  (tr : bool) (tp : tape) (idx : tensor2) :
  TransformerLanguageModel_init src V bs C hs nh nb rate = Ok self ->
  valid_idx V idx -> ncols idx <= bs ->
  in_features (lm_head self) = hs /\
  ((exists lg, forward_with self tr tp idx None = Ok (Logits3 lg, None) /\
               has_shape (nrows idx) (ncols idx) V lg /\ full_vectors lg)
   <-> hs = C) /\
  (hs <> C -> forward_with self tr tp idx None = Raise RuntimeError).
Proof.
  intros Hinit Hidx HT.
  apply TransformerLanguageModel_init_Ok in Hinit
    as (Hwf & HV & Hbs & HC & Hhs).
  rewrite <- HV in Hidx. rewrite <- Hbs in HT.
  destruct (forward_with_head self tr tp idx Hwf Hidx HT) as (x2 & S2 & Hfw).
  pose proof S2 as (_ & _ & HC2 & _).
  pose proof Hwf as (_ & _ & _ & _ & _ & _ & Hhead).
  pose proof Hhead as (Hin & _).
  assert (Hbad : hs <> C -> forward_with self tr tp idx None
                            = Raise RuntimeError).
  { intros Hne. rewrite Hfw, Linear_forward_mismatch; [done|]. congruence. }
  split; [congruence|]. split; [|exact Hbad]. split.
  - intros (lg & Hlg & _). destruct (decide (hs = C)) as [|Hne]; [done|].
    rewrite (Hbad Hne) in Hlg. discriminate.
  - intros Heq. rewrite <- HV.
    apply forward_with_succeeds; try done. congruence.
Qed.

End Shapes.

(** ** Generation *)

Section Generation.

Context {R : Type} {SR : Scalar R} {DV : Device}.

Lemma TM_bind_unfold {A B} (m : TM A) (f : A -> TM B) (w : world) :
  (m ≫= f) w = match m w with
               | (Ok a, w') => f a w'
               | (Raise e, w') => (Raise e, w')
               end.
Proof. reflexivity. Qed.

Lemma keeps_eval_bind {A B} (m : TM A) (f : A -> TM B) :
  keeps_eval m -> (forall a, keeps_eval (f a)) -> keeps_eval (m ≫= f).
Proof.
  intros Hm Hf w Hw. rewrite TM_bind_unfold. specialize (Hm w Hw).
  destruct (m w) as [[a|e] w']; cbn in *; [by apply Hf | done].
Qed.

Lemma keeps_eval_ret {A} (a : A) : keeps_eval (mret a : TM A).
Proof. intros w Hw. done. Qed.

Lemma keeps_eval_lift {A} (r : result A) : keeps_eval (tm_lift r).
Proof. intros w Hw. done. Qed.

Lemma forward_eval (self : TransformerLanguageModel) idx targets (w : world) :
  training w = false ->
  forward self idx targets w
  = (forward_with self false (torch_tapes w (torch_pos w)) idx targets, w).
Proof. intros Hw. unfold forward. by rewrite Hw. Qed.

Lemma keeps_eval_forward (self : TransformerLanguageModel) idx targets :
  keeps_eval (forward self idx targets).
Proof. intros w Hw. by rewrite forward_eval. Qed.

Lemma keeps_eval_multinomial (probs : list (list R)) :
  keeps_eval (multinomial probs).
Proof. intros w Hw. unfold multinomial. by destruct (forallb _ _). Qed.

Lemma keeps_eval_generate_steps (self : TransformerLanguageModel) n idx :
  keeps_eval (generate_steps self n idx).
Proof.
  revert idx. induction n as [|n IH]; intros idx; [apply keeps_eval_ret|].
  cbn [generate_steps].
  apply keeps_eval_bind; [apply keeps_eval_forward|]. intros out.
  apply keeps_eval_bind; [apply keeps_eval_lift|]. intros logits.
  apply keeps_eval_bind; [apply keeps_eval_multinomial|]. intros idx_next.
  apply keeps_eval_bind; [apply keeps_eval_lift|]. intros idx'. apply IH.
Qed.

(** C3 (amended): [generate] switches to eval mode and, when it returns,
    leaves the module in train mode whatever the mode was before; when it
    raises, the module is left in eval mode. *)
Theorem generate_mode (self : TransformerLanguageModel) (idx : tensor2)
  (n : nat) (w : world) :
  training (generate self idx n w).2
  = match (generate self idx n w).1 with
    | Ok _ => true
    | Raise _ => false
    end.
Proof.
  unfold generate. rewrite TM_bind_unfold. cbn [set_training].
  set (w0 := mk_world false (torch_tapes w) (torch_pos w)).
  rewrite TM_bind_unfold.
  pose proof (keeps_eval_generate_steps self n idx w0 eq_refl) as Hk.
  destruct (generate_steps self n idx w0) as [[out|e] w1]; cbn in *; done.
Qed.

(** *** The sampling loop *)

Context {SL : SampleInRange R}.








Lemma generate_unfold (self : TransformerLanguageModel) (idx : tensor2)
  (n : nat) (w : world) :
  generate self idx n w
  = match generate_steps self n idx
            (mk_world false (torch_tapes w) (torch_pos w)) with
    | (Ok out, w1) => (Ok out, mk_world true (torch_tapes w1) (torch_pos w1))
    | (Raise e, w1) => (Raise e, w1)
    end.
Proof. reflexivity. Qed.




End Generation.

(** C3 (as stated): the mode after [generate] is not the mode before it;
    a module in eval mode is in train mode after a call that samples no
    token. *)
Lemma prior_mode_not_restored :
  ~ (forall (self : @TransformerLanguageModel (option Z)) idx n w,
        training (generate self idx n w).2 = training w).
Proof.
  intros H.
  specialize (H toy_lm (mk_tensor2 1 1 [[1%Z]]) 0 (toy_world false)).
  vm_compute in H. discriminate.
Qed.


(** Nor is every distribution sampled from.  On floating-point numbers the
    logits of [float_lm] for the row (0, 1) are not numbers, and
    [torch.multinomial] rejects the probabilities of the first step. *)
Lemma generate_unsamplable :
  (generate float_lm float_idx' 1 (toy_world true)).1 = Raise RuntimeError /\
  training (generate float_lm float_idx' 1 (toy_world true)).2 = false /\
  torch_pos (generate float_lm float_idx' 1 (toy_world true)).2 = 0.
Proof. vm_compute. done. Qed.

(** ** The executable carrier and the small models *)

Global Instance IdealScalar_zinf : IdealScalar (option Z).
Proof.
  split.
  - intros [a|]; cbn; [f_equal; lia | done].
  - intros [a|]; done.
  - intros [a|]; done.
  - intros [a|]; done.
Qed.

Global Instance SampleInRange_zinf : SampleInRange (option Z).
Proof.
  split. intros ws z Hne. cbn. unfold zinf_sample.
  assert (0 < length ws) by (destruct ws; [done | cbn; lia]).
  pose proof (Z.mod_pos_bound z (Z.of_nat (length ws))). lia.
Qed.

Lemma toy_model_Ok : toy_model = Ok toy_lm.
Proof. vm_compute. reflexivity. Qed.

Lemma toy_model_mismatch_Ok : toy_model_mismatch = Ok toy_lm_mismatch.
Proof. vm_compute. reflexivity. Qed.

Ltac solve_valid_idx :=
  split; [reflexivity | repeat (constructor || lia)].




(** The small model with [head_size = embedding_dim = 4] returns logits;
    the one with [head_size = 2] raises at the final projection. *)
Lemma forward_lm_head_witness :
  (in_features (lm_head toy_lm) = 4 /\
   ((exists lg, forward_with toy_lm false toy_tape toy_idx None
                = Ok (Logits3 lg, None) /\
                has_shape 1 3 5 lg /\ full_vectors lg) <-> 4 = 4) /\
   (4 <> 4 -> forward_with toy_lm false toy_tape toy_idx None
              = Raise RuntimeError)) /\
  forward_with toy_lm_mismatch false toy_tape toy_idx None = Raise RuntimeError.
Proof.
  split.
  - apply (forward_lm_head toy_source 5 4 4 4 2 1 (Some 0%Z) toy_lm false
             toy_tape toy_idx toy_model_Ok).
    + solve_valid_idx.
    + cbn. lia.
  - apply (forward_lm_head toy_source 5 4 4 2 2 1 (Some 0%Z) toy_lm_mismatch
             false toy_tape toy_idx toy_model_mismatch_Ok).
    + solve_valid_idx.
    + cbn. lia.
    + lia.
Defined.


(** * Further properties *)

(** ** Tokenizer on sequences *)

Lemma decode_Ok (k : list Z) (l : list string) :
  decode k = Ok l <-> Forall2 (fun i s => itoc !! i = Some s) k l.
Proof.
  unfold decode. rewrite mapM_result_Ok.
  split; intros H; eapply Forall2_impl; try exact H;
    intros i s; apply subscript_Ok.
Qed.

Lemma ctoi_itoc (s : string) (i : Z) :
  ctoi !! s = Some i <-> itoc !! i = Some s.
Proof. by rewrite ctoi_lookup, itoc_lookup. Qed.

(** X1: [encode] and [decode] are inverse of each other on whole
    sequences: a sequence of symbols of the vocabulary is encoded to ids
    that decode to it, and a sequence of ids below [vocab_size] is decoded
    to symbols that encode to it; both keep the length. *)
Theorem encode_decode_sequences :
  (forall l : list string,
      Forall (fun s => s ∈ vocab) l ->
      exists k, encode l = Ok k /\ decode k = Ok l /\ length k = length l) /\
  (forall k : list Z,
      Forall (fun i => (0 <= i < Z.of_nat vocab_size)%Z) k ->
      exists l, decode k = Ok l /\ encode l = Ok k /\ length l = length k).
Proof.
  split.
  - intros l Hl. destruct (encode_total l Hl) as [k Hk]. exists k.
    split; [done|]. split; [|by apply encode_length].
    apply decode_Ok. apply encode_Ok in Hk. apply Forall2_flip.
    eapply Forall2_impl; [exact Hk|]. intros s i. apply ctoi_itoc.
  - intros k Hk.
    destruct (mapM_result_total (subscript itoc) k) as [l Hl].
    { eapply Forall_impl; [exact Hk|]. intros i Hi. cbn.
      apply itoc_is_Some in Hi as [s Hs]. exists s. by apply subscript_Ok. }
    exists l. split; [done|].
    pose proof (proj1 (decode_Ok k l) Hl) as HF. split.
    + apply encode_Ok, Forall2_flip.
      eapply Forall2_impl; [exact HF|]. intros i s. apply ctoi_itoc.
    + symmetry. by eapply Forall2_length.
Qed.

Lemma encode_decode_sequences_witness :
  (exists k, encode ["<START>"; "1"; "+"; "2"; "="] = Ok k /\
             decode k = Ok ["<START>"; "1"; "+"; "2"; "="] /\
             length k = 5) /\
  (exists l, decode [14; 3; 0; 15]%Z = Ok l /\ encode l = Ok [14; 3; 0; 15]%Z /\
             length l = 4).
Proof.
  split.
  - apply (proj1 encode_decode_sequences).
    repeat constructor; apply (bool_decide_unpack _); vm_compute; exact I.
  - apply (proj2 encode_decode_sequences).
    rewrite vocab_size_eq. repeat (constructor || lia).
Defined.

(** X2: [decode] raises [KeyError] as soon as the sequence holds an id
    outside [0 .. vocab_size-1] (negative ids included: the dictionary has
    no wrap-around), and on nothing else. *)
Theorem decode_unknown_id (k : list Z) :
  (exists i, i ∈ k /\ ~ (0 <= i < Z.of_nat vocab_size)%Z) <->
  decode k = Raise KeyError.
Proof.
  split.
  - intros (i & Hin & Hi). unfold decode.
    destruct (mapM (subscript itoc) k) as [l|e] eqn:Hl.
    + exfalso. apply mapM_result_Ok in Hl.
      apply list_elem_of_lookup in Hin as [j Hj].
      destruct (Forall2_lookup_l _ _ _ _ _ Hl Hj) as (s & _ & Hs).
      apply subscript_Ok in Hs. apply Hi, itoc_is_Some. eauto.
    + apply mapM_result_Raise in Hl as (_ & x & _ & _ & Hx & _).
      apply subscript_Raise in Hx as [_ ->]. done.
  - intros H. unfold decode in H.
    apply mapM_result_Raise in H as (l1 & i & l2 & -> & Hi & _).
    apply subscript_Raise in Hi as [Hi _]. exists i.
    split; [apply elem_of_app; right; by left|].
    intros Hr. apply itoc_is_Some in Hr as [s Hs]. congruence.
Qed.

Lemma decode_unknown_id_witness : decode [1; 16]%Z = Raise KeyError.
Proof.
  apply (proj1 (decode_unknown_id [1; 16]%Z)). exists 16%Z.
  split; [apply (bool_decide_unpack _); vm_compute; exact I|].
  rewrite vocab_size_eq. lia.
Defined.

(** ** The batch generator, draw by draw *)

Lemma advance_advance (s : np_random) (n m : nat) :
  advance (advance s n) m = advance s (n + m).
Proof. unfold advance. cbn. f_equal. lia. Qed.

Lemma advance_0 (s : np_random) : advance s 0 = s.
Proof. destruct s. unfold advance. cbn. f_equal. lia. Qed.

(** One iteration draws the two operands from the next two positions of the
    generator and builds its rows from them. *)
Lemma generate_example_operands bs d bw s xr yr s1 :
  generate_example bs d bw s = Ok ((xr, yr), s1) ->
  s1 = advance s 2 /\
  (0 <= (operands d s).1 <= 10 ^ Z.of_nat d - 2)%Z /\
  (0 <= (operands d s).2 <= 10 ^ Z.of_nat d - 2)%Z /\
  (10 ^ Z.of_nat d - 1 <= 2 ^ 63)%Z /\
  encode (take bs (padded_problem bs d bw (operands d s).1 (operands d s).2))
  = Ok xr /\
  exists t,
    encode (drop 1 (take (bs + 1)
              (padded_problem bs d bw (operands d s).1 (operands d s).2)))
    = Ok t /\
    yr = fill_prefix (2 * d + 2) ignore_index t.
Proof.
  unfold generate_example. intros H.
  apply NP_bind_Ok in H as (ab & s2 & Hr & H).
  pose proof (randint_Ok _ _ _ _ _ _ Hr) as (Hlen & Hall & Hrange).
  assert (Hab : ab = [(operands d s).1; (operands d s).2] /\ s2 = advance s 2).
  { unfold randint in Hr.
    destruct (_ <=? 0)%Z in Hr; [discriminate Hr|].
    destruct (2 ^ 63 <? _)%Z in Hr; [discriminate Hr|].
    destruct (0 <? - 2 ^ 63)%Z in Hr; [discriminate Hr|].
    injection Hr as <- <-. unfold operands, advance. cbn [map seq fst snd].
    rewrite Z.sub_0_r, !Z.add_0_l, Nat.add_0_r. done. }
  destruct Hab as [-> ->].
  apply Forall_cons in Hall as [Ha Hall]. apply Forall_cons in Hall as [Hb _].
  apply NP_bind_Ok in H as (i & s3 & Hi & H).
  apply NP_bind_Ok in H as (t & s4 & Ht & H).
  apply np_lift_Ok in Hi as [Hi ->]. apply np_lift_Ok in Ht as [Ht ->].
  injection H as <- <- <-.
  split; [done|]. split; [lia|]. split; [lia|]. split; [lia|].
  split; [exact Hi|]. exists t. split; [exact Ht | done].
Qed.

(** The loop runs its [j]-th iteration on the generator advanced by [2*j]
    draws. *)
Lemma generate_loop_states n bs d bw ins tgs s ins' tgs' s1 :
  generate_loop n bs d bw ins tgs s = Ok ((ins', tgs'), s1) ->
  s1 = advance s (2 * n) /\
  exists exs : list (list Z * list Z),
    length exs = n /\
    ins' = ins ++ exs.*1 /\ tgs' = tgs ++ exs.*2 /\
    forall j ex, exs !! j = Some ex ->
      generate_example bs d bw (advance s (2 * j))
      = Ok (ex, advance s (2 * j + 2)).
Proof.
  revert ins tgs s. induction n as [|n IH]; intros ins tgs s H.
  - injection H as <- <- <-. split; [by rewrite advance_0|].
    exists []. rewrite !app_nil_r. split_and!; done.
  - cbn [generate_loop] in H.
    apply NP_bind_Ok in H as ([input target] & s2 & Hex & H).
    pose proof (generate_example_operands _ _ _ _ _ _ _ Hex) as (-> & _).
    apply IH in H as (-> & exs & Hlen & -> & -> & Hall).
    split; [rewrite advance_advance; f_equal; lia|].
    exists ((input, target) :: exs). cbn [fmap list_fmap fst snd length].
    rewrite <- !app_assoc. split_and!; try done; [by rewrite Hlen|].
    intros [|j] ex Hj.
    + injection Hj as <-. by rewrite advance_0.
    + cbn in Hj. specialize (Hall j ex Hj).
      rewrite !advance_advance in Hall.
      replace (2 * S j) with (2 + 2 * j) by lia.
      replace (2 + 2 * j + 2) with (2 + (2 * j + 2)) by lia. done.
Qed.

Lemma generate_batch_states bs B d bw s x y s1 :
  generate_batch bs B d bw s = Ok ((x, y), s1) ->
  3 * d + 7 <= bs /\ B <> 0 /\ s1 = advance s (2 * B) /\
  nrows x = B /\ ncols x = bs /\ nrows y = B /\ ncols y = bs /\
  length (rows x) = B /\ length (rows y) = B /\
  forall j, j < B ->
    exists xr yr, rows x !! j = Some xr /\ rows y !! j = Some yr /\
      generate_example bs d bw (advance s (2 * j))
      = Ok ((xr, yr), advance s (2 * j + 2)).
Proof.
  intros H.
  pose proof (generate_batch_Ok _ _ _ _ _ _ _ _ H) as (Hbs & _).
  unfold generate_batch in H. cbn zeta in H.
  destruct (3 * d + 7 <=? bs) eqn:Hle; [|discriminate].
  cbn [negb] in H.
  apply NP_bind_Ok in H as ([ins tgs] & s2 & Hloop & H).
  apply NP_bind_Ok in H as (x' & s3 & Hx & H).
  apply NP_bind_Ok in H as (y' & s4 & Hy & H).
  injection H as <- <- <-.
  apply np_lift_Ok in Hx as [Hx ->]. apply np_lift_Ok in Hy as [Hy ->].
  apply generate_loop_states in Hloop as (-> & exs & Hlen & -> & -> & Hall).
  cbn [app] in *.
  apply stack_Ok in Hx as (Hne & Hrx & Hnx & Hcx).
  apply stack_Ok in Hy as (_ & Hry & Hny & Hcy).
  assert (HB : B <> 0).
  { intros ->. destruct exs; [by apply Hne | discriminate]. }
  assert (Hex : forall j, j < B ->
            exists xr yr, rows x' !! j = Some xr /\ rows y' !! j = Some yr /\
              generate_example bs d bw (advance s (2 * j))
              = Ok ((xr, yr), advance s (2 * j + 2))).
  { intros j Hj. destruct (lookup_lt_is_Some_2 exs j) as [[xr yr] Hjex]; [lia|].
    exists xr, yr. rewrite Hrx, Hry, !list_lookup_fmap, Hjex.
    split_and!; try done. by apply Hall. }
  rewrite Hnx, Hny, Hrx, Hry, !length_fmap.
  split_and!; try done.
  - destruct (Hex 0 ltac:(lia)) as (xr & yr & Hxr & _ & Hg).
    rewrite Forall_forall in Hcx. rewrite <- (Hcx xr).
    + by destruct (example_rows bs d bw _ xr yr _ Hbs Hg) as (? & _).
    + rewrite <- Hrx. apply list_elem_of_lookup. eauto.
  - destruct (Hex 0 ltac:(lia)) as (xr & yr & _ & Hyr & Hg).
    rewrite Forall_forall in Hcy. rewrite <- (Hcy yr).
    + by destruct (example_rows bs d bw _ xr yr _ Hbs Hg) as (_ & ? & _).
    + rewrite <- Hry. apply list_elem_of_lookup. eauto.
  - by rewrite <- Hrx, <- Hry.
Qed.

Lemma encode_then_decode (l : list string) (k : list Z) :
  encode l = Ok k -> decode k = Ok l.
Proof.
  intros Hk. apply decode_Ok. apply encode_Ok in Hk. apply Forall2_flip.
  eapply Forall2_impl; [exact Hk|]. intros s i. apply ctoi_itoc.
Qed.

Lemma encode_valid (l : list string) (k : list Z) :
  encode l = Ok k ->
  Forall (fun i => (0 <= i < Z.of_nat vocab_size)%Z) k.
Proof.
  intros Hk. apply encode_Ok in Hk. apply Forall_forall. intros i Hi.
  apply list_elem_of_lookup in Hi as [j Hj].
  destruct (Forall2_lookup_r _ _ _ _ _ Hk Hj) as (s & _ & Hs).
  apply itoc_is_Some. exists s. by apply ctoi_itoc.
Qed.

Lemma encode_rev (l : list string) (k : list Z) :
  encode l = Ok k -> encode (rev l) = Ok (rev k).
Proof.
  intros Hk. apply encode_Ok. apply encode_Ok in Hk.
  induction Hk as [|x y l k Hxy _ IH]; cbn; [constructor|].
  apply Forall2_app; [done | by constructor].
Qed.

(** The symbols of an input row: the prompt, the answer, the end symbol
    and the padding. *)
Lemma padded_problem_parts bs d bw a b :
  (0 <= a <= 10 ^ Z.of_nat d - 2)%Z ->
  (0 <= b <= 10 ^ Z.of_nat d - 2)%Z ->
  (10 ^ Z.of_nat d - 1 <= 2 ^ 63)%Z ->
  3 * d + 7 <= bs ->
  let answer := list_of_str (zfill (d + 1) (str (a + b))) in
  take bs (padded_problem bs d bw a b)
  = prompt_of d a b ++ (if bw then rev answer else answer)
    ++ "<END>" :: replicate (bs - (3 * d + 5)) "<PAD>" /\
  length (prompt_of d a b) = 2 * d + 3 /\
  length answer = d + 1.
Proof.
  intros Ha Hb Hd Hbs. cbn zeta.
  destruct (operands_sum d a b Ha Hb Hd) as (Hd0 & Hsum & Hc).
  pose proof (length_problem_of d bw a b Ha Hb Hd) as Hlen.
  assert (Hans : length (list_of_str (zfill (d + 1) (str (a + b)))) = d + 1).
  { rewrite length_list_of_str. apply zfill_length; [done | lia]. }
  assert (Hp : length (prompt_of d a b) = 2 * d + 3).
  { unfold prompt_of. cbn [length].
    rewrite length_list_of_str, !length_string_app.
    rewrite !zfill_length by lia. cbn. lia. }
  split; [|done].
  unfold padded_problem. cbn zeta. rewrite Hlen.
  assert (Hprob : problem_of d bw a b
                  = prompt_of d a b
                    ++ (if bw then rev (list_of_str (zfill (d + 1) (str (a + b))))
                        else list_of_str (zfill (d + 1) (str (a + b))))
                    ++ ["<END>"]).
  { unfold problem_of, prompt_of. cbn zeta. rewrite Hsum.
    by destruct bw. }
  rewrite Hprob.
  rewrite take_app_ge.
  2:{ rewrite !length_app. destruct bw; rewrite ?length_rev, Hp, Hans;
        cbn; lia. }
  rewrite <- !app_assoc. do 2 f_equal. cbn [app]. f_equal.
  rewrite !length_app. rewrite take_replicate.
  f_equal. destruct bw; rewrite ?length_rev, Hp, Hans; cbn; lia.
Qed.

(** X3: beyond its size check, [generate_batch] raises in exactly two
    situations: [RuntimeError] for an empty batch ([torch.stack] of no
    tensors) and [ValueError] when [max_digits] is 0 or above 18 (the range
    of [np.random.randint] is empty, or does not fit 64 bits); in every
    other case it returns, for every state of the generator, a batch of
    shape (batch_size, block_size) and has drawn [2*batch_size] numbers. *)
Theorem generate_batch_outcome bs B d bw s :
  3 * d + 7 <= bs ->
  (B = 0 -> generate_batch bs B d bw s = Raise RuntimeError) /\
  (1 <= B -> d = 0 \/ 19 <= d ->
   generate_batch bs B d bw s = Raise ValueError) /\
  (1 <= B -> 1 <= d <= 18 ->
   exists x y,
     generate_batch bs B d bw s = Ok ((x, y), advance s (2 * B)) /\
     nrows x = B /\ ncols x = bs /\ nrows y = B /\ ncols y = bs /\
     length (rows x) = B /\ length (rows y) = B).
Proof.
  intros Hbs.
  assert (Hle : (3 * d + 7 <=? bs) = true) by by apply Nat.leb_le.
  split; [|split].
  - intros ->. unfold generate_batch. cbn zeta. rewrite Hle. done.
  - intros HB Hd. destruct B as [|B]; [lia|].
    assert (Hr : randint 0 (10 ^ Z.of_nat d - 1) 2 s = Raise ValueError).
    { unfold randint. destruct Hd as [->|Hd]; [done|].
      assert ((10 ^ 19 <= 10 ^ Z.of_nat d)%Z) by (apply Z.pow_le_mono_r; lia).
      assert ((2 ^ 63 + 1 < 10 ^ 19)%Z) by reflexivity.
      destruct (_ <=? 0)%Z; [done|].
      destruct (2 ^ 63 <? _)%Z eqn:H2; [done|].
      apply Z.ltb_ge in H2. lia. }
    unfold generate_batch. cbn zeta. rewrite Hle. cbn [negb generate_loop].
    apply NP_bind_Raise. left. apply NP_bind_Raise. left.
    unfold generate_example. apply NP_bind_Raise. left. exact Hr.
  - intros HB Hd.
    destruct (generate_batch_total bs B d bw s Hbs HB Hd)
      as (x & y & s1 & Hg & _).
    pose proof (generate_batch_states _ _ _ _ _ _ _ _ Hg)
      as (_ & _ & -> & Hs).
    exists x, y. split; [done|]. by destruct Hs as (? & ? & ? & ? & ? & ? & _).
Qed.

Lemma generate_batch_outcome_witness :
  generate_batch 13 0 2 false example_np = Raise RuntimeError /\
  generate_batch 7 1 0 false example_np = Raise ValueError /\
  exists x y,
    generate_batch 13 3 2 true example_np
    = Ok ((x, y), advance example_np (2 * 3)) /\
    nrows x = 3 /\ ncols x = 13 /\ nrows y = 3 /\ ncols y = 13 /\
    length (rows x) = 3 /\ length (rows y) = 3.
Proof.
  split; [|split].
  - apply (proj1 (generate_batch_outcome 13 0 2 false example_np ltac:(lia))).
    reflexivity.
  - apply (proj1 (proj2 (generate_batch_outcome 7 1 0 false example_np
                           ltac:(lia)))); [lia | by left].
  - apply (proj2 (proj2 (generate_batch_outcome 13 3 2 true example_np
                           ltac:(lia)))); lia.
Defined.

(** X4: row [j] of a returned batch is built from the draws [2*j] and
    [2*j+1] after the state the call started in; decoded, it reads: the
    start symbol, the two operands zero-filled to [max_digits] digits
    around ['+'], ['='], the sum zero-filled to [max_digits+1] digits
    (reversed in backward mode), the end symbol and padding up to
    [block_size].  The sum is the exact integer sum: the 64-bit addition
    does not wrap for operands of this range. *)
Theorem generate_batch_row_content bs B d bw s x y s1 j xr :
  generate_batch bs B d bw s = Ok ((x, y), s1) ->
  rows x !! j = Some xr ->
  let a := (operands d (advance s (2 * j))).1 in
  let b := (operands d (advance s (2 * j))).2 in
  let answer := list_of_str (zfill (d + 1) (str (a + b))) in
  decode xr
  = Ok (prompt_of d a b ++ (if bw then rev answer else answer)
        ++ "<END>" :: replicate (bs - (3 * d + 5)) "<PAD>") /\
  length (prompt_of d a b) = 2 * d + 3 /\ length answer = d + 1 /\
  dec_value (zfill d (str a)) = a /\ dec_value (zfill d (str b)) = b /\
  dec_value (zfill (d + 1) (str (a + b))) = (a + b)%Z.
Proof.
  intros H Hj. cbn zeta.
  pose proof (generate_batch_states _ _ _ _ _ _ _ _ H)
    as (Hbs & _ & _ & _ & _ & _ & _ & Hlen & _ & Hall).
  destruct (Hall j) as (xr' & yr & Hxr & _ & Hg).
  { rewrite <- Hlen. by eapply lookup_lt_Some. }
  assert (xr' = xr) as -> by congruence.
  apply generate_example_operands in Hg as (_ & Ha & Hb & Hd & Hx & _).
  destruct (padded_problem_parts bs d bw _ _ Ha Hb Hd Hbs) as (Hp & Hlp & Hla).
  rewrite Hp in Hx. split_and!; try done.
  - by apply encode_then_decode.
  - apply zfill_value; lia.
  - apply zfill_value; lia.
  - apply zfill_value; lia.
Qed.

Lemma generate_batch_row_content_witness :
  decode notebook_x
  = Ok (prompt_of 10 2306429428 6475420785
        ++ rev (list_of_str (zfill (10 + 1) (str (2306429428 + 6475420785))))
        ++ "<END>" :: replicate (38 - (3 * 10 + 5)) "<PAD>") /\
  dec_value (zfill (10 + 1) (str (2306429428 + 6475420785))) = 8781850213%Z.
Proof.
  pose proof (generate_batch_row_content 38 1 10 true notebook_np _ _ _ 0
                notebook_x notebook_batch eq_refl) as H.
  cbn zeta in H. destruct H as (H1 & _ & _ & _ & _ & H2).
  split; [exact H1 | exact H2].
Defined.

Lemma Forall_fill_prefix (P : Z -> Prop) (n : nat) (v : Z) (t : list Z) :
  P v -> Forall P t -> Forall P (fill_prefix n v t).
Proof.
  intros Hv Ht. unfold fill_prefix. apply Forall_app. split.
  - by apply Forall_replicate.
  - by apply Forall_drop.
Qed.

(** The rows of a returned batch, one by one. *)
Lemma generate_batch_row_valid bs B d bw s x y s1 j xr yr :
  generate_batch bs B d bw s = Ok ((x, y), s1) ->
  rows x !! j = Some xr -> rows y !! j = Some yr ->
  length xr = bs /\ length yr = bs /\
  Forall (fun i => (0 <= i < Z.of_nat vocab_size)%Z) xr /\
  Forall (fun t => t = ignore_index \/ (0 <= t < Z.of_nat vocab_size)%Z) yr.
Proof.
  intros H Hxr Hyr.
  pose proof (generate_batch_states _ _ _ _ _ _ _ _ H)
    as (Hbs & _ & _ & _ & _ & _ & _ & Hlx & _ & Hall).
  destruct (Hall j) as (xr' & yr' & Hxr' & Hyr' & Hg).
  { rewrite <- Hlx. by eapply lookup_lt_Some. }
  assert (xr' = xr) as -> by congruence.
  assert (yr' = yr) as -> by congruence.
  destruct (example_rows _ _ _ _ _ _ _ Hbs Hg) as (Hl1 & Hl2 & _).
  apply generate_example_operands in Hg
    as (_ & _ & _ & _ & Hx & t & Ht & ->).
  split_and!; try done.
  - by eapply encode_valid.
  - apply Forall_fill_prefix; [by left|].
    eapply Forall_impl; [by eapply encode_valid|]. intros i Hi. by right.
Qed.

Lemma generate_batch_rows_length bs B d bw s x y s1 :
  generate_batch bs B d bw s = Ok ((x, y), s1) ->
  Forall (fun r => length r = bs) (rows x) /\
  Forall (fun r => length r = bs) (rows y).
Proof.
  intros H.
  pose proof (generate_batch_states _ _ _ _ _ _ _ _ H)
    as (_ & _ & _ & _ & _ & _ & _ & Hlx & Hly & _).
  split; apply Forall_forall; intros r Hin;
    apply list_elem_of_lookup in Hin as [j Hj].
  - destruct (lookup_lt_is_Some_2 (rows y) j) as [yr Hyr].
    { rewrite Hly, <- Hlx. by eapply lookup_lt_Some. }
    by destruct (generate_batch_row_valid _ _ _ _ _ _ _ _ _ _ _ H Hj Hyr)
      as (? & _).
  - destruct (lookup_lt_is_Some_2 (rows x) j) as [xr Hxr].
    { rewrite Hlx, <- Hly. by eapply lookup_lt_Some. }
    by destruct (generate_batch_row_valid _ _ _ _ _ _ _ _ _ _ _ H Hxr Hj)
      as (_ & ? & _).
Qed.

Lemma generate_batch_wf bs B d bw s x y s1 :
  generate_batch bs B d bw s = Ok ((x, y), s1) ->
  valid_idx vocab_size x /\ valid_targets vocab_size y.
Proof.
  intros H.
  pose proof (generate_batch_states _ _ _ _ _ _ _ _ H)
    as (Hbs & _ & _ & Hnx & Hcx & Hny & Hcy & Hlx & Hly & Hall).
  split.
  - split; [by rewrite Hlx, Hnx|].
    apply Forall_forall. intros xr Hin.
    apply list_elem_of_lookup in Hin as [j Hj].
    destruct (lookup_lt_is_Some_2 (rows y) j) as [yr Hyr].
    { rewrite Hly, <- Hlx. by eapply lookup_lt_Some. }
    destruct (generate_batch_row_valid _ _ _ _ _ _ _ _ _ _ _ H Hj Hyr)
      as (? & _ & ? & _).
    by rewrite Hcx.
  - apply Forall_forall. intros yr Hin.
    apply list_elem_of_lookup in Hin as [j Hj].
    destruct (lookup_lt_is_Some_2 (rows x) j) as [xr Hxr].
    { rewrite Hlx, <- Hly. by eapply lookup_lt_Some. }
    by destruct (generate_batch_row_valid _ _ _ _ _ _ _ _ _ _ _ H Hxr Hj)
      as (_ & _ & _ & ?).
Qed.

(** X5: a returned batch is well formed for the model: the inputs are a
    (batch_size, block_size) tensor of ids below [vocab_size], and every
    target is the ignore label or an id below [vocab_size], the only labels
    that the loss of [forward] accepts; the targets have as many elements
    as the inputs, row by row. *)
Theorem generate_batch_valid bs B d bw s x y s1 :
  generate_batch bs B d bw s = Ok ((x, y), s1) ->
  valid_idx vocab_size x /\ valid_targets vocab_size y /\
  nrows y * ncols y = nrows x * ncols x /\
  Forall (fun r => length r = ncols y) (rows y).
Proof.
  intros H.
  pose proof (generate_batch_states _ _ _ _ _ _ _ _ H)
    as (_ & _ & _ & Hnx & Hcx & Hny & Hcy & _).
  destruct (generate_batch_wf _ _ _ _ _ _ _ _ H) as [Hx Hy].
  destruct (generate_batch_rows_length _ _ _ _ _ _ _ _ H) as [_ Hl].
  split_and!; try done; [by rewrite Hnx, Hcx, Hny, Hcy | by rewrite Hcy].
Qed.

Lemma generate_batch_valid_witness :
  valid_idx vocab_size (mk_tensor2 1 38 [notebook_x]) /\
  valid_targets vocab_size (mk_tensor2 1 38 [notebook_y]) /\
  1 * 38 = 1 * 38 /\
  Forall (fun r => length r = 38) [notebook_y].
Proof.
  exact (generate_batch_valid 38 1 10 true notebook_np _ _ _ notebook_batch).
Defined.

Lemma encode_drop (l : list string) (k : list Z) (m : nat) :
  encode l = Ok k -> encode (drop m l) = Ok (drop m k).
Proof.
  intros H. apply encode_Ok. apply encode_Ok in H. by apply Forall2_drop.
Qed.

(** X6: the two output formats differ in the answer field only.  From the
    same state of the generator, the batch in backward mode and the batch
    in forward mode hold the same prompt in every row and the same symbols
    after the answer, the answer field of one is the reverse of the other,
    and both calls leave the generator in the same state. *)
Theorem generate_batch_backward bs B d s xf yf sf xb yb sb j rf rb :
  generate_batch bs B d false s = Ok ((xf, yf), sf) ->
  generate_batch bs B d true s = Ok ((xb, yb), sb) ->
  rows xf !! j = Some rf -> rows xb !! j = Some rb ->
  sb = sf /\
  take (2 * d + 3) rb = take (2 * d + 3) rf /\
  answer_field d rb = rev (answer_field d rf) /\
  drop (3 * d + 4) rb = drop (3 * d + 4) rf.
Proof.
  intros Hf Hb Hrf Hrb.
  pose proof (generate_batch_states _ _ _ _ _ _ _ _ Hf)
    as (Hbs & _ & -> & _ & _ & _ & _ & Hlf & _ & Hallf).
  pose proof (generate_batch_states _ _ _ _ _ _ _ _ Hb)
    as (_ & _ & -> & _ & _ & _ & _ & _ & _ & Hallb).
  split; [done|].
  assert (Hj : j < B). { rewrite <- Hlf. by eapply lookup_lt_Some. }
  destruct (Hallf j Hj) as (rf' & yr1 & Hrf' & _ & Hgf).
  destruct (Hallb j Hj) as (rb' & yr2 & Hrb' & _ & Hgb).
  assert (rf' = rf) as -> by congruence.
  assert (rb' = rb) as -> by congruence.
  apply generate_example_operands in Hgf as (_ & Ha & Hb' & Hd & Hxf & _).
  apply generate_example_operands in Hgb as (_ & _ & _ & _ & Hxb & _).
  destruct (padded_problem_parts bs d false _ _ Ha Hb' Hd Hbs)
    as (Hpf & Hlp & Hla).
  destruct (padded_problem_parts bs d true _ _ Ha Hb' Hd Hbs) as (Hpb & _).
  rewrite Hpf in Hxf. rewrite Hpb in Hxb.
  set (P := prompt_of d _ _) in *. set (A := list_of_str _) in *.
  set (E := "<END>" :: _) in *.
  assert (Hra : length (rev A) = d + 1) by by rewrite length_rev.
  split_and!.
  - pose proof (encode_take_drop _ _ (2 * d + 3) 0 Hxf) as H1.
    pose proof (encode_take_drop _ _ (2 * d + 3) 0 Hxb) as H2.
    rewrite !drop_0 in H1, H2.
    rewrite take_app_length' in H1, H2 by done. congruence.
  - pose proof (encode_take_drop _ _ (d + 1) (2 * d + 3) Hxf) as H1.
    pose proof (encode_take_drop _ _ (d + 1) (2 * d + 3) Hxb) as H2.
    rewrite drop_app_length' in H1, H2 by done.
    rewrite take_app_length' in H1, H2 by done.
    apply encode_rev in H1. unfold answer_field. congruence.
  - pose proof (encode_drop _ _ (3 * d + 4) Hxf) as H1.
    pose proof (encode_drop _ _ (3 * d + 4) Hxb) as H2.
    rewrite !app_assoc in H1, H2.
    rewrite drop_app_length' in H1, H2 by (rewrite length_app; lia).
    congruence.
Qed.

Lemma generate_batch_backward_witness :
  exists xf yf xb yb rf rb,
    generate_batch 13 1 2 false example_np
    = Ok ((xf, yf), advance example_np 2) /\
    generate_batch 13 1 2 true example_np
    = Ok ((xb, yb), advance example_np 2) /\
    rows xf !! 0 = Some rf /\ rows xb !! 0 = Some rb /\
    take (2 * 2 + 3) rb = take (2 * 2 + 3) rf /\
    answer_field 2 rb = rev (answer_field 2 rf) /\
    drop (3 * 2 + 4) rb = drop (3 * 2 + 4) rf.
Proof.
  do 6 eexists. split; [vm_compute; reflexivity|].
  split; [vm_compute; reflexivity|].
  split; [reflexivity|]. split; [reflexivity|].
  eapply proj2.
  eapply (generate_batch_backward 13 1 2 example_np _ _ _ _ _ _ 0);
    vm_compute; reflexivity.
Defined.

(** The loop with accumulators is the loop from empty lists, appended. *)
Lemma generate_loop_acc n bs d bw ins tgs s :
  generate_loop n bs d bw ins tgs s
  = match generate_loop n bs d bw [] [] s with
    | Ok ((i, t), s') => Ok ((ins ++ i, tgs ++ t), s')
    | Raise e => Raise e
    end.
Proof.
  revert ins tgs s. induction n as [|n IH]; intros ins tgs s.
  - cbn. by rewrite !app_nil_r.
  - cbn [generate_loop]. unfold mbind, NP_bind.
    destruct (generate_example bs d bw s) as [[[input target] s2]|e]; [|done].
    rewrite (IH (ins ++ [input]) (tgs ++ [target])).
    rewrite (IH ([] ++ [input]) ([] ++ [target])).
    destruct (generate_loop n bs d bw [] [] s2) as [[[i t] s3]|e]; [|done].
    cbn [app]. by rewrite <- !app_assoc.
Qed.

Lemma generate_loop_add n m bs d bw ins tgs s :
  generate_loop (n + m) bs d bw ins tgs s
  = match generate_loop n bs d bw ins tgs s with
    | Ok ((i, t), s') => generate_loop m bs d bw i t s'
    | Raise e => Raise e
    end.
Proof.
  revert ins tgs s. induction n as [|n IH]; intros ins tgs s; [done|].
  cbn [Nat.add generate_loop]. unfold mbind, NP_bind.
  destruct (generate_example bs d bw s) as [[[input target] s2]|e]; [|done].
  apply IH.
Qed.

(** X7: the examples of a batch are drawn one after the other: a batch of
    [B1 + B2] examples is a batch of [B1] examples followed by the batch of
    [B2] examples drawn from the state in which the first call leaves the
    generator. *)
Theorem generate_batch_append bs B1 B2 d bw s x1 y1 s1 x2 y2 s2 :
  generate_batch bs B1 d bw s = Ok ((x1, y1), s1) ->
  generate_batch bs B2 d bw s1 = Ok ((x2, y2), s2) ->
  generate_batch bs (B1 + B2) d bw s
  = Ok ((mk_tensor2 (B1 + B2) bs (rows x1 ++ rows x2),
         mk_tensor2 (B1 + B2) bs (rows y1 ++ rows y2)), s2).
Proof.
  intros H1 H2.
  pose proof (generate_batch_rows_length _ _ _ _ _ _ _ _ H1) as [Hv1 Hw1].
  pose proof (generate_batch_rows_length _ _ _ _ _ _ _ _ H2) as [Hv2 Hw2].
  pose proof (generate_batch_states _ _ _ _ _ _ _ _ H1)
    as (Hbs & HB1 & _ & _ & Hc1 & _ & Hd1 & Hl1 & Hm1 & _).
  pose proof (generate_batch_states _ _ _ _ _ _ _ _ H2)
    as (_ & _ & _ & _ & Hc2 & _ & Hd2 & Hl2 & Hm2 & _).
  unfold generate_batch in *. cbn zeta in *.
  destruct (3 * d + 7 <=? bs); [|discriminate]. cbn [negb] in *.
  apply NP_bind_Ok in H1 as ([i1 t1] & s3 & Hloop1 & H1).
  apply NP_bind_Ok in H1 as (x1' & s4 & Hx1 & H1).
  apply NP_bind_Ok in H1 as (y1' & s5 & Hy1 & H1).
  injection H1 as <- <- <-.
  apply np_lift_Ok in Hx1 as [Hx1 ->]. apply np_lift_Ok in Hy1 as [Hy1 ->].
  apply NP_bind_Ok in H2 as ([i2 t2] & s6 & Hloop2 & H2).
  apply NP_bind_Ok in H2 as (x2' & s7 & Hx2 & H2).
  apply NP_bind_Ok in H2 as (y2' & s8 & Hy2 & H2).
  injection H2 as <- <- <-.
  apply np_lift_Ok in Hx2 as [Hx2 ->]. apply np_lift_Ok in Hy2 as [Hy2 ->].
  apply stack_Ok in Hx1 as (Hne1 & Hr1 & _ & _).
  apply stack_Ok in Hy1 as (_ & Hq1 & _ & _).
  apply stack_Ok in Hx2 as (_ & Hr2 & _ & _).
  apply stack_Ok in Hy2 as (_ & Hq2 & _ & _).
  subst i1 t1 i2 t2.
  apply NP_bind_Ok. exists (rows x1' ++ rows x2', rows y1' ++ rows y2'), s6.
  split.
  { rewrite generate_loop_add, Hloop1, generate_loop_acc, Hloop2. done. }
  assert (Hsx : stack (rows x1' ++ rows x2')
                = Ok (mk_tensor2 (B1 + B2) bs (rows x1' ++ rows x2'))).
  { rewrite <- Hl1, <- Hl2, <- length_app. apply stack_total.
    - intros Hnil. apply app_eq_nil in Hnil as [Hnil _].
      rewrite Hnil in Hl1. cbn in Hl1. lia.
    - apply Forall_app. split.
      + done.
      + done. }
  assert (Hsy : stack (rows y1' ++ rows y2')
                = Ok (mk_tensor2 (B1 + B2) bs (rows y1' ++ rows y2'))).
  { rewrite <- Hm1, <- Hm2, <- length_app. apply stack_total.
    - intros Hnil. apply app_eq_nil in Hnil as [Hnil _].
      rewrite Hnil in Hm1. cbn in Hm1. lia.
    - apply Forall_app. split.
      + done.
      + done. }
  apply NP_bind_Ok. eexists _, s6. split; [by apply np_lift_Ok|].
  apply NP_bind_Ok. eexists _, s6. split; [by apply np_lift_Ok|]. done.
Qed.

Lemma generate_batch_append_witness :
  exists x1 y1 x2 y2,
    generate_batch 10 1 1 false example_np
    = Ok ((x1, y1), advance example_np 2) /\
    generate_batch 10 2 1 false (advance example_np 2)
    = Ok ((x2, y2), advance example_np 6) /\
    generate_batch 10 (1 + 2) 1 false example_np
    = Ok ((mk_tensor2 (1 + 2) 10 (rows x1 ++ rows x2),
           mk_tensor2 (1 + 2) 10 (rows y1 ++ rows y2)), advance example_np 6).
Proof.
  do 4 eexists. split; [vm_compute; reflexivity|].
  split; [vm_compute; reflexivity|].
  apply (generate_batch_append 10 1 2 1 false example_np _ _
           (advance example_np 2)); vm_compute; reflexivity.
Defined.

Lemma list_of_str_single (s : string) :
  Forall (fun c => String.length c = 1) (list_of_str s).
Proof.
  unfold list_of_str. induction s as [|c s IH]; cbn [list_ascii_of_string map];
    by constructor.
Qed.

Lemma padded_problem_single (bs d : nat) (bw : bool) (a b : Z) :
  Forall (fun c => c <> "10") (padded_problem bs d bw a b).
Proof.
  assert (Hs : forall s, Forall (fun c => c <> "10") (list_of_str s)).
  { intros s. eapply Forall_impl; [apply list_of_str_single|].
    intros c Hc ->. discriminate Hc. }
  unfold padded_problem, problem_of. cbn zeta.
  destruct bw;
    repeat first
      [ apply Forall_nil
      | apply Forall_replicate
      | apply Forall_rev
      | apply Hs
      | apply Forall_cons; split
      | apply Forall_app; split ];
    first [exact I | discriminate].
Qed.

Lemma encode_not_ten (l : list string) (k : list Z) :
  encode l = Ok k -> Forall (fun c => c <> "10") l -> 3%Z ∉ k.
Proof.
  intros Hk Hl Hin. apply encode_Ok in Hk.
  apply list_elem_of_lookup in Hin as [j Hj].
  destruct (Forall2_lookup_r _ _ _ _ _ Hk Hj) as (c & Hc & Hci).
  assert (H10 : ctoi !! "10" = Some 3%Z).
  { apply ctoi_lookup. split; [reflexivity | lia]. }
  rewrite Forall_forall in Hl. apply (Hl c).
  - apply list_elem_of_lookup. eauto.
  - by eapply ctoi_inj.
Qed.

(** X20: the vocabulary holds the two-character symbol ["10"] (id 3), but
    no batch ever contains it: every symbol of a problem is a single
    character or one of the three special symbols.  The id 3 occurs neither
    in the inputs nor in the targets. *)
Theorem generate_batch_unused_symbol bs B d bw s x y s1 :
  generate_batch bs B d bw s = Ok ((x, y), s1) ->
  ctoi !! "10" = Some 3%Z /\
  (forall r, r ∈ rows x -> 3%Z ∉ r) /\
  (forall r, r ∈ rows y -> 3%Z ∉ r).
Proof.
  intros H.
  pose proof (generate_batch_states _ _ _ _ _ _ _ _ H)
    as (_ & _ & _ & _ & _ & _ & _ & Hlx & Hly & Hall).
  split; [apply ctoi_lookup; split; [reflexivity | lia]|].
  split; intros r Hin; apply list_elem_of_lookup in Hin as [j Hj].
  - destruct (Hall j) as (xr & yr & Hxr & _ & Hg).
    { rewrite <- Hlx. by eapply lookup_lt_Some. }
    assert (xr = r) as -> by congruence.
    apply generate_example_operands in Hg as (_ & _ & _ & _ & Hx & _).
    eapply encode_not_ten; [exact Hx|].
    apply Forall_take, padded_problem_single.
  - destruct (Hall j) as (xr & yr & _ & Hyr & Hg).
    { rewrite <- Hly. by eapply lookup_lt_Some. }
    assert (yr = r) as -> by congruence.
    apply generate_example_operands in Hg
      as (_ & _ & _ & _ & _ & t & Ht & ->).
    intros Hin. unfold fill_prefix in Hin.
    apply elem_of_app in Hin as [Hin|Hin].
    + apply elem_of_replicate in Hin as [Hin _]. discriminate Hin.
    + apply list_elem_of_lookup in Hin as [i Hi]. rewrite lookup_drop in Hi.
      eapply encode_not_ten; [exact Ht | | by eapply list_elem_of_lookup_2].
      apply Forall_drop, Forall_take, padded_problem_single.
Qed.

Lemma generate_batch_unused_symbol_witness :
  ctoi !! "10" = Some 3%Z /\
  (forall r, r ∈ [notebook_x] -> 3%Z ∉ r) /\
  (forall r, r ∈ [notebook_y] -> 3%Z ∉ r).
Proof.
  exact (generate_batch_unused_symbol 38 1 10 true notebook_np _ _ _
           notebook_batch).
Defined.

(** ** The forward pass: modes, targets and the loss *)

Section ForwardExtras.

Context {R : Type} {SR : Scalar R} {DV : Device}.

Lemma result_bind_ext {A B} (m : result A) (f g : A -> result B) :
  (forall a, f a = g a) -> m ≫= f = m ≫= g.
Proof. intros H. destruct m; [apply H | done]. Qed.

Lemma TransformerBlock_forward_eval (b : TransformerBlock) (tp1 tp2 : tape)
  (x : tensor3) :
  TransformerBlock_forward b false tp1 x = TransformerBlock_forward b false tp2 x.
Proof. reflexivity. Qed.

Lemma Sequential_forward_eval (bs : list TransformerBlock) (i : nat)
  (tp1 tp2 : tape) (x : tensor3) :
  Sequential_forward bs i false tp1 x = Sequential_forward bs i false tp2 x.
Proof.
  revert i x. induction bs as [|b bs IH]; intros i x; [done|].
  cbn [Sequential_forward].
  rewrite (TransformerBlock_forward_eval b (sub_tape tp1 i) (sub_tape tp2 i)).
  destruct (TransformerBlock_forward b false (sub_tape tp2 i) x) as [y|e];
    [|done].
  apply IH.
Qed.

Lemma forward_with_eval (self : TransformerLanguageModel) (tp1 tp2 : tape)
  (idx : tensor2) (targets : option tensor2) :
  forward_with self false tp1 idx targets
  = forward_with self false tp2 idx targets.
Proof.
  unfold forward_with. do 3 (apply result_bind_ext; intros ?).
  by rewrite (Sequential_forward_eval (blocks self) 0 tp1 tp2).
Qed.

(** *** Dropout layers of rate zero *)

(** The dropout rates of the blocks are all zero. *)
Lemma Dropout_zero (p : R) (tr : bool) (tp : tape) (x : tensor3) :
  rate_is_zero p = true -> Dropout_forward p tr tp x = x.
Proof.
  intros Hp. destruct x. unfold Dropout_forward, dropout_data. cbn.
  rewrite Hp. by destruct tr.
Qed.

Lemma attention_heads_zero (sa : MultiHeadAttention) (tr : bool)
  (tp1 tp2 : tape) (T : nat) (ks qs vs : list (list R)) :
  rate_is_zero (mha_dropout_rate sa) = true ->
  attention_heads sa tr tp1 T ks qs vs = attention_heads sa false tp2 T ks qs vs.
Proof.
  intros Hp. unfold attention_heads. cbn zeta. f_equal. apply imap_ext.
  intros j [[q k] v] _. cbn [fst snd].
  unfold scaled_dot_product_attention, dropout_weights. cbn zeta.
  rewrite Hp. by destruct tr.
Qed.

Lemma MultiHeadAttention_forward_zero (sa : MultiHeadAttention) (tr : bool)
  (tp1 tp2 : tape) (x : tensor3) :
  rate_is_zero (mha_dropout_rate sa) = true ->
  MultiHeadAttention_forward sa tr tp1 x
  = MultiHeadAttention_forward sa false tp2 x.
Proof.
  intros Hp. unfold MultiHeadAttention_forward. cbn zeta.
  apply result_bind_ext. intros k. apply result_bind_ext. intros q.
  apply result_bind_ext. intros v.
  destruct (negb _); [done|].
  assert (Hout : imap (fun b kqv =>
                         attention_heads sa tr (sub_tape (sub_tape tp1 0) b)
                           (dimT x) kqv.1.1 kqv.1.2 kqv.2)
                      (zip (zip (data k) (data q)) (data v))
                 = imap (fun b kqv =>
                           attention_heads sa false
                             (sub_tape (sub_tape tp2 0) b)
                             (dimT x) kqv.1.1 kqv.1.2 kqv.2)
                        (zip (zip (data k) (data q)) (data v))).
  { apply imap_ext. intros b kqv _. by apply attention_heads_zero. }
  rewrite Hout. destruct (negb _); [done|].
  apply result_bind_ext. intros out. by rewrite !Dropout_zero.
Qed.

Lemma FeedForward_forward_zero (ff : FeedForward) (tr : bool)
  (tp1 tp2 : tape) (x : tensor3) :
  rate_is_zero (ff_dropout_rate ff) = true ->
  FeedForward_forward ff tr tp1 x = FeedForward_forward ff false tp2 x.
Proof.
  intros Hp. unfold FeedForward_forward.
  apply result_bind_ext. intros h. apply result_bind_ext. intros o.
  by rewrite !Dropout_zero.
Qed.

Lemma TransformerBlock_forward_zero (blk : TransformerBlock) (tr : bool)
  (tp1 tp2 : tape) (x : tensor3) :
  rate_is_zero (mha_dropout_rate (tb_sa blk)) = true ->
  rate_is_zero (ff_dropout_rate (tb_ff blk)) = true ->
  TransformerBlock_forward blk tr tp1 x
  = TransformerBlock_forward blk false tp2 x.
Proof.
  intros Hsa Hff. unfold TransformerBlock_forward.
  apply result_bind_ext. intros n1.
  rewrite (MultiHeadAttention_forward_zero _ tr (sub_tape tp1 0)
             (sub_tape tp2 0)) by done.
  apply result_bind_ext. intros a. apply result_bind_ext. intros x'.
  apply result_bind_ext. intros n2.
  by rewrite (FeedForward_forward_zero _ tr (sub_tape tp1 1) (sub_tape tp2 1)).
Qed.

Lemma Sequential_forward_zero (bl : list TransformerBlock) (i : nat)
  (tr : bool) (tp1 tp2 : tape) (x : tensor3) :
  Forall (fun blk => rate_is_zero (mha_dropout_rate (tb_sa blk)) = true /\
                     rate_is_zero (ff_dropout_rate (tb_ff blk)) = true) bl ->
  Sequential_forward bl i tr tp1 x = Sequential_forward bl i false tp2 x.
Proof.
  intros Hbl. revert i x.
  induction Hbl as [|blk bl [Hsa Hff] _ IH]; intros i x; [done|].
  cbn [Sequential_forward].
  rewrite (TransformerBlock_forward_zero blk tr (sub_tape tp1 i)
             (sub_tape tp2 i)) by done.
  apply result_bind_ext. intros y. apply IH.
Qed.

Lemma dropout_draws_zero (p : R) (n : nat) :
  rate_is_zero p = true -> dropout_draws p n = false.
Proof. intros Hp. unfold dropout_draws. by rewrite Hp. Qed.

Lemma TransformerBlock_draws_zero (blk : TransformerBlock) (tp : tape)
  (x : tensor3) :
  rate_is_zero (mha_dropout_rate (tb_sa blk)) = true ->
  rate_is_zero (ff_dropout_rate (tb_ff blk)) = true ->
  TransformerBlock_draws blk tp x = false.
Proof.
  intros Hsa Hff. unfold TransformerBlock_draws.
  destruct (LayerNorm_forward (tb_ln1 blk) x) as [n1|]; [|done].
  assert (H1 : MultiHeadAttention_draws (tb_sa blk) n1 = false).
  { unfold MultiHeadAttention_draws. cbn zeta.
    rewrite !dropout_draws_zero by done.
    repeat match goal with
           | |- context [match ?m with Ok _ => _ | Raise _ => _ end] =>
               destruct m
           | |- context [if ?c then _ else _] => destruct c
           end; done. }
  rewrite H1. cbn [orb].
  destruct (_ ≫= _) as [n2|]; [|done].
  unfold FeedForward_draws.
  destruct (Linear_forward (ff_lin1 (tb_ff blk)) n2) as [h|]; [|done].
  destruct (Linear_forward (ff_lin2 (tb_ff blk)) (ReLU_forward h)) as [o|];
    [|done].
  by apply dropout_draws_zero.
Qed.

Lemma Sequential_draws_zero (bl : list TransformerBlock) (i : nat)
  (tp : tape) (x : tensor3) :
  Forall (fun blk => rate_is_zero (mha_dropout_rate (tb_sa blk)) = true /\
                     rate_is_zero (ff_dropout_rate (tb_ff blk)) = true) bl ->
  Sequential_draws bl i tp x = false.
Proof.
  intros Hbl. revert i x.
  induction Hbl as [|blk bl [Hsa Hff] _ IH]; intros i x; [done|].
  cbn [Sequential_draws]. rewrite TransformerBlock_draws_zero by done.
  cbn [orb]. destruct (TransformerBlock_forward _ _ _ _); [apply IH | done].
Qed.

(** The constructor gives its rate to every dropout of the model. *)
Lemma TransformerLanguageModel_init_rates (src : list nat -> R)
  (V bs C hs nh nb : nat) (rate : R) (self : TransformerLanguageModel) :
  TransformerLanguageModel_init src V bs C hs nh nb rate = Ok self ->
  Forall (fun blk => mha_dropout_rate (tb_sa blk) = rate /\
                     ff_dropout_rate (tb_ff blk) = rate) (blocks self).
Proof.
  unfold TransformerLanguageModel_init. cbn zeta. intros H.
  apply result_bind_Ok in H as (bl & Hbl & [= <-]). cbn [blocks].
  apply mapM_result_Ok in Hbl.
  apply Forall_forall. intros blk Hb. apply list_elem_of_lookup in Hb as [i Hi].
  destruct (Forall2_lookup_r _ _ _ _ _ Hbl Hi) as (j & _ & Hj).
  unfold TransformerBlock_init in Hj.
  apply result_bind_Ok in Hj as (sa & Hsa & Hj).
  apply result_bind_Ok in Hj as (ff & Hff & [= <-]). cbn [tb_sa tb_ff].
  unfold MultiHeadAttention_init in Hsa. unfold FeedForward_init in Hff.
  repeat case_match; simplify_eq. done.
Qed.

Lemma TransformerLanguageModel_init_blocks (src : list nat -> R)
  (V bs C hs nh nb : nat) (rate : R) (self : TransformerLanguageModel) :
  TransformerLanguageModel_init src V bs C hs nh nb rate = Ok self ->
  length (blocks self) = nb.
Proof.
  unfold TransformerLanguageModel_init. cbn zeta. intros H.
  apply result_bind_Ok in H as (bl & Hbl & [= <-]). cbn [blocks].
  apply mapM_result_length in Hbl. by rewrite Hbl, length_seq.
Qed.

(** X8: when the forward pass uses no randomness.  Outside training its
    result does not depend on the draws of torch's generator, with or
    without targets, and the call leaves the generator where it was.  The
    same holds in training for a model built with the dropout rate zero or
    without blocks: the pass in training computes what the pass in eval
    mode computes, and draws nothing. *)
Theorem forward_deterministic (src : list nat -> R) (V bs C hs nh nb : nat)
  (rate : R) (self : TransformerLanguageModel) (idx : tensor2)
  (targets : option tensor2) :
  TransformerLanguageModel_init src V bs C hs nh nb rate = Ok self ->
  (forall tp1 tp2,
      forward_with self false tp1 idx targets
      = forward_with self false tp2 idx targets) /\
  (forall w tp, training w = false ->
      forward self idx targets w
      = (forward_with self false tp idx targets, w)) /\
  (rate_is_zero rate = true \/ nb = 0 ->
   (forall tr tp1 tp2,
       forward_with self tr tp1 idx targets
       = forward_with self false tp2 idx targets) /\
   (forall w tp,
       forward self idx targets w
       = (forward_with self false tp idx targets, w))).
Proof.
  intros Hinit. split_and!.
  - intros tp1 tp2. apply forward_with_eval.
  - intros w tp Hw. rewrite forward_eval by done. f_equal.
    apply forward_with_eval.
  - intros Hcase.
    assert (Hbl : Forall (fun blk =>
                    rate_is_zero (mha_dropout_rate (tb_sa blk)) = true /\
                    rate_is_zero (ff_dropout_rate (tb_ff blk)) = true)
                    (blocks self)).
    { destruct Hcase as [Hzero| ->].
      - eapply Forall_impl; [by eapply TransformerLanguageModel_init_rates|].
        intros blk [-> ->]. done.
      - apply TransformerLanguageModel_init_blocks in Hinit.
        apply nil_length_inv in Hinit. rewrite Hinit. constructor. }
    assert (Hfw : forall tr tp1 tp2,
               forward_with self tr tp1 idx targets
               = forward_with self false tp2 idx targets).
    { intros tr tp1 tp2. unfold forward_with.
      do 3 (apply result_bind_ext; intros ?).
      by rewrite (Sequential_forward_zero (blocks self) 0 tr tp1 tp2). }
    split; [exact Hfw|].
    intros w tp. unfold forward. cbn zeta. f_equal; [apply Hfw|].
    unfold forward_draws.
    destruct (_ ≫= _) as [x0|]; [|by rewrite andb_false_r].
    by rewrite Sequential_draws_zero, andb_false_r.
Qed.

Lemma forward_with_targets (self : TransformerLanguageModel) (tr : bool)
  (tp : tape) (idx tg : tensor2) :
  forward_with self tr tp idx (Some tg)
  = match forward_with self tr tp idx None with
    | Ok (Logits3 lg, _) =>
        if negb (nrows tg * ncols tg =? dimB lg * dimT lg)
        then Raise RuntimeError
        else
          loss ← cross_entropy (dimC lg) (concat (data lg)) (concat (rows tg));
          Ok (Logits2 (dimB lg * dimT lg) (dimC lg) (concat (data lg)),
              Some loss)
    | Ok (Logits2 _ _ _, _) => Raise RuntimeError
    | Raise e => Raise e
    end.
Proof.
  unfold forward_with. unfold mbind, result_bind.
  destruct (Embedding_forward _ _) as [te|e]; [|done].
  destruct (mapM _ _) as [pe|e]; [|done].
  destruct (add_positions _ _ _) as [x0|e]; [|done].
  destruct (Sequential_forward _ _ _ _ _) as [x1|e]; [|done].
  destruct (LayerNorm_forward _ _) as [x2|e]; [|done].
  destruct (Linear_forward _ _) as [lg|e]; [|done].
  reflexivity.
Qed.


Lemma nll_term_valid (C : nat) (x : list R) (t : Z) :
  t = ignore_index \/ (0 <= t < Z.of_nat C)%Z -> succeeds (nll_term C (x, t)).
Proof.
  intros Ht. unfold nll_term, succeeds. cbn [snd fst].
  destruct (t =? ignore_index)%Z eqn:Hi; [eauto|].
  apply Z.eqb_neq in Hi. destruct Ht as [Ht|Ht]; [done|].
  replace ((t <? 0)%Z || (Z.of_nat C <=? t)%Z)%bool with false; [eauto|].
  symmetry. apply orb_false_intro; [apply Z.ltb_ge | apply Z.leb_gt]; lia.
Qed.


Lemma cross_entropy_total (C : nat) (logits : list (list R))
  (targets : list Z) :
  Forall (fun t => t = ignore_index \/ (0 <= t < Z.of_nat C)%Z) targets ->
  exists loss, cross_entropy C logits targets = Ok loss.
Proof.
  intros Ht. unfold cross_entropy.
  destruct (mapM_result_total (nll_term C) (zip logits targets)) as [k Hk].
  - apply Forall_forall. intros [x t] Hin. apply nll_term_valid.
    apply elem_of_zip_r in Hin. rewrite Forall_forall in Ht. by apply Ht.
  - rewrite Hk. cbn. eauto.
Qed.


Lemma nll_terms_ignore (C : nat) (l1 l2 : list (list R)) (tg : list Z) :
  length l1 = length l2 ->
  (forall i t, tg !! i = Some t -> t <> ignore_index -> l1 !! i = l2 !! i) ->
  mapM (nll_term C) (zip l1 tg) = mapM (nll_term C) (zip l2 tg).
Proof.
  revert l2 tg. induction l1 as [|x1 l1 IH]; intros [|x2 l2] tg Hlen H;
    try discriminate; [done|].
  destruct tg as [|t tg]; [done|].
  cbn [zip zip_with]. rewrite !mapM_result_cons.
  assert (Hx : nll_term C (x1, t) = nll_term C (x2, t)).
  { unfold nll_term. cbn [fst snd].
    destruct (t =? ignore_index)%Z eqn:Ht; [done|].
    apply Z.eqb_neq in Ht. specialize (H 0 t eq_refl Ht).
    injection H as ->. done. }
  rewrite Hx. destruct (nll_term C (x2, t)) as [y|e]; [|done].
  rewrite (IH l2 tg); [done | by injection Hlen |].
  intros i t' Hi Ht'. exact (H (S i) t' Hi Ht').
Qed.

Lemma nll_terms_all_ignored (C : nat) (l : list (list R)) (tg : list Z) :
  Forall (fun t => t = ignore_index) tg ->
  exists k, mapM (nll_term C) (zip l tg) = Ok k /\ omap id k = [].
Proof.
  revert tg. induction l as [|x l IH]; intros tg Htg.
  - exists []. done.
  - destruct tg as [|t tg]; [by exists []|].
    apply Forall_cons in Htg as [-> Htg].
    destruct (IH tg Htg) as (k & Hk & Hnil).
    exists (None :: k). cbn [zip zip_with]. rewrite mapM_result_cons.
    unfold nll_term at 1. cbn [fst snd]. rewrite Z.eqb_refl, Hk. done.
Qed.

(** X9: the loss takes no account of what the model predicts at the
    positions whose target is the ignore label: two tensors of logits that
    agree at the other positions have the same loss.  When every target is
    the ignore label, the mean is taken over no term at all, and the loss
    is zero divided by zero. *)
Theorem cross_entropy_ignore (C : nat) (l1 l2 : list (list R))
  (tg : list Z) :
  length l1 = length l2 ->
  (forall i t, tg !! i = Some t -> t <> ignore_index -> l1 !! i = l2 !! i) ->
  cross_entropy C l1 tg = cross_entropy C l2 tg /\
  (Forall (fun t => t = ignore_index) tg ->
   cross_entropy C l1 tg = Ok (rdiv rzero (of_nat 0))).
Proof.
  intros Hlen H. split.
  - unfold cross_entropy. by rewrite (nll_terms_ignore C l1 l2 tg).
  - intros Hall. unfold cross_entropy.
    destruct (nll_terms_all_ignored C l1 tg Hall) as (k & -> & Hk).
    cbn. by rewrite Hk.
Qed.

Lemma length_concat_shape (B T C : nat) (x : @tensor3 R) :
  has_shape B T C x -> length (concat (data x)) = B * T.
Proof.
  intros (_ & _ & _ & Hlen & Hall). subst B.
  induction (data x) as [|s d IH]; [done|].
  apply Forall_cons in Hall as [Hs Hall].
  cbn [concat length]. rewrite length_app, Hs, IH by done. lia.
Qed.

(** The forward pass with targets, for a model whose layers fit. *)
Lemma forward_with_loss (self : TransformerLanguageModel) (tr : bool)
  (tp : tape) (idx tg : tensor2) :
  wf_model self -> lm_head_size self = lm_embedding_dim self ->
  valid_idx (lm_vocab_size self) idx -> ncols idx <= lm_block_size self ->
  exists lg,
    forward_with self tr tp idx None = Ok (Logits3 lg, None) /\
    length (concat (data lg)) = nrows idx * ncols idx /\
    forward_with self tr tp idx (Some tg)
    = if negb (nrows tg * ncols tg =? nrows idx * ncols idx)
      then Raise RuntimeError
      else
        loss ← cross_entropy (lm_vocab_size self) (concat (data lg))
                             (concat (rows tg));
        Ok (Logits2 (nrows idx * ncols idx) (lm_vocab_size self)
                    (concat (data lg)), Some loss).
Proof.
  intros Hwf Hhs Hidx HT.
  destruct (forward_with_succeeds self tr tp idx Hwf Hhs Hidx HT)
    as (lg & Hlg & Hshape & _).
  exists lg. split; [done|]. split; [by eapply length_concat_shape|].
  rewrite forward_with_targets, Hlg.
  destruct Hshape as (-> & -> & -> & _). done.
Qed.


Lemma forward_with_batch (self : TransformerLanguageModel) (tr : bool)
  (tp : tape) (bs B d : nat) (bw : bool) (s s1 : np_random) (x y : tensor2) :
  wf_model self -> lm_head_size self = lm_embedding_dim self ->
  lm_vocab_size self = vocab_size -> bs <= lm_block_size self ->
  generate_batch bs B d bw s = Ok ((x, y), s1) ->
  exists lg loss,
    forward_with self tr tp x (Some y)
    = Ok (Logits2 (B * bs) vocab_size lg, Some loss) /\
    length lg = B * bs /\
    cross_entropy vocab_size lg (concat (rows y)) = Ok loss.
Proof.
  intros Hwf Hhs HV Hctx Hgen.
  destruct (generate_batch_wf _ _ _ _ _ _ _ _ Hgen) as [Hx Hy].
  pose proof (generate_batch_states _ _ _ _ _ _ _ _ Hgen)
    as (_ & _ & _ & Hnx & Hcx & Hny & Hcy & _).
  rewrite <- HV in Hx.
  destruct (forward_with_loss self tr tp x y Hwf Hhs Hx) as (lg & _ & Hlen & Htg).
  { by rewrite Hcx. }
  rewrite Hnx, Hcx, Hny, Hcy, HV in *. rewrite Nat.eqb_refl in Htg.
  cbn [negb] in Htg.
  destruct (cross_entropy_total vocab_size (concat (data lg))
              (concat (rows y))) as [loss Hloss].
  { by apply Forall_concat. }
  exists (concat (data lg)), loss. rewrite Htg, Hloss. done.
Qed.

(** X11: the two steps of an iteration of the training loop fit together:
    on a model built for the vocabulary of the tokenizer and a context of at
    least [block_size] positions, the forward pass accepts every batch that
    [generate_batch] returns, in either mode, and returns a loss with
    logits of shape (batch_size * block_size, vocab_size). *)
Theorem training_step_forward (src : list nat -> R) (ctx C nh nb : nat)
  (rate : R) (self : TransformerLanguageModel) (tr : bool) (tp : tape)
  (bs B d : nat) (bw : bool) (s s1 : np_random) (x y : tensor2) :
  TransformerLanguageModel_init src vocab_size ctx C C nh nb rate = Ok self ->
  bs <= ctx ->
  generate_batch bs B d bw s = Ok ((x, y), s1) ->
  exists lg loss,
    forward_with self tr tp x (Some y)
    = Ok (Logits2 (B * bs) vocab_size lg, Some loss) /\
    length lg = B * bs /\
    cross_entropy vocab_size lg (concat (rows y)) = Ok loss.
Proof.
  intros Hinit Hctx Hgen.
  apply TransformerLanguageModel_init_Ok in Hinit as (Hwf & HV & Hbs & HC & Hhs).
  eapply forward_with_batch; try done; [congruence | by rewrite Hbs].
Qed.

(** X21: a block built by the constructor maps a (B, T, C) tensor to a
    (B, T, C) tensor, in either mode, for every sequence length [T] and
    whatever the head size: the block itself neither limits the sequence to
    [block_size] nor needs [head_size = embedding_dim].  An input with
    another feature dimension is rejected by the first layer norm. *)
Theorem TransformerBlock_forward_keeps_shape (src : list nat -> R)
  (bs C hs nh : nat) (rate : R) (b : TransformerBlock) (tr : bool) (tp : tape)
  (x : tensor3) :
  TransformerBlock_init src bs C hs nh rate = Ok b ->
  (forall B T, has_shape B T C x ->
     exists y, TransformerBlock_forward b tr tp x = Ok y /\ has_shape B T C y) /\
  (dimC x <> C -> TransformerBlock_forward b tr tp x = Raise RuntimeError).
Proof.
  intros Hinit. apply TransformerBlock_init_Ok in Hinit. split.
  - intros B T Hx. by apply TransformerBlock_forward_shape.
  - intros Hne. destruct Hinit as (_ & Hln & _).
    unfold TransformerBlock_forward, LayerNorm_forward. rewrite Hln.
    by rewrite (proj2 (Nat.eqb_neq _ _) Hne).
Qed.

End ForwardExtras.

(** ** Construction, parameter count and resumed sampling *)

Section InitExtras.

Context {R : Type} {SR : Scalar R} {DV : Device}.

Lemma TransformerBlock_init_no_heads (src : list nat -> R) bs C hs rate :
  TransformerBlock_init src bs C hs 0 rate = Raise ZeroDivisionError.
Proof. reflexivity. Qed.

Lemma TransformerBlock_init_indivisible (src : list nat -> R) bs C hs nh rate :
  nh <> 0 -> hs mod nh <> 0 ->
  TransformerBlock_init src bs C hs nh rate = Raise AssertionError.
Proof.
  intros Hnh Hmod. unfold TransformerBlock_init, MultiHeadAttention_init.
  rewrite (proj2 (Nat.eqb_neq _ _) Hnh), (proj2 (Nat.eqb_neq _ _) Hmod). done.
Qed.

Lemma TransformerBlock_init_bad_rate (src : list nat -> R) bs C hs nh rate :
  nh <> 0 -> hs mod nh = 0 -> rate_ok rate = false ->
  TransformerBlock_init src bs C hs nh rate = Raise ValueError.
Proof.
  intros Hnh Hmod Hrate. unfold TransformerBlock_init, MultiHeadAttention_init.
  rewrite (proj2 (Nat.eqb_neq _ _) Hnh), (proj2 (Nat.eqb_eq _ _) Hmod), Hrate.
  done.
Qed.

Lemma TransformerBlock_init_total (src : list nat -> R) bs C hs nh rate :
  nh <> 0 -> hs mod nh = 0 -> rate_ok rate = true ->
  succeeds (TransformerBlock_init src bs C hs nh rate).
Proof.
  intros Hnh Hmod Hrate.
  unfold TransformerBlock_init, MultiHeadAttention_init, FeedForward_init.
  rewrite (proj2 (Nat.eqb_neq _ _) Hnh), (proj2 (Nat.eqb_eq _ _) Hmod), Hrate.
  by eexists.
Qed.

Lemma TransformerLanguageModel_init_total (src : list nat -> R)
  (V bs C hs nh nb : nat) (rate : R) :
  nb = 0 \/ (nh <> 0 /\ hs mod nh = 0 /\ rate_ok rate = true) ->
  exists self,
    TransformerLanguageModel_init src V bs C hs nh nb rate = Ok self /\
    wf_model self /\ length (blocks self) = nb.
Proof.
  intros Hcase.
  destruct (mapM_result_total
              (fun i => TransformerBlock_init (sub_source (sub_source src 2) i)
                          bs C hs nh rate) (seq 0 nb)) as [bl Hbl].
  { destruct Hcase as [->|(Hnh & Hmod & Hrate)]; [constructor|].
    apply Forall_forall. intros i _. by apply TransformerBlock_init_total. }
  assert (Hinit : TransformerLanguageModel_init src V bs C hs nh nb rate
                  = Ok (mk_TransformerLanguageModel V bs C hs nh nb
                          (Embedding_init (sub_source src 0) V C)
                          (Embedding_init (sub_source src 1) bs C) bl
                          (LayerNorm_init (sub_source src 3) C)
                          (Linear_init (sub_source src 4) hs V true))).
  { unfold TransformerLanguageModel_init. cbn zeta. by rewrite Hbl. }
  eexists. split; [exact Hinit|]. split.
  - by apply TransformerLanguageModel_init_Ok in Hinit as (? & _).
  - cbn. apply mapM_result_length in Hbl. by rewrite Hbl, length_seq.
Qed.

(** X12: what the constructor of the model checks.  Each block asserts that
    [head_size] is a multiple of [num_heads]; with no heads the remainder
    itself raises [ZeroDivisionError], and with a head size that is not a
    multiple the assertion fails.  After the assertion, [nn.Dropout] raises
    [ValueError] for a rate outside [0, 1].  With heads that divide the head
    size and such a rate the model is built.  A model without blocks checks
    nothing: it is built for any head size, any number of heads and any
    rate. *)
Theorem TransformerLanguageModel_init_outcome (src : list nat -> R)
  (V bs C hs nh nb : nat) (rate : R) :
  (nb = 0 \/ (nh <> 0 /\ hs mod nh = 0 /\ rate_ok rate = true) ->
   exists self,
     TransformerLanguageModel_init src V bs C hs nh nb rate = Ok self /\
     wf_model self /\ length (blocks self) = nb) /\
  (nb <> 0 -> nh = 0 ->
   TransformerLanguageModel_init src V bs C hs nh nb rate
   = Raise ZeroDivisionError) /\
  (nb <> 0 -> nh <> 0 -> hs mod nh <> 0 ->
   TransformerLanguageModel_init src V bs C hs nh nb rate
   = Raise AssertionError) /\
  (nb <> 0 -> nh <> 0 -> hs mod nh = 0 -> rate_ok rate = false ->
   TransformerLanguageModel_init src V bs C hs nh nb rate
   = Raise ValueError).
Proof.
  split_and!.
  - apply TransformerLanguageModel_init_total.
  - intros Hnb ->. destruct nb as [|nb]; [done|].
    unfold TransformerLanguageModel_init. cbn zeta. cbn [seq].
    by rewrite mapM_result_cons, TransformerBlock_init_no_heads.
  - intros Hnb Hnh Hmod. destruct nb as [|nb]; [done|].
    unfold TransformerLanguageModel_init. cbn zeta. cbn [seq].
    by rewrite mapM_result_cons, TransformerBlock_init_indivisible.
  - intros Hnb Hnh Hmod Hrate. destruct nb as [|nb]; [done|].
    unfold TransformerLanguageModel_init. cbn zeta. cbn [seq].
    by rewrite mapM_result_cons, TransformerBlock_init_bad_rate.
Qed.

(** *** The number of parameters *)

Lemma sum_list_const {A} (f : A -> nat) (c : nat) (l : list A) :
  Forall (fun x => f x = c) l -> sum_list (f <$> l) = length l * c.
Proof.
  induction 1 as [|x l Hx _ IH]; [done|]. cbn. rewrite Hx, IH. lia.
Qed.

Lemma numel_tabulate (n m : nat) (f : nat -> nat -> R) :
  numel (tabulate n (fun j => tabulate m (f j))) = n * m.
Proof.
  unfold numel, tabulate. rewrite <- list_fmap_compose.
  rewrite (sum_list_const _ m).
  - by rewrite length_seq.
  - apply Forall_forall. intros j _. cbn. by rewrite length_fmap, length_seq.
Qed.

Lemma Linear_numel_init (src : list nat -> R) (inf outf : nat) (b : bool) :
  Linear_numel (Linear_init src inf outf b)
  = outf * inf + (if b then outf else 0).
Proof.
  unfold Linear_numel, Linear_init. cbn [weight bias].
  rewrite numel_tabulate. destruct b; cbn; [|done].
  by rewrite length_tabulate.
Qed.

Lemma LayerNorm_numel_init (src : list nat -> R) (C : nat) :
  LayerNorm_numel (LayerNorm_init src C) = C + C.
Proof.
  unfold LayerNorm_numel, LayerNorm_init. cbn. by rewrite !length_tabulate.
Qed.

Lemma TransformerBlock_numel_init (src : list nat -> R) bs C hs nh rate b :
  TransformerBlock_init src bs C hs nh rate = Ok b ->
  TransformerBlock_numel b = 4 * hs * C + 8 * C * C + 10 * C.
Proof.
  unfold TransformerBlock_init, MultiHeadAttention_init, FeedForward_init.
  destruct (nh =? 0); [discriminate|].
  destruct (negb (hs mod nh =? 0)); [discriminate|].
  destruct (negb (rate_ok rate)); [discriminate|].
  intros [= <-]. unfold TransformerBlock_numel, MultiHeadAttention_numel.
  cbn [tb_sa tb_ff tb_ln1 tb_ln2 mha_key mha_query mha_value mha_proj
       ff_lin1 ff_lin2].
  rewrite !Linear_numel_init, !LayerNorm_numel_init. lia.
Qed.

(** X13: the number of parameters of a constructed model, as the notebook
    counts them: the two embedding tables, per block the three projections
    without bias, the output projection, the two layers of the feed-forward
    network and the two layer norms, then the final layer norm and the
    head. *)
Theorem num_params_init (src : list nat -> R) (V bs C hs nh nb : nat)
  (rate : R) (self : TransformerLanguageModel) :
  TransformerLanguageModel_init src V bs C hs nh nb rate = Ok self ->
  num_params self
  = V * C + bs * C + nb * (4 * hs * C + 8 * C * C + 10 * C)
    + 2 * C + (V * hs + V).
Proof.
  unfold TransformerLanguageModel_init. cbn zeta. intros H.
  apply result_bind_Ok in H as (bl & Hbl & [= <-]).
  unfold num_params.
  cbn [token_embedding pos_embedding blocks ln_f lm_head].
  unfold Embedding_init. cbn [emb_weight].
  rewrite !numel_tabulate, Linear_numel_init, LayerNorm_numel_init.
  rewrite (sum_list_const _ (4 * hs * C + 8 * C * C + 10 * C)).
  - apply mapM_result_length in Hbl. rewrite Hbl, length_seq. lia.
  - apply mapM_result_Ok in Hbl.
    apply Forall_forall. intros b Hb. apply list_elem_of_lookup in Hb as [i Hi].
    destruct (Forall2_lookup_r _ _ _ _ _ Hbl Hi) as (j & _ & Hj).
    by eapply TransformerBlock_numel_init.
Qed.

(** *** Sampling in two calls *)

Lemma TM_bind_assoc {A B C} (m : TM A) (f : A -> TM B) (g : B -> TM C)
  (w : world) :
  ((m ≫= f) ≫= g) w = (m ≫= (fun a => f a ≫= g)) w.
Proof.
  rewrite !TM_bind_unfold. by destruct (m w) as [[a|e] w'].
Qed.

Lemma TM_bind_ext {A B} (m : TM A) (f g : A -> TM B) (w : world) :
  (forall a w', f a w' = g a w') -> (m ≫= f) w = (m ≫= g) w.
Proof.
  intros H. rewrite !TM_bind_unfold. by destruct (m w) as [[a|e] w'].
Qed.

Lemma generate_steps_add (self : TransformerLanguageModel) (n m : nat)
  (idx : tensor2) (w : world) :
  generate_steps self (n + m) idx w
  = (generate_steps self n idx ≫= generate_steps self m) w.
Proof.
  revert idx w. induction n as [|n IH]; intros idx w; [done|].
  cbn [Nat.add generate_steps].
  rewrite TM_bind_assoc. apply TM_bind_ext. intros out w1.
  rewrite TM_bind_assoc. apply TM_bind_ext. intros logits w2.
  rewrite TM_bind_assoc. apply TM_bind_ext. intros idx_next w3.
  rewrite TM_bind_assoc. apply TM_bind_ext. intros idx' w4.
  apply IH.
Qed.

(** X14: sampling can be resumed: generating [n + m] tokens in one call is
    generating [n] tokens and then [m] more from the result, with the same
    tokens, the same final state of the generator and of the module, and
    the same exception at the same point if one is raised. *)
Theorem generate_resume (self : TransformerLanguageModel) (idx : tensor2)
  (n m : nat) (w : world) :
  generate self idx (n + m) w
  = (generate self idx n ≫= fun out => generate self out m) w.
Proof.
  rewrite TM_bind_unfold, (generate_unfold self idx (n + m)),
    (generate_unfold self idx n).
  set (w0 := mk_world false (torch_tapes w) (torch_pos w)).
  rewrite generate_steps_add, TM_bind_unfold.
  pose proof (keeps_eval_generate_steps self n idx w0 eq_refl) as Hk.
  destruct (generate_steps self n idx w0) as [[out|e] w1]; [|done].
  rewrite generate_unfold. cbn [torch_tapes torch_pos].
  destruct w1 as [tr tapes pos]. cbn in Hk. subst tr. done.
Qed.

End InitExtras.

(** ** The test driver *)

Lemma unreverse_app (d : nat) (P A : list string) (e : string) :
  length P = 2 * d + 3 ->
  unreverse d (P ++ A ++ [e]) = P ++ rev A ++ [e].
Proof.
  intros HP. unfold unreverse. cbn zeta.
  replace (length (P ++ A ++ [e]) - 1) with (length (P ++ A)).
  2:{ rewrite !length_app. cbn. lia. }
  rewrite take_app_length' by done.
  rewrite (app_assoc P A [e]), take_app_length, drop_app_length.
  by rewrite drop_app_length'.
Qed.

Lemma problem_of_parts (d : nat) (bw : bool) (a b : Z) :
  problem_of d bw a b
  = prompt_of d a b
    ++ (if bw then rev (list_of_str (zfill (d + 1) (str (add64 a b))))
        else list_of_str (zfill (d + 1) (str (add64 a b))))
    ++ ["<END>"].
Proof. unfold problem_of, prompt_of. by destruct bw. Qed.

Lemma length_prompt_of (d : nat) (a b : Z) :
  1 <= d -> (0 <= a < 10 ^ Z.of_nat d)%Z -> (0 <= b < 10 ^ Z.of_nat d)%Z ->
  length (prompt_of d a b) = 2 * d + 3.
Proof.
  intros Hd Ha Hb. unfold prompt_of. cbn [length].
  rewrite length_list_of_str, !length_string_app.
  rewrite !zfill_length by lia. cbn. lia.
Qed.

(** X15: the slices of the branch [if backward:] of [test_gpt_adder] undo
    the reversal of [generate_batch]: applied to a problem in the backward
    format, they give the same problem in the forward format. *)
Theorem unreverse_problem (d : nat) (a b : Z) :
  1 <= d -> (0 <= a < 10 ^ Z.of_nat d)%Z -> (0 <= b < 10 ^ Z.of_nat d)%Z ->
  unreverse d (problem_of d true a b) = problem_of d false a b.
Proof.
  intros Hd Ha Hb. rewrite !problem_of_parts.
  rewrite unreverse_app by by apply length_prompt_of.
  by rewrite rev_involutive.
Qed.

Lemma unreverse_problem_witness :
  unreverse 2 (problem_of 2 true 57 68) = problem_of 2 false 57 68.
Proof. apply (unreverse_problem 2 57 68); lia. Defined.

(** X16: on a sequence of at least [2*max_digits+4] symbols the slices
    keep the length, the prompt and the last symbol, and applying them
    twice gives the sequence back.  On a shorter, non-empty sequence (no
    symbol was generated after the prompt, or only padding) the first and
    the last slice overlap, and the result is the sequence followed by a
    second copy of its last symbol. *)
Theorem unreverse_length (d : nat) (seq : list string) :
  (2 * d + 4 <= length seq ->
   length (unreverse d seq) = length seq /\
   take (2 * d + 3) (unreverse d seq) = take (2 * d + 3) seq /\
   last (unreverse d seq) = last seq /\
   unreverse d (unreverse d seq) = seq) /\
  (1 <= length seq <= 2 * d + 3 ->
   unreverse d seq = seq ++ drop (length seq - 1) seq /\
   length (unreverse d seq) = length seq + 1).
Proof.
  split.
  - intros Hlen.
    assert (Hdec : exists P M e, seq = P ++ M ++ [e] /\ length P = 2 * d + 3).
    { exists (take (2 * d + 3) seq).
      assert (Hrest : length (drop (2 * d + 3) seq) <> 0).
      { rewrite length_drop. lia. }
      destruct (drop (2 * d + 3) seq) as [|e M _] eqn:Hdrop using rev_ind;
        [done|].
      exists M, e. split; [|rewrite length_take; lia].
      by rewrite <- Hdrop, take_drop. }
    destruct Hdec as (P & M & e & -> & HP).
    rewrite !unreverse_app by done.
    rewrite rev_involutive. split_and!; try done.
    + rewrite !length_app, length_rev. done.
    + by rewrite !take_app_length' by done.
    + by rewrite !app_assoc, !last_snoc.
  - intros [H1 H2]. unfold unreverse. cbn zeta.
    rewrite (take_ge seq (2 * d + 3)) by lia.
    rewrite (drop_ge (take _ _)) by (rewrite length_take; lia).
    cbn [rev app]. split; [done|].
    rewrite length_app, length_drop. lia.
Qed.

Lemma unreverse_length_witness :
  (length (unreverse 1 ["<START>"; "1"; "+"; "2"; "="; "3"; "0"; "<END>"]) = 8 /\
   take (2 * 1 + 3)
     (unreverse 1 ["<START>"; "1"; "+"; "2"; "="; "3"; "0"; "<END>"])
   = take (2 * 1 + 3) ["<START>"; "1"; "+"; "2"; "="; "3"; "0"; "<END>"] /\
   last (unreverse 1 ["<START>"; "1"; "+"; "2"; "="; "3"; "0"; "<END>"])
   = last ["<START>"; "1"; "+"; "2"; "="; "3"; "0"; "<END>"] /\
   unreverse 1
     (unreverse 1 ["<START>"; "1"; "+"; "2"; "="; "3"; "0"; "<END>"])
   = ["<START>"; "1"; "+"; "2"; "="; "3"; "0"; "<END>"]) /\
  unreverse 1 ["<START>"; "1"; "+"; "2"; "="]
  = ["<START>"; "1"; "+"; "2"; "="] ++ ["="].
Proof.
  split.
  - apply (proj1 (unreverse_length 1
                    ["<START>"; "1"; "+"; "2"; "="; "3"; "0"; "<END>"])).
    cbn. lia.
  - apply (proj2 (unreverse_length 1 ["<START>"; "1"; "+"; "2"; "="])).
    cbn. lia.
Defined.








Section TestExtras.

Context {R : Type} {SR : Scalar R} {DV : Device} {SL : SampleInRange R}.


End TestExtras.

(** ** Loss estimation *)

Section LossExtras.

Context {R : Type} {SR : Scalar R} {DV : Device}.

Lemma EM_bind_unfold {A B} (m : EM A) (f : A -> EM B) (e : env) :
  (m ≫= f) e = match m e with
               | (Ok a, e') => f a e'
               | (Raise x, e') => (Raise x, e')
               end.
Proof. reflexivity. Qed.

(** An iteration of the inner loop in eval mode, by cases on its two
    calls. *)
Lemma estimate_split_step (model : TransformerLanguageModel)
  (n bs B d : nat) (bw : bool) (losses : list R) (e : env) :
  training (env_world e) = false ->
  estimate_split model (S n) bs B d bw losses e
  = match generate_batch bs B d bw (env_np e) with
    | Ok ((x, y), s1) =>
        match forward_with model false
                (torch_tapes (env_world e) (torch_pos (env_world e)))
                x (Some y) with
        | Ok (_, Some loss) =>
            estimate_split model n bs B d bw (losses ++ [loss])
                           (mk_env s1 (env_world e))
        | Ok (_, None) => (Raise RuntimeError, mk_env s1 (env_world e))
        | Raise x => (Raise x, mk_env s1 (env_world e))
        end
    | Raise x => (Raise x, e)
    end.
Proof.
  intros Hw. cbn [estimate_split]. rewrite EM_bind_unfold. unfold em_np at 1.
  destruct (generate_batch bs B d bw (env_np e)) as [[[x y] s1]|err]; [|done].
  rewrite EM_bind_unfold. unfold em_tm at 1, forward.
  cbn [env_world env_np fst snd]. rewrite Hw.
  destruct (forward_with _ _ _ _ _) as [[lg [loss|]]|err]; done.
Qed.

Lemma estimate_split_world (model : TransformerLanguageModel)
  (n bs B d : nat) (bw : bool) (losses : list R) (e : env) :
  training (env_world e) = false ->
  env_world (estimate_split model n bs B d bw losses e).2 = env_world e.
Proof.
  revert losses e. induction n as [|n IH]; intros losses e Hw; [done|].
  rewrite estimate_split_step by done.
  destruct (generate_batch bs B d bw (env_np e)) as [[[x y] s1]|err]; [|done].
  destruct (forward_with _ _ _ _ _) as [[lg [loss|]]|err]; try done.
  by rewrite IH.
Qed.

Lemma estimate_splits_world (model : TransformerLanguageModel)
  (splits : list string) (k bs B d : nat) (bw : bool) (out : gmap string R)
  (e : env) :
  training (env_world e) = false ->
  env_world (estimate_splits model splits k bs B d bw out e).2 = env_world e.
Proof.
  revert out e. induction splits as [|sp splits IH]; intros out e Hw; [done|].
  cbn [estimate_splits]. rewrite EM_bind_unfold.
  pose proof (estimate_split_world model k bs B d bw [] e Hw) as Hs.
  destruct (estimate_split model k bs B d bw [] e) as [[ls|err] e1];
    cbn [snd] in Hs; [|done].
  rewrite IH; [done | by rewrite Hs].
Qed.

Lemma estimate_loss_unfold (model : TransformerLanguageModel)
  (k bs B d : nat) (bw : bool) (e : env) :
  estimate_loss model k bs B d bw e
  = match estimate_splits model ["train"; "val"] k bs B d bw ∅
            (mk_env (env_np e)
               (mk_world false (torch_tapes (env_world e))
                         (torch_pos (env_world e)))) with
    | (Ok out, e1) =>
        (Ok out,
         mk_env (env_np e1)
           (mk_world true (torch_tapes (env_world e1))
                     (torch_pos (env_world e1))))
    | (Raise x, e1) => (Raise x, e1)
    end.
Proof. reflexivity. Qed.

(** X18: [estimate_loss] and the state of the model.  The function never
    draws from torch's generator; when it returns, the model is in train
    mode, whatever its mode was before the call, and when it raises, the
    model is left in eval mode. *)
Theorem estimate_loss_mode (model : TransformerLanguageModel)
  (k bs B d : nat) (bw : bool) (e : env) :
  env_world (estimate_loss model k bs B d bw e).2
  = mk_world (match (estimate_loss model k bs B d bw e).1 with
              | Ok _ => true
              | Raise _ => false
              end)
             (torch_tapes (env_world e)) (torch_pos (env_world e)).
Proof.
  rewrite estimate_loss_unfold.
  set (e0 := mk_env (env_np e) _).
  pose proof (estimate_splits_world model ["train"; "val"] k bs B d bw ∅ e0
                eq_refl) as Hs.
  destruct (estimate_splits model _ k bs B d bw ∅ e0) as [[out|err] e1];
    cbn [fst snd env_world] in *; by rewrite Hs.
Qed.

(** In eval mode the losses of the inner loop depend on numpy's generator
    only. *)
Lemma estimate_split_np (model : TransformerLanguageModel)
  (n bs B d : nat) (bw : bool) (losses : list R) (e e' : env) :
  env_np e = env_np e' ->
  training (env_world e) = false -> training (env_world e') = false ->
  (estimate_split model n bs B d bw losses e).1
  = (estimate_split model n bs B d bw losses e').1.
Proof.
  revert losses e e'. induction n as [|n IH]; intros losses e e' Hnp Hw Hw';
    [done|].
  rewrite !estimate_split_step by done. rewrite <- Hnp.
  destruct (generate_batch bs B d bw (env_np e)) as [[[x y] s1]|err]; [|done].
  rewrite (forward_with_eval model
             (torch_tapes (env_world e') (torch_pos (env_world e')))
             (torch_tapes (env_world e) (torch_pos (env_world e)))).
  destruct (forward_with _ _ _ _ _) as [[lg [loss|]]|err]; try done.
  by apply IH.
Qed.

Lemma estimate_split_returns (model : TransformerLanguageModel)
  (n bs B d : nat) (bw : bool) (losses : list R) (e : env) :
  wf_model model -> lm_head_size model = lm_embedding_dim model ->
  lm_vocab_size model = vocab_size -> bs <= lm_block_size model ->
  3 * d + 7 <= bs -> 1 <= B -> 1 <= d <= 18 ->
  training (env_world e) = false ->
  exists ls,
    length ls = n /\
    estimate_split model n bs B d bw losses e
    = (Ok (losses ++ ls),
       mk_env (advance (env_np e) (2 * B * n)) (env_world e)).
Proof.
  intros Hwf Hhs HV Hctx Hbs HB Hd.
  revert losses e. induction n as [|n IH]; intros losses e Hw.
  - exists []. rewrite app_nil_r, Nat.mul_0_r, advance_0. by destruct e.
  - rewrite estimate_split_step by done.
    destruct (generate_batch_total bs B d bw (env_np e) Hbs HB Hd)
      as (x & y & s1 & Hg & _).
    pose proof (generate_batch_states _ _ _ _ _ _ _ _ Hg) as (_ & _ & -> & _).
    rewrite Hg.
    destruct (forward_with_batch model false
                (torch_tapes (env_world e) (torch_pos (env_world e)))
                bs B d bw _ _ x y Hwf Hhs HV Hctx Hg)
      as (lg & loss & -> & _).
    destruct (IH (losses ++ [loss])
                 (mk_env (advance (env_np e) (2 * B)) (env_world e)) Hw)
      as (ls & Hlen & ->).
    exists (loss :: ls). cbn [length env_np env_world].
    rewrite <- app_assoc, advance_advance. cbn [app].
    split; [by rewrite Hlen|]. do 3 f_equal. lia.
Qed.

(** X19: [estimate_loss] on a model built for the vocabulary of the
    tokenizer whose context holds a block, with parameters that
    [generate_batch] accepts.  The call returns a dictionary with exactly
    the keys ['train'] and ['val'], after [eval_iters] batches for each,
    that is [4 * batch_size * eval_iters] draws of numpy's generator.
    Nothing distinguishes the two splits but the draws: the ['val']
    estimate is the ['train'] estimate of a call that starts from the
    generator advanced by the draws of the first split. *)
Theorem estimate_loss_returns (src : list nat -> R) (ctx C nh nb : nat)
  (rate : R) (model : TransformerLanguageModel) (k bs B d : nat) (bw : bool)
  (e : env) :
  TransformerLanguageModel_init src vocab_size ctx C C nh nb rate = Ok model ->
  bs <= ctx -> 3 * d + 7 <= bs -> 1 <= B -> 1 <= d <= 18 ->
  exists train val,
    estimate_loss model k bs B d bw e
    = (Ok (<["val" := val]> (<["train" := train]> ∅)),
       mk_env (advance (env_np e) (4 * B * k))
              (mk_world true (torch_tapes (env_world e))
                        (torch_pos (env_world e)))) /\
    forall e', env_np e' = advance (env_np e) (2 * B * k) ->
      exists out',
        (estimate_loss model k bs B d bw e').1 = Ok out' /\
        out' !! "train" = Some val.
Proof.
  intros Hinit Hctx Hbs HB Hd.
  apply TransformerLanguageModel_init_Ok in Hinit as (Hwf & HV & Hbs' & HC & Hhs).
  assert (Hhs' : lm_head_size model = lm_embedding_dim model) by congruence.
  rewrite <- Hbs' in Hctx.
  pose proof (fun n losses e0 =>
                estimate_split_returns model n bs B d bw losses e0 Hwf Hhs' HV
                  Hctx Hbs HB Hd) as Hsplit.
  set (w0 := mk_world false (torch_tapes (env_world e))
                      (torch_pos (env_world e))).
  destruct (Hsplit k [] (mk_env (env_np e) w0) eq_refl) as (ls1 & _ & H1).
  destruct (Hsplit k [] (mk_env (advance (env_np e) (2 * B * k)) w0) eq_refl)
    as (ls2 & _ & H2).
  cbn [app env_np env_world] in H1, H2.
  exists (mean ls1), (mean ls2). split.
  - rewrite estimate_loss_unfold. fold w0. cbn [estimate_splits].
    rewrite EM_bind_unfold, H1, EM_bind_unfold, H2.
    cbn [mret EM_ret env_np env_world]. rewrite advance_advance.
    do 3 f_equal. lia.
  - intros e' He'.
    set (w0' := mk_world false (torch_tapes (env_world e'))
                         (torch_pos (env_world e'))).
    destruct (Hsplit k [] (mk_env (env_np e') w0') eq_refl) as (ls1' & _ & H1').
    destruct (Hsplit k [] (mk_env (advance (env_np e') (2 * B * k)) w0')
                eq_refl) as (ls2' & _ & H2').
    cbn [app env_np env_world] in H1', H2'.
    assert (ls1' = ls2) as ->.
    { pose proof (estimate_split_np model k bs B d bw []
                    (mk_env (env_np e') w0')
                    (mk_env (advance (env_np e) (2 * B * k)) w0)
                    He' eq_refl eq_refl) as Hnp.
      rewrite H1', H2 in Hnp. by injection Hnp. }
    exists (<["val" := mean ls2']> (<["train" := mean ls2]> ∅)). split.
    + rewrite estimate_loss_unfold. fold w0'. cbn [estimate_splits].
      rewrite EM_bind_unfold, H1', EM_bind_unfold, H2'. done.
    + rewrite lookup_insert_ne by done. by rewrite lookup_insert.
Qed.

(** X23: the two edges of [estimate_loss].  With [eval_iters = 0] nothing
    is generated and nothing is checked: for any model and any sizes the
    call returns, for both splits, the mean of an empty tensor, zero divided
    by zero.  With at least one iteration and a block size below
    [3*max_digits+7], the first [generate_batch] raises [AssertionError]:
    nothing is drawn, and the model stays in eval mode. *)
Theorem estimate_loss_edges (model : TransformerLanguageModel)
  (k bs B d : nat) (bw : bool) (e : env) :
  (k = 0 ->
   estimate_loss model k bs B d bw e
   = (Ok (<["val" := rdiv rzero (of_nat 0)]>
            (<["train" := rdiv rzero (of_nat 0)]> ∅)),
      mk_env (env_np e)
             (mk_world true (torch_tapes (env_world e))
                       (torch_pos (env_world e))))) /\
  (1 <= k -> bs < 3 * d + 7 ->
   estimate_loss model k bs B d bw e
   = (Raise AssertionError,
      mk_env (env_np e)
             (mk_world false (torch_tapes (env_world e))
                       (torch_pos (env_world e))))).
Proof.
  split.
  - intros ->. reflexivity.
  - intros Hk Hbs. destruct k as [|k]; [lia|].
    rewrite estimate_loss_unfold. cbn [estimate_splits].
    rewrite EM_bind_unfold, estimate_split_step by done.
    cbn [env_np env_world].
    unfold generate_batch. cbn zeta.
    by rewrite (proj2 (Nat.leb_gt _ _) Hbs).
Qed.

End LossExtras.

(** ** The properties above on the small models *)

Lemma adder_model_Ok : adder_model = Ok adder_lm.
Proof. vm_compute. reflexivity. Qed.

Lemma forward_deterministic_witness :
  forward toy_lm toy_idx None (toy_world false)
  = (forward_with toy_lm false toy_tape toy_idx None, toy_world false) /\
  forward toy_lm toy_idx None (toy_world true)
  = (forward_with toy_lm false toy_tape toy_idx None, toy_world true).
Proof.
  pose proof (forward_deterministic toy_source 5 4 4 4 2 1 (Some 0%Z) toy_lm
                toy_idx None toy_model_Ok) as (_ & Heval & Hzero).
  split.
  - apply Heval. reflexivity.
  - apply (proj2 (Hzero (or_introl eq_refl))).
Defined.

Lemma cross_entropy_ignore_witness :
  cross_entropy 2 [[Some 1; Some 2]; [Some 0; Some 3]]%Z [-1; 1]%Z
  = cross_entropy 2 [[Some 5; Some 5]; [Some 0; Some 3]]%Z [-1; 1]%Z.
Proof.
  apply (cross_entropy_ignore 2 [[Some 1; Some 2]; [Some 0; Some 3]]%Z
           [[Some 5; Some 5]; [Some 0; Some 3]]%Z [-1; 1]%Z eq_refl).
  intros [|[|i]] t Ht Hne; [|reflexivity|discriminate Ht].
  injection Ht as <-. exfalso. apply Hne. reflexivity.
Defined.


Lemma training_step_forward_witness :
  exists lg loss,
    forward_with adder_lm true toy_tape (mk_tensor2 1 10 [example_x])
      (Some (mk_tensor2 1 10 [example_y]))
    = Ok (Logits2 (1 * 10) vocab_size lg, Some loss) /\
    length lg = 1 * 10 /\
    cross_entropy vocab_size lg (concat (rows (mk_tensor2 1 10 [example_y])))
    = Ok loss.
Proof.
  apply (training_step_forward toy_source 13 4 2 1 (Some 0%Z) adder_lm true
           toy_tape 10 1 1 false example_np _ _ _ adder_model_Ok
           ltac:(lia) example_batch).
Defined.

Lemma TransformerLanguageModel_init_outcome_witness :
  (exists self,
      TransformerLanguageModel_init toy_source 5 4 4 4 2 1 (Some 0%Z) = Ok self /\
      wf_model self /\ length (blocks self) = 1) /\
  TransformerLanguageModel_init toy_source 5 4 4 4 0 1 (Some 0%Z)
  = Raise ZeroDivisionError /\
  TransformerLanguageModel_init toy_source 5 4 4 3 2 1 (Some 0%Z)
  = Raise AssertionError /\
  TransformerLanguageModel_init toy_source 5 4 4 4 2 1 (Some 2%Z)
  = Raise ValueError.
Proof.
  split_and!.
  - apply (proj1 (TransformerLanguageModel_init_outcome toy_source 5 4 4 4 2 1
                    (Some 0%Z))).
    right. split_and!; [lia | reflexivity | reflexivity].
  - apply (proj1 (proj2 (TransformerLanguageModel_init_outcome toy_source
                           5 4 4 4 0 1 (Some 0%Z)))); [lia | reflexivity].
  - apply (proj1 (proj2 (proj2 (TransformerLanguageModel_init_outcome
                                  toy_source 5 4 4 3 2 1 (Some 0%Z)))));
      [lia | lia |].
    cbn. lia.
  - apply (proj2 (proj2 (proj2 (TransformerLanguageModel_init_outcome
                                  toy_source 5 4 4 4 2 1 (Some 2%Z)))));
      [lia | lia | reflexivity | reflexivity].
Defined.

(** The model of the notebook (vocabulary 16, context 38, dimension 128,
    4 heads, 4 blocks) has the 800784 parameters that the notebook
    prints. *)
Lemma num_params_init_witness :
  exists self,
    TransformerLanguageModel_init toy_source 16 38 128 128 4 4 (Some 0%Z)
    = Ok self /\
    Z.of_nat (num_params self) = 800784%Z.
Proof.
  destruct (TransformerLanguageModel_init_total toy_source 16 38 128 128 4 4
              (Some 0%Z)) as (self & Hself & _).
  { right. split_and!; [lia | reflexivity | reflexivity]. }
  exists self. split; [exact Hself|].
  rewrite (num_params_init toy_source 16 38 128 128 4 4 (Some 0%Z) self Hself).
  lia.
Defined.


Lemma estimate_loss_returns_witness :
  exists train val,
    estimate_loss adder_lm 1 10 1 1 false toy_env
    = (Ok (<["val" := val]> (<["train" := train]> ∅)),
       mk_env (advance (env_np toy_env) (4 * 1 * 1))
              (mk_world true (torch_tapes (env_world toy_env))
                        (torch_pos (env_world toy_env)))) /\
    exists out',
      (estimate_loss adder_lm 1 10 1 1 false
         (mk_env (advance example_np (2 * 1 * 1)) (toy_world false))).1
      = Ok out' /\
      out' !! "train" = Some val.
Proof.
  destruct (estimate_loss_returns toy_source 13 4 2 1 (Some 0%Z) adder_lm
              1 10 1 1 false toy_env adder_model_Ok
              ltac:(lia) ltac:(lia) ltac:(lia) ltac:(lia))
    as (train & val & Hret & Hnext).
  exists train, val. split; [exact Hret|].
  apply Hnext. reflexivity.
Defined.

Lemma TransformerBlock_forward_keeps_shape_witness :
  exists b,
    TransformerBlock_init toy_source 4 4 2 2 (Some 0%Z) = Ok b /\
    (exists y, TransformerBlock_forward b false toy_tape toy_activations = Ok y
               /\ has_shape 1 6 4 y) /\
    TransformerBlock_forward b false toy_tape toy_activations_narrow
    = Raise RuntimeError.
Proof.
  destruct (TransformerBlock_init_total toy_source 4 4 2 2 (Some 0%Z))
    as [b Hb]; [lia | reflexivity | reflexivity |].
  exists b. split; [exact Hb|].
  pose proof (fun x => TransformerBlock_forward_keeps_shape toy_source 4 4 2 2
                         (Some 0%Z) b false toy_tape x Hb) as H.
  split.
  - apply (proj1 (H toy_activations)).
    unfold has_shape. cbn. split_and!; try reflexivity. by constructor.
  - apply (proj2 (H toy_activations_narrow)). cbn. lia.
Defined.

Lemma estimate_loss_edges_witness :
  estimate_loss adder_lm 0 10 1 1 false toy_env
  = (Ok (<["val" := rdiv rzero (of_nat 0)]>
           (<["train" := rdiv rzero (of_nat 0)]> ∅)),
     mk_env (env_np toy_env)
            (mk_world true (torch_tapes (env_world toy_env))
                      (torch_pos (env_world toy_env)))) /\
  estimate_loss adder_lm 2 9 1 1 false toy_env
  = (Raise AssertionError,
     mk_env (env_np toy_env)
            (mk_world false (torch_tapes (env_world toy_env))
                      (torch_pos (env_world toy_env)))).
Proof.
  split.
  - apply (proj1 (estimate_loss_edges adder_lm 0 10 1 1 false toy_env)).
    reflexivity.
  - apply (proj2 (estimate_loss_edges adder_lm 2 9 1 1 false toy_env)); lia.
Defined.
